(** * ssh_manager: the connection record, its SSH-config text form, and the
      on-disk store, verified against the Python sources.

    Part I embeds the code ([core/connection.py], [core/config_manager.py],
    [src/ssh_manager/backend/file_utils.py], [.../templates.py],
    [.../ssh_manager.py]) as executable definitions.  Part II proves the
    properties.

    Modelling conventions.
    - A Python [str] is a list of characters over the 8-bit alphabet
      (code points 0..255, i.e. Latin-1).
    - A function that may raise returns a [result]; a function that touches
      the disk threads the file system explicitly.
    - Messages of exceptions raised by the interpreter or the standard
      library (as opposed to messages built by this repository's own
      [raise] statements) are left empty. *)

From Stdlib Require Import ZArith Ascii String List Bool Lia.
From stdpp Require Import base option list gmap strings.
Import ListNotations.

Local Open Scope Z_scope.
Local Open Scope list_scope.

(* ===================================================================== *)
(** * Part I.  The embedding                                              *)
(* ===================================================================== *)

(** ** Python values shared by all modules *)

Abbreviation str := (list ascii).

(** [lit "abc"] is the Python literal ['abc']. *)
Abbreviation lit := list_ascii_of_string.

Inductive exn_kind :=
| ValueError
| FileNotFoundError
| FileExistsError
| NotADirectoryError
| IsADirectoryError
| DirectoryNotEmpty   (* OSError(ENOTEMPTY) *)
| ShutilError
| IndexError
| AttributeError
| KeyError
| NotModelled.        (* behaviour outside the modelled fragment *)

Record exn := Exn { kind : exn_kind; message : str }.

Inductive result (A : Type) :=
| Ok (a : A)
| Raise (e : exn).
Arguments Ok {A} a.
Arguments Raise {A} e.

Definition is_raise {A} (r : result A) : bool :=
  match r with Raise _ => true | Ok _ => false end.

Definition raised_kind {A} (r : result A) : option exn_kind :=
  match r with Raise e => Some (kind e) | Ok _ => None end.

(** ** [str] primitives *)
Module Py.

Definition chr (n : N) : ascii := ascii_of_N n.
Definition ord (c : ascii) : N := N_of_ascii c.

Definition nl : ascii := chr 10.
Definition cr : ascii := chr 13.
Definition dquote : ascii := chr 34.
Definition backslash : ascii := chr 92.

Definition str_eqb (a b : str) : bool := bool_decide (a = b).

Definition is_empty (s : str) : bool :=
  match s with [] => true | _ :: _ => false end.

(** [str.isspace] on one character: TAB..CR, FS..US, SPACE, NEL, NBSP. *)
Definition isspace (c : ascii) : bool :=
  let n := ord c in
  ((9 <=? n) && (n <=? 13) || (28 <=? n) && (n <=? 32)
   || (n =? 133) || (n =? 160))%N.

Fixpoint lstrip (s : str) : str :=
  match s with
  | [] => []
  | c :: s' => if isspace c then lstrip s' else s
  end.

Definition rstrip (s : str) : str := rev (lstrip (rev s)).

(** [s.strip()] *)
Definition strip (s : str) : str := rstrip (lstrip s).

(** [s.startswith(p)] *)
Fixpoint startswith (p s : str) : bool :=
  match p with
  | [] => true
  | a :: p' =>
      match s with
      | [] => false
      | b :: s' => Ascii.eqb a b && startswith p' s'
      end
  end.

(** [s.endswith(p)] *)
Definition endswith (p s : str) : bool := startswith (rev p) (rev s).

(** [sub in s] *)
Fixpoint contains (sub s : str) : bool :=
  startswith sub s ||
  match s with
  | [] => false
  | _ :: s' => contains sub s'
  end.

Definition push_head (c : ascii) (l : list str) : list str :=
  match l with
  | h :: t => (c :: h) :: t
  | [] => [[c]]
  end.

(** [s.split(sep)] for a non-empty separator: left to right, occurrences do
    not overlap.  [skip] counts the characters of a matched separator that
    are still to be jumped over. *)
Fixpoint split_from (sep : str) (skip : nat) (s : str) : list str :=
  match s with
  | [] => [[]]
  | c :: s' =>
      match skip with
      | S k => split_from sep k s'
      | O =>
          if startswith sep s
          then [] :: split_from sep (length sep - 1) s'
          else push_head c (split_from sep 0 s')
      end
  end.

Definition split (sep s : str) : list str := split_from sep 0 s.

(** [s.split()]: runs of whitespace separate, empty pieces are dropped.
    The auxiliary function returns the piece under construction and the
    pieces already closed to its right. *)
Fixpoint split_ws_aux (s : str) : str * list str :=
  match s with
  | [] => ([], [])
  | c :: s' =>
      let '(cur, done) := split_ws_aux s' in
      if isspace c
      then ([], if is_empty cur then done else cur :: done)
      else (c :: cur, done)
  end.

Definition split_ws (s : str) : list str :=
  let '(cur, done) := split_ws_aux s in
  if is_empty cur then done else cur :: done.

(** [sep.join(l)] *)
Fixpoint join (sep : str) (l : list str) : str :=
  match l with
  | [] => []
  | [x] => x
  | x :: l' => x ++ sep ++ join sep l'
  end.

(** [s.replace(old, new)] for non-empty [old]. *)
Definition replace (old new s : str) : str := join new (split old s).

(** No character of [s] is white space; [c] does not occur in [s]. *)
Definition no_space (s : str) : bool := forallb (fun c => negb (isspace c)) s.
Definition no_char (c : ascii) (s : str) : bool :=
  forallb (fun x => negb (Ascii.eqb x c)) s.

(** The last character of [s] exists and is not white space. *)
Definition ends_visible (s : str) : bool :=
  match rev s with
  | d :: _ => negb (isspace d)
  | [] => false
  end.

(** The lines of [text] that hold [k]. *)
Definition lines_holding (k text : str) : list str :=
  List.filter (contains k) (split [nl] text).

(** [l[1]] on a list that the caller knows to have two elements. *)
Definition item1 (l : list str) : str := nth 1 l [].

(** *** [str(n)] and [int(s)] for integers *)

Definition digit_char (d : Z) : ascii := chr (48 + Z.to_N d).

Definition digit_of (c : ascii) : option Z :=
  let n := Z.of_N (ord c) in
  if (48 <=? n) && (n <=? 57) then Some (n - 48) else None.

Fixpoint digits_fuel (fuel : nat) (n : Z) (acc : str) : str :=
  let acc' := digit_char (n mod 10) :: acc in
  match fuel with
  | O => acc'
  | S f => if n <? 10 then acc' else digits_fuel f (n / 10) acc'
  end.

Definition str_of_nonneg (n : Z) : str :=
  digits_fuel (Z.to_nat (Z.log2 n)) n [].

(** [str(n)] *)
Definition str_of_int (n : Z) : str :=
  if n <? 0 then "-"%char :: str_of_nonneg (- n) else str_of_nonneg n.

Definition isdigit (c : ascii) : bool :=
  match digit_of c with Some _ => true | None => false end.

(** The characters [str(n)] is made of. *)
Definition int_char (c : ascii) : bool := isdigit c || Ascii.eqb c "-"%char.

(** Decimal digits, single underscores allowed between digits. *)
Fixpoint parse_digits (s : str) (acc : Z) (after_digit : bool) : option Z :=
  match s with
  | [] => if after_digit then Some acc else None
  | c :: s' =>
      if Ascii.eqb c "_"%char
      then (if after_digit then parse_digits s' acc false else None)
      else match digit_of c with
           | Some d => parse_digits s' (10 * acc + d) true
           | None => None
           end
  end.

(** [int(s)]: [None] stands for [ValueError]. *)
Definition int_of_str (s : str) : option Z :=
  match strip s with
  | c :: r =>
      if Ascii.eqb c "-"%char then Z.opp <$> parse_digits r 0 false
      else if Ascii.eqb c "+"%char then parse_digits r 0 false
      else parse_digits (c :: r) 0 false
  | [] => None
  end.

End Py.

(** ** The [json] calls made by the record: [json.loads], and [json.dumps]
       of a one-key dictionary *)
Module Json.
Import Py.

#[local] Unset Elimination Schemes.
Inductive value :=
| JNull
| JBool (b : bool)
| JNum (lexeme : str)
| JStr (s : str)
| JArr (items : list value)
| JObj (members : list (str * value)).
#[local] Set Elimination Schemes.

(** Result of scanning a prefix of the text.  [OutOfAlphabet]: a [\uXXXX]
    escape denotes a character above code point 255. *)
Inductive scan (A : Type) :=
| Parsed (a : A) (rest : str)
| DecodeError
| OutOfAlphabet.
Arguments Parsed {A} a rest.
Arguments DecodeError {A}.
Arguments OutOfAlphabet {A}.

Definition scan_map {A B} (f : A -> B) (r : scan A) : scan B :=
  match r with
  | Parsed a rest => Parsed (f a) rest
  | DecodeError => DecodeError
  | OutOfAlphabet => OutOfAlphabet
  end.

Definition is_ws (c : ascii) : bool :=
  let n := ord c in ((n =? 32) || (n =? 9) || (n =? 10) || (n =? 13))%N.

Fixpoint skip_ws (s : str) : str :=
  match s with
  | c :: s' => if is_ws c then skip_ws s' else s
  | [] => []
  end.

Definition hex_of (c : ascii) : option N :=
  let n := ord c in
  (if (48 <=? n) && (n <=? 57) then Some (n - 48)
   else if (97 <=? n) && (n <=? 102) then Some (n - 87)
   else if (65 <=? n) && (n <=? 70) then Some (n - 55)
   else None)%N.

Definition hex4 (a b c d : ascii) : option N :=
  match hex_of a, hex_of b, hex_of c, hex_of d with
  | Some x, Some y, Some z, Some w => Some (((x * 16 + y) * 16 + z) * 16 + w)%N
  | _, _, _, _ => None
  end.

(** The character after a backslash (other than [u]). *)
Definition unescape (e : ascii) : option ascii :=
  if Ascii.eqb e dquote then Some dquote
  else if Ascii.eqb e backslash then Some backslash
  else if Ascii.eqb e "/"%char then Some "/"%char
  else if Ascii.eqb e "b"%char then Some (chr 8)
  else if Ascii.eqb e "f"%char then Some (chr 12)
  else if Ascii.eqb e "n"%char then Some (chr 10)
  else if Ascii.eqb e "r"%char then Some (chr 13)
  else if Ascii.eqb e "t"%char then Some (chr 9)
  else None.

(** The body of a string, the opening quote already consumed (strict mode:
    raw control characters are rejected). *)
Fixpoint scan_string (s : str) : scan str :=
  match s with
  | [] => DecodeError
  | c :: s' =>
      if Ascii.eqb c dquote then Parsed [] s'
      else if Ascii.eqb c backslash then
        match s' with
        | [] => DecodeError
        | e :: s'' =>
            if Ascii.eqb e "u"%char then
              match s'' with
              | h1 :: h2 :: h3 :: h4 :: s4 =>
                  match hex4 h1 h2 h3 h4 with
                  | Some n =>
                      if (n <? 256)%N
                      then scan_map (cons (chr n)) (scan_string s4)
                      else OutOfAlphabet
                  | None => DecodeError
                  end
              | _ => DecodeError
              end
            else
              match unescape e with
              | Some c' => scan_map (cons c') (scan_string s'')
              | None => DecodeError
              end
        end
      else if (ord c <? 32)%N then DecodeError
      else scan_map (cons c) (scan_string s')
  end.

Definition is_digit (c : ascii) : bool :=
  let n := ord c in ((48 <=? n) && (n <=? 57))%N.

Fixpoint span_digits (s : str) : str * str :=
  match s with
  | c :: s' =>
      if is_digit c
      then let '(d, r) := span_digits s' in (c :: d, r)
      else ([], s)
  | [] => ([], [])
  end.

(** A number: an optional minus sign; [0], or a non-zero digit followed by
    digits; an optional fraction (a dot and at least one digit); an optional
    exponent ([e] or [E], an optional sign, at least one digit).  Longest
    match. *)
Definition scan_number (s : str) : option (str * str) :=
  let '(sign, s1) :=
    match s with
    | c :: r => if Ascii.eqb c "-"%char then ([c], r) else ([], s)
    | [] => ([], s)
    end in
  let int_part :=
    match s1 with
    | c :: r =>
        if Ascii.eqb c "0"%char then Some ([c], r)
        else if is_digit c then let '(d, r') := span_digits s1 in Some (d, r')
        else None
    | [] => None
    end in
  match int_part with
  | None => None
  | Some (ip, s2) =>
      let '(frac, s3) :=
        match s2 with
        | c :: r =>
            if Ascii.eqb c "."%char
            then match span_digits r with
                 | ([], _) => ([], s2)
                 | (d, r') => (c :: d, r')
                 end
            else ([], s2)
        | [] => ([], s2)
        end in
      let '(expo, s4) :=
        match s3 with
        | c :: r =>
            if Ascii.eqb c "e"%char || Ascii.eqb c "E"%char
            then
              let '(sg, r1) :=
                match r with
                | c' :: r' =>
                    if Ascii.eqb c' "-"%char || Ascii.eqb c' "+"%char
                    then ([c'], r') else ([], r)
                | [] => ([], r)
                end in
              match span_digits r1 with
              | ([], _) => ([], s3)
              | (d, r') => (c :: sg ++ d, r')
              end
            else ([], s3)
        | [] => ([], s3)
        end in
      Some (sign ++ ip ++ frac ++ expo, s4)
  end.

(** Constants and numbers. *)
Definition scan_atom (s : str) : scan value :=
  if startswith (lit "null") s then Parsed JNull (drop 4 s)
  else if startswith (lit "true") s then Parsed (JBool true) (drop 4 s)
  else if startswith (lit "false") s then Parsed (JBool false) (drop 5 s)
  else match scan_number s with
       | Some (lx, r) => Parsed (JNum lx) r
       | None =>
           if startswith (lit "NaN") s then Parsed (JNum (lit "NaN")) (drop 3 s)
           else if startswith (lit "Infinity") s
           then Parsed (JNum (lit "Infinity")) (drop 8 s)
           else if startswith (lit "-Infinity") s
           then Parsed (JNum (lit "-Infinity")) (drop 9 s)
           else DecodeError
       end.

(** The scanner proper.  [parse_members] starts just after the opening
    quote of a key, [parse_items] at the first character of an item.  Every
    call spends one unit of fuel. *)
Fixpoint parse_value (fuel : nat) (s : str) : scan value :=
  match fuel with
  | O => DecodeError
  | S f =>
      match s with
      | [] => DecodeError
      | c :: r =>
          if Ascii.eqb c dquote then scan_map JStr (scan_string r)
          else if Ascii.eqb c "{"%char then
            match skip_ws r with
            | c2 :: r2 =>
                if Ascii.eqb c2 "}"%char then Parsed (JObj []) r2
                else if Ascii.eqb c2 dquote then parse_members f r2 []
                else DecodeError
            | [] => DecodeError
            end
          else if Ascii.eqb c "["%char then
            match skip_ws r with
            | c2 :: r2 =>
                if Ascii.eqb c2 "]"%char then Parsed (JArr []) r2
                else parse_items f (c2 :: r2) []
            | [] => DecodeError
            end
          else scan_atom s
      end
  end
with parse_members (fuel : nat) (s : str) (acc : list (str * value))
  : scan value :=
  match fuel with
  | O => DecodeError
  | S f =>
      match scan_string s with
      | Parsed key r =>
          match skip_ws r with
          | c :: r1 =>
              if Ascii.eqb c ":"%char then
                match parse_value f (skip_ws r1) with
                | Parsed v r2 =>
                    match skip_ws r2 with
                    | c3 :: r3 =>
                        if Ascii.eqb c3 "}"%char
                        then Parsed (JObj (rev ((key, v) :: acc))) r3
                        else if Ascii.eqb c3 ","%char then
                          match skip_ws r3 with
                          | c4 :: r4 =>
                              if Ascii.eqb c4 dquote
                              then parse_members f r4 ((key, v) :: acc)
                              else DecodeError
                          | [] => DecodeError
                          end
                        else DecodeError
                    | [] => DecodeError
                    end
                | DecodeError => DecodeError
                | OutOfAlphabet => OutOfAlphabet
                end
              else DecodeError
          | [] => DecodeError
          end
      | DecodeError => DecodeError
      | OutOfAlphabet => OutOfAlphabet
      end
  end
with parse_items (fuel : nat) (s : str) (acc : list value) : scan value :=
  match fuel with
  | O => DecodeError
  | S f =>
      match parse_value f s with
      | Parsed v r =>
          match skip_ws r with
          | c :: r1 =>
              if Ascii.eqb c "]"%char then Parsed (JArr (rev (v :: acc))) r1
              else if Ascii.eqb c ","%char
              then parse_items f (skip_ws r1) (v :: acc)
              else DecodeError
          | [] => DecodeError
          end
      | DecodeError => DecodeError
      | OutOfAlphabet => OutOfAlphabet
      end
  end.

Inductive loaded :=
| Decoded (v : value)
| JSONDecodeError
| Outside.

(** [json.loads(s)]: leading and trailing blanks allowed, nothing else
    after the value.  Two units of fuel per character are enough, since no
    two consecutive calls leave the text as it is. *)
Definition loads (s : str) : loaded :=
  match parse_value (2 * length s + 2) (skip_ws s) with
  | Parsed v r => if is_empty (skip_ws r) then Decoded v else JSONDecodeError
  | DecodeError => JSONDecodeError
  | OutOfAlphabet => Outside
  end.

Definition hex_char (n : N) : ascii :=
  (if n <? 10 then chr (48 + n) else chr (87 + n))%N.

(** One character of a string under [ensure_ascii=True]. *)
Definition escape_char (c : ascii) : str :=
  let n := ord c in
  if Ascii.eqb c dquote then [backslash; dquote]
  else if Ascii.eqb c backslash then [backslash; backslash]
  else if (n =? 10)%N then [backslash; "n"%char]
  else if (n =? 13)%N then [backslash; "r"%char]
  else if (n =? 9)%N then [backslash; "t"%char]
  else if (n =? 12)%N then [backslash; "f"%char]
  else if (n =? 8)%N then [backslash; "b"%char]
  else if ((32 <=? n) && (n <=? 126))%N then [c]
  else [backslash; "u"%char; "0"%char; "0"%char;
        hex_char (n / 16)%N; hex_char (n mod 16)%N].

Definition dumps_str (s : str) : str :=
  dquote :: flat_map escape_char s ++ [dquote].

(** [json.dumps({key: v})] for string [key] and [v]. *)
Definition dumps_dict1 (key v : str) : str :=
  lit "{" ++ dumps_str key ++ lit ": " ++ dumps_str v ++ lit "}".

(** Printable ASCII other than the double quote and the backslash: the
    characters [json.dumps] copies as they are. *)
Definition plain_char (c : ascii) : bool :=
  let n := ord c in
  ((32 <=? n) && (n <=? 126))%N
  && negb (Ascii.eqb c dquote) && negb (Ascii.eqb c backslash).

Definition plain (s : str) : bool := forallb plain_char s.

(** [d.get(key)] on the dictionary built from the members (a later
    duplicate key replaces an earlier one). *)
Fixpoint dict_get (key : str) (members : list (str * value)) : option value :=
  match members with
  | [] => None
  | (k, v) :: rest =>
      match dict_get key rest with
      | Some v' => Some v'
      | None => if str_eqb k key then Some v else None
      end
  end.

End Json.

(** ** [core/connection.py]: class [Connection] *)
Module Connection.
Import Py.

(** A port forward: [(local_port, remote_host, remote_port)] for a local
    forward, [(remote_port, local_host, local_port)] for a remote one. *)
Definition forward : Type := Z * str * Z.

Record t := mk {
  name : str;
  hostname : str;
  user : str;
  port : Z;
  identity_file : str;
  folder : str;
  proxy_jump : str;
  local_forwards : list forward;
  remote_forwards : list forward;
  color_tag : str
}.

Definition set_name (v : str) (c : t) : t :=
  mk v (hostname c) (user c) (port c) (identity_file c) (folder c)
     (proxy_jump c) (local_forwards c) (remote_forwards c) (color_tag c).
Definition set_hostname (v : str) (c : t) : t :=
  mk (name c) v (user c) (port c) (identity_file c) (folder c)
     (proxy_jump c) (local_forwards c) (remote_forwards c) (color_tag c).
Definition set_user (v : str) (c : t) : t :=
  mk (name c) (hostname c) v (port c) (identity_file c) (folder c)
     (proxy_jump c) (local_forwards c) (remote_forwards c) (color_tag c).
Definition set_port (v : Z) (c : t) : t :=
  mk (name c) (hostname c) (user c) v (identity_file c) (folder c)
     (proxy_jump c) (local_forwards c) (remote_forwards c) (color_tag c).
Definition set_identity_file (v : str) (c : t) : t :=
  mk (name c) (hostname c) (user c) (port c) v (folder c)
     (proxy_jump c) (local_forwards c) (remote_forwards c) (color_tag c).
Definition set_folder (v : str) (c : t) : t :=
  mk (name c) (hostname c) (user c) (port c) (identity_file c) v
     (proxy_jump c) (local_forwards c) (remote_forwards c) (color_tag c).
Definition set_proxy_jump (v : str) (c : t) : t :=
  mk (name c) (hostname c) (user c) (port c) (identity_file c) (folder c)
     v (local_forwards c) (remote_forwards c) (color_tag c).
Definition add_local_forward (f : forward) (c : t) : t :=
  mk (name c) (hostname c) (user c) (port c) (identity_file c) (folder c)
     (proxy_jump c) (local_forwards c ++ [f]) (remote_forwards c) (color_tag c).
Definition add_remote_forward (f : forward) (c : t) : t :=
  mk (name c) (hostname c) (user c) (port c) (identity_file c) (folder c)
     (proxy_jump c) (local_forwards c) (remote_forwards c ++ [f]) (color_tag c).

(** *** [to_ssh_config] *)

Definition metadata_line (c : t) : str :=
  lit "# SSH Manager Metadata: " ++ Json.dumps_dict1 (lit "color") (color_tag c).

Definition local_forward_line (f : forward) : str :=
  let '(local_port, remote_host, remote_port) := f in
  lit "    LocalForward " ++ str_of_int local_port ++ lit " "
    ++ remote_host ++ lit ":" ++ str_of_int remote_port.

Definition remote_forward_line (f : forward) : str :=
  let '(remote_port, local_host, local_port) := f in
  lit "    RemoteForward " ++ str_of_int remote_port ++ lit " "
    ++ local_host ++ lit ":" ++ str_of_int local_port.

(** The list [lines] at the end of [to_ssh_config]. *)
Definition config_lines (c : t) : list str :=
  (if is_empty (color_tag c) then [] else [metadata_line c; []])
  ++ [lit "Host " ++ name c;
      lit "    HostName " ++ hostname c;
      lit "    User " ++ user c;
      lit "    Port " ++ str_of_int (port c)]
  ++ (if is_empty (identity_file c) then []
      else [lit "    IdentityFile " ++ identity_file c])
  ++ (if is_empty (proxy_jump c) then []
      else [lit "    ProxyJump " ++ proxy_jump c])
  ++ map local_forward_line (local_forwards c)
  ++ map remote_forward_line (remote_forwards c)
  ++ [lit "    ServerAliveInterval 60";
      lit "    ServerAliveCountMax 3";
      lit "    ConnectTimeout 10"].

Definition to_ssh_config (c : t) : str :=
  join [nl] (config_lines c) ++ [nl].

(** *** [from_ssh_config] *)

(** [re.search(r'# SSH Manager Metadata: ({.*})', content)], group 1.
    The dot does not match a newline, the star is greedy: at the first
    position where the fixed text and the opening brace are found and the
    rest of that line holds a closing brace, the group runs to the last
    closing brace of the line. *)
Definition metadata_mark : str := lit "# SSH Manager Metadata: {".

Fixpoint line_prefix (s : str) : str :=
  match s with
  | [] => []
  | c :: s' => if Ascii.eqb c nl then [] else c :: line_prefix s'
  end.

Fixpoint upto_last_brace (l : str) : option str :=
  match l with
  | [] => None
  | c :: l' =>
      match upto_last_brace l' with
      | Some p => Some (c :: p)
      | None => if Ascii.eqb c "}"%char then Some [c] else None
      end
  end.

Fixpoint metadata_search (s : str) : option str :=
  match s with
  | [] => None
  | _ :: s' =>
      if startswith metadata_mark s
      then match upto_last_brace (line_prefix (drop (length metadata_mark) s)) with
           | Some g => Some ("{"%char :: g)
           | None => metadata_search s'
           end
      else metadata_search s'
  end.

(** The value bound to [color_tag]: a string, or (the record being
    untyped at run time) whatever JSON value sits under the key. *)
Inductive color_value :=
| ColorStr (s : str)
| ColorOther (v : Json.value).

Definition extract_color (content : str) : result color_value :=
  match metadata_search content with
  | None => Ok (ColorStr [])
  | Some g =>
      match Json.loads g with
      | Json.Decoded (Json.JObj members) =>
          match Json.dict_get (lit "color") members with
          | None => Ok (ColorStr [])
          | Some (Json.JStr s) => Ok (ColorStr s)
          | Some v => Ok (ColorOther v)
          end
      | Json.Decoded _ => Raise (Exn AttributeError [])
      | Json.JSONDecodeError => Ok (ColorStr [])
      | Json.Outside => Raise (Exn NotModelled [])
      end
  end.

(** A forward value [<port> <host>:<port>]: [None] when the line is
    skipped, [Raise] when [int()] fails. *)
Definition parse_forward (forward_str : str) : result (option forward) :=
  match split_ws forward_str with
  | [p0; p1] =>
      match int_of_str p0 with
      | None => Raise (Exn ValueError [])
      | Some first_port =>
          match split (lit ":") p1 with
          | [host; p] =>
              match int_of_str p with
              | None => Raise (Exn ValueError [])
              | Some second_port => Ok (Some (first_port, host, second_port))
              end
          | _ => Ok None
          end
      end
  | _ => Ok None
  end.

(** The value of a directive line: [line.split(kw)[1].strip()]. *)
Definition directive_value (kw line : str) : str :=
  strip (item1 (split kw line)).

(** One turn of the loop over [content.split('\n')]; the local variables of
    [from_ssh_config] are kept in a record of type [t]. *)
Definition parse_line (st : t) (raw : str) : result t :=
  let line := strip raw in
  if is_empty line || startswith (lit "#") line then Ok st
  else if startswith (lit "Host ") line && is_empty (name st)
  then Ok (set_name (directive_value (lit "Host ") line) st)
  else if startswith (lit "HostName ") line
  then Ok (set_hostname (directive_value (lit "HostName ") line) st)
  else if startswith (lit "User ") line
  then Ok (set_user (directive_value (lit "User ") line) st)
  else if startswith (lit "Port ") line
  then match int_of_str (directive_value (lit "Port ") line) with
       | Some p => Ok (set_port p st)
       | None => Raise (Exn ValueError [])
       end
  else if startswith (lit "IdentityFile ") line
  then Ok (set_identity_file (directive_value (lit "IdentityFile ") line) st)
  else if startswith (lit "ProxyJump ") line
  then Ok (set_proxy_jump (directive_value (lit "ProxyJump ") line) st)
  else if startswith (lit "LocalForward ") line
  then match parse_forward (directive_value (lit "LocalForward ") line) with
       | Ok (Some f) => Ok (add_local_forward f st)
       | Ok None => Ok st
       | Raise e => Raise e
       end
  else if startswith (lit "RemoteForward ") line
  then match parse_forward (directive_value (lit "RemoteForward ") line) with
       | Ok (Some f) => Ok (add_remote_forward f st)
       | Ok None => Ok st
       | Raise e => Raise e
       end
  else Ok st.

Fixpoint parse_lines (st : t) (lines : list str) : result t :=
  match lines with
  | [] => Ok st
  | l :: rest =>
      match parse_line st l with
      | Ok st' => parse_lines st' rest
      | Raise e => Raise e
      end
  end.

Inductive parsed :=
| Returned (c : t)
| ReturnedDyn (c : t) (color : Json.value).

Definition from_ssh_config (content name folder : str) : result parsed :=
  match extract_color content with
  | Raise e => Raise e
  | Ok color =>
      let color_tag := match color with ColorStr s => s | ColorOther _ => [] end in
      let init := mk name [] [] 22 [] folder [] [] [] color_tag in
      match parse_lines init (split [nl] content) with
      | Raise e => Raise e
      | Ok st =>
          let c := if is_empty (Connection.name st)
                   then set_name (lit "unnamed") st else st in
          match color with
          | ColorStr _ => Ok (Returned c)
          | ColorOther v => Ok (ReturnedDyn c v)
          end
      end
  end.

(** *** [validate] *)

Definition name_char (c : ascii) : bool :=
  let n := ord c in
  ((97 <=? n) && (n <=? 122) || (65 <=? n) && (n <=? 90)
   || (48 <=? n) && (n <=? 57) || (n =? 95) || (n =? 45))%N.

(** [re.match(r'^[a-zA-Z0-9_-]+$', s)]: [$] also matches just before a
    final newline. *)
Fixpoint name_pattern_from (seen : bool) (s : str) : bool :=
  match s with
  | [] => seen
  | c :: s' =>
      if name_char c then name_pattern_from true s'
      else seen && Ascii.eqb c nl && is_empty s'
  end.

Definition name_pattern (s : str) : bool := name_pattern_from false s.

Definition msg_name_required : str := lit "Connection name is required".
Definition msg_name_pattern : str :=
  lit "Connection name can only contain letters, numbers, dashes, and underscores".
Definition msg_hostname_required : str := lit "Hostname is required".
Definition msg_username_required : str := lit "Username is required".
Definition msg_port_range : str := lit "Port must be between 1 and 65535".
Definition msg_invalid_folder : str := lit "Invalid folder path".

Definition validate (c : t) : list str :=
  (if is_empty (name c) then [msg_name_required]
   else if negb (name_pattern (name c)) then [msg_name_pattern]
   else [])
  ++ (if is_empty (hostname c) then [msg_hostname_required] else [])
  ++ (if is_empty (user c) then [msg_username_required] else [])
  ++ (if negb ((1 <=? port c) && (port c <=? 65535)) then [msg_port_range]
      else [])
  ++ (if contains (lit "..") (folder c) || startswith (lit "/") (folder c)
      then [msg_invalid_folder] else []).

(** *** Vocabulary of the properties *)

(** The directive lines that follow the [Host] line. *)
Definition body_lines (c : t) : list str :=
  [lit "    HostName " ++ hostname c;
   lit "    User " ++ user c;
   lit "    Port " ++ str_of_int (port c)]
  ++ (if is_empty (identity_file c) then []
      else [lit "    IdentityFile " ++ identity_file c])
  ++ (if is_empty (proxy_jump c) then []
      else [lit "    ProxyJump " ++ proxy_jump c])
  ++ map local_forward_line (local_forwards c)
  ++ map remote_forward_line (remote_forwards c)
  ++ [lit "    ServerAliveInterval 60";
      lit "    ServerAliveCountMax 3";
      lit "    ConnectTimeout 10"].

Definition metadata_lines (c : t) : list str :=
  if is_empty (color_tag c) then [] else [metadata_line c; []].


(** The invariants of the data model: the name is a non-empty word over
    letters, digits, dash and underscore; the host name is not empty; the
    port lies in 1..65535; the folder holds no [..] and no leading slash. *)
Definition invariants (c : t) : bool :=
  negb (is_empty (name c)) && forallb name_char (name c)
  && negb (is_empty (hostname c))
  && (1 <=? port c) && (port c <=? 65535)
  && negb (contains (lit "..") (folder c))
  && negb (startswith (lit "/") (folder c)).

(** The host of a forward: no white space, no colon. *)
Definition host_token (h : str) : bool := no_space h && no_char ":"%char h.

Definition forward_host (f : forward) : str := snd (fst f).

(** No exotic characters: the free-text fields hold no white space, the
    hosts of the forwards are tokens without a colon, and the colour tag is
    printable ASCII without double quote or backslash. *)
Definition no_exotic (c : t) : bool :=
  no_space (hostname c) && no_space (user c) && no_space (identity_file c)
  && no_space (proxy_jump c)
  && forallb (fun f => host_token (forward_host f)) (local_forwards c)
  && forallb (fun f => host_token (forward_host f)) (remote_forwards c)
  && Json.plain (color_tag c).

(** No field that is written to the text holds a newline. *)
Definition single_line_fields (c : t) : bool :=
  no_char nl (name c) && no_char nl (hostname c) && no_char nl (user c)
  && no_char nl (identity_file c) && no_char nl (proxy_jump c)
  && forallb (fun f => no_char nl (forward_host f)) (local_forwards c)
  && forallb (fun f => no_char nl (forward_host f)) (remote_forwards c).

(** The lines of a text that ends with a newline. *)
Definition lines_of (text : str) : list str := removelast (split [nl] text).

(** Indented by exactly four spaces. *)
Definition indented4 (l : str) : bool :=
  startswith (lit "    ") l && negb (startswith (lit "     ") l)
  && negb (is_empty (drop 4 l)).

(** The value of a written forward: [<port> <host>:<port>]. *)
Definition forward_value (f : forward) : str :=
  let '(p1, h, p2) := f in
  str_of_int p1 ++ lit " " ++ h ++ lit ":" ++ str_of_int p2.

(** Proof vocabulary for the search of the metadata comment. *)
Definition starts_blank (s : str) : bool :=
  match s with
  | d :: _ => Ascii.eqb d " "
  | [] => false
  end.

(** No [#] is followed by a blank. *)
Fixpoint hash_blank_free (s : str) : bool :=
  match s with
  | [] => true
  | c :: s' => negb (Ascii.eqb c "#" && starts_blank s') && hash_blank_free s'
  end.

(** What [from_ssh_config] returns when no line sets anything. *)
Definition parsed_defaults : t :=
  mk (lit "unnamed") [] [] 22 [] (lit "personal") [] [] [] [].

(** A line whose first word is [User]. *)
Definition is_user_line (l : str) : bool :=
  match split_ws l with
  | w :: _ => str_eqb w (lit "User")
  | [] => false
  end.

End Connection.

(** Sample records: a fully populated one, and one without a user. *)
Definition db1 : Connection.t :=
  Connection.mk (lit "db1") (lit "10.0.0.5") (lit "admin") 2222
    (lit "~/.ssh/id_ed25519") (lit "work/db") (lit "bastion")
    [(8080, lit "localhost", 80)] [(3000, lit "localhost", 3000)]
    (lit "production").

Definition anon : Connection.t :=
  Connection.mk (lit "db1") (lit "10.0.0.5") [] 22 [] (lit "work/db") [] [] [] [].

(** ** [backend/ssh_manager.py]: the [user_line] entry that
       [SSHManager.add_connection] passes to the templates *)
Module SSHManager.
Import Py.

Definition user_line (user : str) : str :=
  if is_empty user then [] else lit "    User " ++ user.

End SSHManager.

(** ** [pathlib] paths and the file system

    A path is pure data; the file system maps resolved absolute locations
    (lists of names from the root) to files and directories.  Locations are
    resolved by walking the tree as the kernel does: every name passed
    through must be an existing directory, and [..] steps to the parent.
    There are no symbolic links and no permissions. *)
Module Fs.
Import Py.

(** [PurePosixPath]: the anchor and the parts. *)
Record path := Path { absolute : bool; parts : list str }.

Definition strip_slashes (s : str) : str :=
  let drop_lead := fix go (x : str) : str :=
    match x with
    | c :: x' => if Ascii.eqb c "/" then go x' else x
    | [] => []
    end in
  rev (drop_lead (rev (drop_lead s))).

(** [Path(s)]: empty and [.] components are dropped. *)
Definition parse_path (s : str) : path :=
  Path (startswith (lit "/") s)
       (List.filter (fun seg => negb (is_empty seg) && negb (str_eqb seg (lit ".")))
                    (split (lit "/") s)).

(** [p / s] *)
Definition joinpath (p : path) (s : str) : path :=
  let q := parse_path s in
  if absolute q then q else Path (absolute p) (parts p ++ parts q).

(** [str(p)] *)
Definition path_str (p : path) : str :=
  if absolute p then lit "/" ++ join (lit "/") (parts p)
  else match parts p with
       | [] => lit "."
       | _ => join (lit "/") (parts p)
       end.

Inductive node :=
| File (content : str)
| Dir.

Abbreviation loc := (list (list ascii)).

Record fs := Filesystem { cwd : loc; tree : gmap loc node }.

(** The root is a directory that is always there. *)
Definition node_at (t : gmap loc node) (q : loc) : option node :=
  match q with
  | [] => Some Dir
  | _ => t !! q
  end.

Definition is_dir_at (t : gmap loc node) (q : loc) : bool :=
  match node_at t q with
  | Some Dir => true
  | _ => false
  end.

Fixpoint walk (t : gmap loc node) (cur : loc) (segs : list str) : option loc :=
  match segs with
  | [] => Some cur
  | s :: rest =>
      if is_dir_at t cur
      then walk t (if str_eqb s (lit "..") then removelast cur else cur ++ [s]) rest
      else None
  end.

Definition start (σ : fs) (p : path) : loc := if absolute p then [] else cwd σ.

(** No part of the path is [..]. *)
Definition no_dotdot (segs : list str) : bool :=
  forallb (fun s => negb (str_eqb s (lit ".."))) segs.

(** Where a path without [..] leads. *)
Definition place (σ : fs) (p : path) : loc := start σ p ++ parts p.

Definition locate (σ : fs) (p : path) : option loc :=
  walk (tree σ) (start σ p) (parts p).

Definition lookup_path (σ : fs) (p : path) : option (loc * option node) :=
  match locate σ p with
  | Some q => Some (q, node_at (tree σ) q)
  | None => None
  end.

Definition with_tree (σ : fs) (t : gmap loc node) : fs := Filesystem (cwd σ) t.

Definition os_error (k : exn_kind) : exn := Exn k [].

(** [p.exists()] *)
Definition exists_ (p : path) (σ : fs) : bool :=
  match lookup_path σ p with
  | Some (_, Some _) => true
  | _ => false
  end.

(** The bytes of the file, as [open(p, 'rb').read()] gives them. *)
Definition read_bytes (p : path) (σ : fs) : result str :=
  match lookup_path σ p with
  | Some (_, Some (File c)) => Ok c
  | Some (_, Some Dir) => Raise (os_error IsADirectoryError)
  | _ => Raise (os_error FileNotFoundError)
  end.

(** Reading in text mode: a carriage return, alone or before a line
    feed, comes back as one line feed. *)
Fixpoint universal_newlines (s : str) : str :=
  match s with
  | [] => []
  | c :: s' =>
      if Ascii.eqb c cr
      then nl :: match s' with
                 | c' :: s'' => if Ascii.eqb c' nl then universal_newlines s''
                                else universal_newlines s'
                 | [] => []
                 end
      else c :: universal_newlines s'
  end.

(** [p.read_text()] *)
Definition read_text (p : path) (σ : fs) : result str :=
  match read_bytes p σ with
  | Ok c => Ok (universal_newlines c)
  | Raise e => Raise e
  end.

(** [p.write_text(content)]: creates or replaces the file. *)
Definition write_text (p : path) (content : str) (σ : fs) : result unit * fs :=
  match lookup_path σ p with
  | Some (q, Some Dir) => (Raise (os_error IsADirectoryError), σ)
  | Some (q, _) =>
      if is_dir_at (tree σ) (removelast q)
      then (Ok tt, with_tree σ (<[q := File content]> (tree σ)))
      else (Raise (os_error FileNotFoundError), σ)
  | None => (Raise (os_error FileNotFoundError), σ)
  end.

(** [p.touch()] *)
Definition touch (p : path) (σ : fs) : result unit * fs :=
  match lookup_path σ p with
  | Some (q, Some _) => (Ok tt, σ)
  | Some (q, None) =>
      if is_dir_at (tree σ) (removelast q)
      then (Ok tt, with_tree σ (<[q := File []]> (tree σ)))
      else (Raise (os_error FileNotFoundError), σ)
  | None => (Raise (os_error FileNotFoundError), σ)
  end.

(** [p.unlink()] *)
Definition unlink (p : path) (σ : fs) : result unit * fs :=
  match lookup_path σ p with
  | Some (q, Some (File _)) => (Ok tt, with_tree σ (delete q (tree σ)))
  | Some (q, Some Dir) => (Raise (os_error IsADirectoryError), σ)
  | _ => (Raise (os_error FileNotFoundError), σ)
  end.

(** [p.mkdir(exist_ok=...)], parents not created. *)
Definition mkdir (p : path) (exist_ok : bool) (σ : fs) : result unit * fs :=
  match lookup_path σ p with
  | Some (q, Some Dir) =>
      if exist_ok then (Ok tt, σ) else (Raise (os_error FileExistsError), σ)
  | Some (q, Some (File _)) => (Raise (os_error FileExistsError), σ)
  | Some (q, None) =>
      if is_dir_at (tree σ) (removelast q)
      then (Ok tt, with_tree σ (<[q := Dir]> (tree σ)))
      else (Raise (os_error FileNotFoundError), σ)
  | None => (Raise (os_error FileNotFoundError), σ)
  end.

(** [p.mkdir(parents=True, exist_ok=True)]: the walk creates what is
    missing on its way. *)
Fixpoint make_dirs (t : gmap loc node) (cur : loc) (segs : list str)
  : result (gmap loc node) :=
  match segs with
  | [] => Ok t
  | s :: rest =>
      if str_eqb s (lit "..")
      then (if is_dir_at t cur then make_dirs t (removelast cur) rest
            else Raise (os_error NotADirectoryError))
      else
        let next := cur ++ [s] in
        match node_at t next with
        | Some Dir => make_dirs t next rest
        | Some (File _) =>
            Raise (os_error (match rest with
                             | [] => FileExistsError
                             | _ :: _ => NotADirectoryError
                             end))
        | None => make_dirs (<[next := Dir]> t) next rest
        end
  end.

Definition mkdir_parents (p : path) (σ : fs) : result unit * fs :=
  if is_dir_at (tree σ) (start σ p)
  then match make_dirs (tree σ) (start σ p) (parts p) with
       | Ok t => (Ok tt, with_tree σ t)
       | Raise e => (Raise e, σ)
       end
  else (Raise (os_error FileNotFoundError), σ).

(** [k] lies directly inside [q]. *)
Definition child_of (q k : loc) : Prop := k <> [] /\ removelast k = q.

#[global] Instance child_of_dec (q k : loc) : Decision (child_of q k).
Proof. unfold child_of. apply _. Defined.

Definition has_children (t : gmap loc node) (q : loc) : bool :=
  bool_decide (map_Exists (fun k _ => child_of q k) t).

(** [any(p.iterdir())] *)
Definition any_iterdir (p : path) (σ : fs) : result bool :=
  match lookup_path σ p with
  | Some (q, Some Dir) => Ok (has_children (tree σ) q)
  | Some (q, Some (File _)) => Raise (os_error NotADirectoryError)
  | _ => Raise (os_error FileNotFoundError)
  end.

(** [p.rmdir()] *)
Definition rmdir (p : path) (σ : fs) : result unit * fs :=
  match lookup_path σ p with
  | Some (q, Some Dir) =>
      if has_children (tree σ) q
      then (Raise (os_error DirectoryNotEmpty), σ)
      else (Ok tt, with_tree σ (delete q (tree σ)))
  | Some (q, Some (File _)) => (Raise (os_error NotADirectoryError), σ)
  | _ => (Raise (os_error FileNotFoundError), σ)
  end.

(** What is left when the subtree at [q] is taken away. *)
Definition without_subtree (q : loc) (t : gmap loc node) : gmap loc node :=
  filter (fun kv => ~ q `prefix_of` fst kv) t.

(** What is left when everything below [q] is taken away, [q] itself
    staying. *)
Definition emptied (q : loc) (t : gmap loc node) : gmap loc node :=
  filter (fun kv => ~ (q `prefix_of` fst kv /\ fst kv <> q)) t.

(** [shutil.rmtree(p)]: the directory that [p] leads to is opened and
    emptied, then [os.rmdir(p)] follows the path once more. *)
Definition rmtree (p : path) (σ : fs) : result unit * fs :=
  match lookup_path σ p with
  | Some (q, Some Dir) => rmdir p (with_tree σ (emptied q (tree σ)))
  | Some (q, Some (File _)) => (Raise (os_error NotADirectoryError), σ)
  | _ => (Raise (os_error FileNotFoundError), σ)
  end.

(** [shutil.copy2(src, dst)]: the bytes are copied as they are, into the
    directory when [dst] is one. *)
Definition copy2 (src dst : path) (σ : fs) : result unit * fs :=
  match read_bytes src σ with
  | Raise e => (Raise e, σ)
  | Ok c =>
      match lookup_path σ dst with
      | Some (_, Some Dir) =>
          write_text (Path (absolute dst) (parts dst ++ [List.last (parts src) []])) c σ
      | _ => write_text dst c σ
      end
  end.

(** The subtree at [src] put at [dst] (a file is a subtree of one node). *)
Definition rebase (src dst k : loc) : loc := dst ++ drop (length src) k.

Definition moved_subtree (src dst : loc) (t : gmap loc node) : gmap loc node :=
  list_to_map
    (map (fun kv => (rebase src dst (fst kv), snd kv))
         (map_to_list (filter (fun kv => src `prefix_of` fst kv) t))).

(** [os.rename(src, dst)] between located places. *)
Definition rename_at (qs qd : loc) (σ : fs) : result unit * fs :=
  let t := tree σ in
  match node_at t qs, node_at t qd with
  | None, _ => (Raise (os_error FileNotFoundError), σ)
  | Some (File _), Some Dir => (Raise (os_error IsADirectoryError), σ)
  | Some Dir, Some (File _) => (Raise (os_error NotADirectoryError), σ)
  | Some _, _ =>
      if negb (is_dir_at t (removelast qd))
      then (Raise (os_error FileNotFoundError), σ)
      else if bool_decide (qs `prefix_of` qd) && negb (bool_decide (qs = qd))
      then (Raise (Exn NotModelled []), σ)
      else if has_children t qd
      then (Raise (os_error DirectoryNotEmpty), σ)
      else (Ok tt,
            with_tree σ (moved_subtree qs qd t ∪ without_subtree qs (delete qd t)))
  end.

(** [shutil.move(src, dst)] on one file system: into [dst] when it is a
    directory, else a rename. *)
Definition move (src dst : path) (σ : fs) : result unit * fs :=
  match locate σ src with
  | None => (Raise (os_error FileNotFoundError), σ)
  | Some qs =>
      match lookup_path σ dst with
      | Some (qd, Some Dir) =>
          let real := qd ++ [List.last (parts src) []] in
          match node_at (tree σ) real with
          | Some _ => (Raise (Exn ShutilError []), σ)
          | None => rename_at qs real σ
          end
      | Some (qd, _) => rename_at qs qd σ
      | None => (Raise (os_error FileNotFoundError), σ)
      end
  end.

(** The disk has only gained entries. *)
Definition grows (σ σ' : fs) : Prop := cwd σ' = cwd σ /\ tree σ ⊆ tree σ'.

(** Code that reads and writes the disk and may raise. *)
Definition io (A : Type) : Type := fs -> result A * fs.

#[global] Instance io_ret : MRet io := fun A a σ => (Ok a, σ).

#[global] Instance io_bind : MBind io := fun A B k m σ =>
  match m σ with
  | (Ok a, σ') => k a σ'
  | (Raise e, σ') => (Raise e, σ')
  end.

Definition raise {A} (e : exn) : io A := fun σ => (Raise e, σ).

(** A read-only query. *)
Definition gets {A} (f : fs -> A) : io A := fun σ => (Ok (f σ), σ).

(** A read that may raise. *)
Definition reads {A} (f : fs -> result A) : io A := fun σ => (f σ, σ).

End Fs.

(** ** [core/config_manager.py]: class [ConfigManager] *)
Module ConfigManager.
Import Py Fs.

Record t := mk {
  base_path : path;
  ssh_dir : path;
  ssh_config : path;
  backup_path : path
}.

(** [__init__]: [home] is [Path.home()]. *)
Definition new (home : path) (base : option path) : t :=
  let ssh := joinpath home (lit ".ssh") in
  mk (match base with
      | Some b => b
      | None => joinpath (joinpath home (lit "ssh_manager")) (lit "groups")
      end)
     ssh (joinpath ssh (lit "config")) (joinpath ssh (lit "config.backup")).

(** [self.base_path / folder / f"{name}.conf"] *)
Definition connection_file (cm : t) (folder name : str) : path :=
  joinpath (joinpath (base_path cm) folder) (name ++ lit ".conf").

Definition include_line (cm : t) : str :=
  lit "Include " ++ path_str (base_path cm) ++ lit "/**/*.conf".

Definition include_comment : str :=
  lit "# SSH Manager - Auto-generated connections".

Record existing_info := {
  info_exists : bool;
  has_include : bool;
  connection_count : nat;
  connections : list str
}.

Definition check_existing_ssh_config (cm : t) : io existing_info :=
  present ← gets (exists_ (ssh_config cm));
  if negb present then mret (Build_existing_info false false 0 [])
  else
    content ← reads (read_text (ssh_config cm));
    let include_pattern := lit "Include " ++ path_str (base_path cm) in
    let host_lines :=
      List.filter (fun line => startswith (lit "Host ") (strip line))
                  (split [nl] content) in
    mret (Build_existing_info true (contains include_pattern content)
            (length host_lines)
            (map (fun line => item1 (split (lit "Host ") (strip line))) host_lines)).

Definition add_include_statement (cm : t) : io bool :=
  present ← gets (exists_ (ssh_config cm));
  if negb present then
    _ ← write_text (ssh_config cm)
          (include_comment ++ [nl] ++ include_line cm ++ [nl]);
    mret true
  else
    content ← reads (read_text (ssh_config cm));
    if contains (include_line cm) content then mret false
    else
      let content1 := if endswith [nl] content then content else content ++ [nl] in
      _ ← write_text (ssh_config cm)
            (content1 ++ [nl] ++ include_comment ++ [nl] ++ include_line cm ++ [nl]);
      mret true.

Record init_result := {
  created_dirs : bool;
  created_backup : bool;
  added_include : bool;
  existing_connections : nat;
  message : str
}.

Definition init_message (cm : t) (dirs backup include : bool) (existing : nat)
  : str :=
  let messages :=
    (if dirs then [lit "Created directory structure at " ++ path_str (base_path cm)]
     else [])
    ++ (if backup
        then [lit "Backed up existing SSH config to " ++ path_str (backup_path cm)]
        else [])
    ++ (if include
        then [lit "Added SSH Manager Include statement to ~/.ssh/config"]
        else [])
    ++ (if (0 <? existing)%nat
        then [lit "Detected " ++ str_of_int (Z.of_nat existing)
                ++ lit " existing SSH connections"]
        else []) in
  match messages with
  | [] => lit "SSH Manager already initialized"
  | _ => join [nl] messages
  end.

Definition initialize (cm : t) : io init_result :=
  base_there ← gets (exists_ (base_path cm));
  dirs ← (if negb base_there
          then (_ ← mkdir_parents (base_path cm); mret true)
          else mret false);
  _ ← mkdir (joinpath (base_path cm) (lit "work")) true;
  _ ← mkdir (joinpath (base_path cm) (lit "personal")) true;
  _ ← mkdir (ssh_dir cm) true;
  existing ← check_existing_ssh_config cm;
  config_there ← gets (exists_ (ssh_config cm));
  backup_there ← gets (exists_ (backup_path cm));
  backup ← (if config_there && negb backup_there
            then (_ ← copy2 (ssh_config cm) (backup_path cm); mret true)
            else mret false);
  include ← add_include_statement cm;
  mret (Build_init_result dirs backup include (connection_count existing)
          (init_message cm dirs backup include (connection_count existing))).

(** [n] calls in a row; the first exception ends the run. *)
Fixpoint initialize_times (cm : t) (n : nat) : io (list init_result) :=
  match n with
  | O => mret []
  | S k =>
      r ← initialize cm;
      rs ← initialize_times cm k;
      mret (r :: rs)
  end.

Definition not_found_message (folder name : str) : str :=
  lit "Connection '" ++ name ++ lit "' not found in folder '" ++ folder ++ lit "'".

Definition delete_connection (cm : t) (folder name : str) : io unit :=
  let config_file := connection_file cm folder name in
  present ← gets (exists_ config_file);
  if negb present
  then raise (Exn FileNotFoundError (not_found_message folder name))
  else unlink config_file.

(** [move_connection]: the record is an object the caller keeps, so its
    state after the call is part of the outcome. *)
Definition move_connection (cm : t) (conn : Connection.t) (new_folder : str)
  (σ : fs) : result unit * (fs * Connection.t) :=
  let old_file :=
    connection_file cm (Connection.folder conn) (Connection.name conn) in
  let new_folder_path := joinpath (base_path cm) new_folder in
  let new_file := joinpath new_folder_path (Connection.name conn ++ lit ".conf") in
  if negb (exists_ old_file σ)
  then (Raise (Exn FileNotFoundError
                 (lit "Source connection not found: " ++ path_str old_file)),
        (σ, conn))
  else if exists_ new_file σ
  then (Raise (Exn ValueError
                 (lit "Connection '" ++ Connection.name conn
                  ++ lit "' already exists in folder '" ++ new_folder ++ lit "'")),
        (σ, conn))
  else
    match mkdir_parents new_folder_path σ with
    | (Raise e, σ1) => (Raise e, (σ1, conn))
    | (Ok _, σ1) =>
        match move old_file new_file σ1 with
        | (Raise e, σ2) => (Raise e, (σ2, conn))
        | (Ok _, σ2) => (Ok tt, (σ2, Connection.set_folder new_folder conn))
        end
    end.

Definition not_empty_message (folder_path : str) : str :=
  lit "Folder '" ++ folder_path
  ++ lit "' is not empty. Use recursive=True to force delete.".

Definition delete_folder (cm : t) (folder_path : str) (recursive : bool)
  : io unit :=
  let folder := joinpath (base_path cm) folder_path in
  present ← gets (exists_ folder);
  if negb present
  then raise (Exn FileNotFoundError (lit "Folder not found: " ++ folder_path))
  else if recursive then rmtree folder
  else
    occupied ← reads (any_iterdir folder);
    if (occupied : bool)
    then raise (Exn ValueError (not_empty_message folder_path))
    else rmdir folder.

(** The lines of the primary SSH config that match the Include pattern,
    that is, hold the Include statement. *)
Definition include_lines (cm : t) (text : str) : list str :=
  lines_holding (include_line cm) text.

(** The primary SSH config is a readable file that holds the statement. *)
Definition has_statement (cm : t) (σ : fs) : Prop :=
  exists text, read_text (ssh_config cm) σ = Ok text
               /\ contains (include_line cm) text = true.

(** The file at [q], if there is one, holds the Include statement on one
    line at most when it is read. *)
Definition bounded_at (cm : t) (q : loc) (t : gmap loc node) : Prop :=
  forall c, t !! q = Some (File c) ->
            (length (include_lines cm (universal_newlines c)) <= 1)%nat.

(** The same of the file at the path of the primary SSH config. *)
Definition config_bounded (cm : t) (σ : fs) : Prop :=
  bounded_at cm (place σ (ssh_config cm)) (tree σ).

End ConfigManager.

(** ** [backend/file_utils.py]: class [FileUtils] *)
Module FileUtils.
Import Py Fs.

Record t := mk {
  home_dir : path;
  ssh_manager_dir : path;
  ssh_dir : path;
  ssh_config_path : path;
  backup_path : path
}.

(** [__init__] *)
Definition new (home : path) : t :=
  let ssh := joinpath home (lit ".ssh") in
  mk home (joinpath home (lit "ssh_manager")) ssh (joinpath ssh (lit "config"))
     (joinpath ssh (lit "config.ssh-manager-backup")).

(** [parse_group_path], the [segments] entry. *)
Definition parse_group_path (group_path : str) : result (list str) :=
  if is_empty group_path
  then Raise (Exn ValueError (lit "Group path must be a non-empty string"))
  else
    let normalized := strip_slashes group_path in
    if is_empty normalized
    then Raise (Exn ValueError (lit "Group path cannot be empty after normalization"))
    else Ok (split (lit "/") normalized).

Definition get_group_config_path (fu : t) (group_path : str) : result path :=
  match parse_group_path group_path with
  | Raise e => Raise e
  | Ok segments =>
      Ok (fold_left joinpath segments (joinpath (ssh_manager_dir fu) (lit "config")))
  end.

Definition get_connection_file_path (fu : t) (group_path connection_name : str)
  : result path :=
  match get_group_config_path fu group_path with
  | Raise e => Raise e
  | Ok group_dir => Ok (joinpath group_dir (connection_name ++ lit ".conf"))
  end.

Definition delete_config_file (fu : t) (group_path connection_name : str)
  : io unit :=
  match get_connection_file_path fu group_path connection_name with
  | Raise e => raise e
  | Ok file_path =>
      present ← gets (exists_ file_path);
      if (present : bool) then unlink file_path else mret tt
  end.

Definition update_main_ssh_config (fu : t) : io unit :=
  let dir := path_str (ssh_manager_dir fu) in
  let include_line := lit "Include " ++ dir ++ lit "/config/**/*.conf" ++ [nl] in
  present ← gets (exists_ (ssh_config_path fu));
  existing_config ← (if (present : bool)
                     then reads (read_text (ssh_config_path fu))
                     else mret []);
  if contains dir existing_config then
    let old_pattern := lit "Include " ++ dir ++ lit "/config/*/*.conf" in
    if contains old_pattern existing_config
    then write_text (ssh_config_path fu)
           (replace old_pattern (strip include_line) existing_config)
    else mret tt
  else write_text (ssh_config_path fu) (include_line ++ [nl] ++ existing_config).

End FileUtils.

(** ** Sample store: a home directory with two groups *)

Definition home : Fs.path := Fs.parse_path (lit "/home/u").
Definition cm0 : ConfigManager.t := ConfigManager.new home None.
Definition fu0 : FileUtils.t := FileUtils.new home.

Definition conn_A : Connection.t :=
  Connection.mk (lit "A") (lit "10.0.0.1") (lit "root") 22 [] (lit "work") [] [] [] [].

Definition groups : Fs.loc :=
  [lit "home"; lit "u"; lit "ssh_manager"; lit "groups"].

Definition store0 : Fs.fs :=
  Fs.Filesystem []
    (list_to_map
       [([lit "home"], Fs.Dir);
        ([lit "home"; lit "u"], Fs.Dir);
        ([lit "home"; lit "u"; lit "ssh_manager"], Fs.Dir);
        (groups, Fs.Dir);
        (groups ++ [lit "work"], Fs.Dir);
        (groups ++ [lit "personal"], Fs.Dir);
        (groups ++ [lit "work"; lit "A.conf"], Fs.File (Connection.to_ssh_config conn_A));
        (groups ++ [lit "personal"; lit "A.conf"], Fs.File (lit "Host A"))]).

(** The same store with a primary SSH config that already holds the
    Include statement on two lines. *)
Definition twice : list ascii :=
  ConfigManager.include_line cm0 ++ [Py.nl]
  ++ ConfigManager.include_line cm0 ++ [Py.nl].

Definition store_twice : Fs.fs :=
  Fs.Filesystem []
    (<[ [lit "home"; lit "u"; lit ".ssh"; lit "config"] := Fs.File twice ]>
       (<[ [lit "home"; lit "u"; lit ".ssh"] := Fs.Dir ]> (Fs.tree store0))).

(** ** [backend/templates.py]: class [Templates] *)
Module Templates.
Import Py.

Record template := Template {
  name : str;
  description : str;
  content : str
}.

Definition basic_server : template :=
  Template (lit "Basic Server")
    (lit "Simple SSH connection with username and host")
    (lit "# Basic SSH Connection
Host {name}
    HostName {host}
{user_line}
    Port {port}
    IdentityFile {key_file}
    
    # Essential Connection Settings
    ServerAliveInterval {server_alive_interval}
    ServerAliveCountMax {server_alive_count_max}
    ConnectTimeout {connect_timeout}
    Compression {compression}
    StrictHostKeyChecking {strict_host_key_checking}
    
    # Developer Features
    ControlMaster {control_master}
    ControlPath {control_path}
    ControlPersist {control_persist}
    ForwardX11 {forward_x11}
    ForwardAgent {forward_agent}
").

Definition aws_ec2 : template :=
  Template (lit "AWS EC2 Instance")
    (lit "AWS EC2 instance with key-based authentication")
    (lit "# AWS EC2 Instance
Host {name}
    HostName {host}
{user_line}
    Port {port}
    IdentityFile {key_file}
    
    # AWS EC2 Optimized Settings
    ServerAliveInterval 60
    ServerAliveCountMax 3
    ConnectTimeout 30
    Compression yes
    StrictHostKeyChecking no
    UserKnownHostsFile /dev/null
    
    # Connection Multiplexing for Speed
    ControlMaster auto
    ControlPath ~/.ssh/control-%h-%p-%r
    ControlPersist 10m
").

Definition jump_host : template :=
  Template (lit "Jump Host (Bastion)")
    (lit "Connection through a jump host or bastion server")
    (lit "# Jump Host Configuration
Host {name}
    HostName {host}
{user_line}
    Port {port}
    IdentityFile {key_file}
    ProxyJump {jump_host}
    
    # Jump Host Settings
    ServerAliveInterval {server_alive_interval}
    ServerAliveCountMax {server_alive_count_max}
    ConnectTimeout {connect_timeout}
    Compression {compression}
    StrictHostKeyChecking {strict_host_key_checking}
    
    # Connection Management
    ControlMaster {control_master}
    ControlPath {control_path}
    ControlPersist {control_persist}
").

Definition developer : template :=
  Template (lit "Developer Workstation")
    (lit "Development server with X11 forwarding and port tunneling")
    (lit "# Developer Workstation
Host {name}
    HostName {host}
{user_line}
    Port {port}
    IdentityFile {key_file}
    
    # Developer Features
    ForwardX11 yes
    ForwardX11Trusted yes
    ForwardAgent yes
    
    # Port Forwarding
{local_forwards}
{remote_forwards}
{dynamic_forward}
    
    # Connection Settings
    ServerAliveInterval {server_alive_interval}
    ServerAliveCountMax {server_alive_count_max}
    ConnectTimeout {connect_timeout}
    Compression {compression}
    StrictHostKeyChecking {strict_host_key_checking}
    
    # Connection Multiplexing
    ControlMaster {control_master}
    ControlPath {control_path}
    ControlPersist {control_persist}
").

(** [self.default_templates] *)
Definition default_templates : list (str * template) :=
  [(lit "basic-server", basic_server);
   (lit "aws-ec2", aws_ec2);
   (lit "jump-host", jump_host);
   (lit "developer", developer)].

(** *** [str.format] with the variables as keyword arguments

    The format string is read from left to right into pieces: literal
    text, replacement fields, and the place where reading fails.  A field
    is replaced as soon as it is read, so the first failure from the left
    decides. *)
Inductive piece :=
| Text (s : str)
| Field (key : str)
| Broken (k : exn_kind).

Inductive state :=
| InText (acc : str)                 (* literal text so far, reversed *)
| AfterOpen (acc : str)              (* an opening brace was just read *)
| AfterClose (acc : str)             (* a closing brace was just read *)
| InField (acc : str) (field : str). (* inside a field, reversed *)

Definition flush (acc : str) (l : list piece) : list piece :=
  match acc with
  | [] => l
  | _ => Text (rev acc) :: l
  end.

(** A field with an attribute, an index, a conversion or a format
    specification is outside the modelled fragment; an empty or numeric
    field names a positional argument, and there is none. *)
Definition classify (field : str) : piece :=
  if existsb (fun c => existsb (Ascii.eqb c) (lit ".[!:")) field
  then Broken NotModelled
  else if forallb isdigit field then Broken IndexError
  else Field field.

Fixpoint tokens_from (st : state) (s : str) : list piece :=
  match s with
  | [] =>
      match st with
      | InText acc => flush acc []
      | AfterOpen acc | AfterClose acc | InField acc _ =>
          flush acc [Broken ValueError]
      end
  | c :: s' =>
      match st with
      | InText acc =>
          if Ascii.eqb c "{" then tokens_from (AfterOpen acc) s'
          else if Ascii.eqb c "}" then tokens_from (AfterClose acc) s'
          else tokens_from (InText (c :: acc)) s'
      | AfterOpen acc =>
          if Ascii.eqb c "{" then tokens_from (InText (c :: acc)) s'
          else if Ascii.eqb c "}"
          then flush acc (classify [] :: tokens_from (InText []) s')
          else tokens_from (InField acc [c]) s'
      | AfterClose acc =>
          if Ascii.eqb c "}" then tokens_from (InText (c :: acc)) s'
          else flush acc [Broken ValueError]
      | InField acc field =>
          if Ascii.eqb c "}"
          then flush acc (classify (rev field) :: tokens_from (InText []) s')
          else if Ascii.eqb c "{" then flush acc [Broken NotModelled]
          else tokens_from (InField acc (c :: field)) s'
      end
  end.

Definition tokens (s : str) : list piece := tokens_from (InText []) s.

(** The exception of a failed lookup carries the key. *)
Fixpoint render (ps : list piece) (variables : gmap str str) : result str :=
  match ps with
  | [] => Ok []
  | Text s :: rest =>
      match render rest variables with
      | Ok out => Ok (s ++ out)
      | Raise e => Raise e
      end
  | Field key :: rest =>
      match variables !! key with
      | None => Raise (Exn KeyError key)
      | Some v =>
          match render rest variables with
          | Ok out => Ok (v ++ out)
          | Raise e => Raise e
          end
      end
  | Broken k :: _ => Raise (Exn k [])
  end.

Definition format_ (s : str) (variables : gmap str str) : result str :=
  render (tokens s) variables.

Fixpoint find_template (template_name : str) (l : list (str * template))
  : option template :=
  match l with
  | [] => None
  | (k, t) :: rest => if str_eqb k template_name then Some t
                      else find_template template_name rest
  end.

Definition get_template (template_name : str) : result template :=
  match find_template template_name default_templates with
  | Some t => Ok t
  | None =>
      Raise (Exn ValueError (lit "Template '" ++ template_name ++ lit "' not found"))
  end.

(** [str(e)] of a [KeyError] is the [repr] of the key; for a key of
    letters, digits and underscores that is the key between single
    quotes. *)
Definition missing_variable (key : str) : exn :=
  Exn ValueError (lit "Missing template variable: '" ++ key ++ lit "'").

Definition create_from_template (template_name : str) (variables : gmap str str)
  : result str :=
  match get_template template_name with
  | Raise e => Raise e
  | Ok template =>
      match format_ (content template) variables with
      | Ok out => Ok out
      | Raise e =>
          match kind e with
          | KeyError => Raise (missing_variable (message e))
          | _ => Raise e
          end
      end
  end.

(** *** Vocabulary of the properties *)

(** The keys of the replacement fields of a template text. *)
Fixpoint field_keys (ps : list piece) : list str :=
  match ps with
  | [] => []
  | Field k :: rest => k :: field_keys rest
  | _ :: rest => field_keys rest
  end.

Definition placeholders (s : str) : list str := field_keys (tokens s).

(** The text with every [{key}] replaced by the value of [key]. *)
Definition replaced (variables : gmap str str) (p : piece) : str :=
  match p with
  | Text t => t
  | Field k => default [] (variables !! k)
  | Broken _ => []
  end.

Definition substituted (s : str) (variables : gmap str str) : str :=
  concat (map (replaced variables) (tokens s)).

(** Sample variables for the [aws-ec2] template. *)
Definition ec2_variables : gmap str str :=
  list_to_map [(lit "name", lit "web1"); (lit "host", lit "203.0.113.7");
               (lit "user_line", lit "    User ec2-user"); (lit "port", lit "22");
               (lit "key_file", lit "~/.ssh/aws.pem")].

(** The pieces written back as they stand in the text. *)
Definition piece_source (p : piece) : str :=
  match p with
  | Text t => t
  | Field k => lit "{" ++ k ++ lit "}"
  | Broken _ => []
  end.

Definition is_broken (p : piece) : bool :=
  match p with Broken _ => true | _ => false end.

(** The text is literal text and [{key}] tokens, nothing else. *)
Definition plain_template (s : str) : bool :=
  negb (existsb is_broken (tokens s))
  && str_eqb (concat (map piece_source (tokens s))) s.

(** *** The claim's words: literal substitution of [{key}]

    These definitions do not come from the code.  They read a template
    text the way the claim does: from a [{] up to the next [}] stands a
    key, every other character stands for itself. *)

Inductive part :=
| Lit (c : ascii)
| Key (k : str).

Fixpoint brace_parts (opened : option str) (s : str) : list part :=
  match s with
  | [] =>
      match opened with
      | None => []
      | Some k => map Lit ("{"%char :: k)
      end
  | c :: s' =>
      match opened with
      | None =>
          if Ascii.eqb c "{" then brace_parts (Some []) s'
          else Lit c :: brace_parts None s'
      | Some k =>
          if Ascii.eqb c "}" then Key k :: brace_parts None s'
          else brace_parts (Some (k ++ [c])) s'
      end
  end.

(** The text a part stands for. *)
Definition part_source (p : part) : str :=
  match p with
  | Lit c => [c]
  | Key k => lit "{" ++ k ++ lit "}"
  end.

(** The keys that the text refers to, in order. *)
Fixpoint part_keys (ps : list part) : list str :=
  match ps with
  | [] => []
  | Key k :: rest => k :: part_keys rest
  | Lit _ :: rest => part_keys rest
  end.

Definition brace_keys (s : str) : list str := part_keys (brace_parts None s).

Definition part_value (variables : gmap str str) (p : part) : str :=
  match p with
  | Lit c => [c]
  | Key k => default [] (variables !! k)
  end.

(** The text with each [{key}] replaced by the value of [key]. *)
Definition literal_substitution (s : str) (variables : gmap str str) : str :=
  concat (map (part_value variables) (brace_parts None s)).

(** The pieces of [str.format] spelled out part by part. *)
Fixpoint parts_of_pieces (ps : list piece) : list part :=
  match ps with
  | [] => []
  | Text t :: rest => map Lit t ++ parts_of_pieces rest
  | Field k :: rest => Key k :: parts_of_pieces rest
  | Broken _ :: rest => parts_of_pieces rest
  end.

End Templates.

(** ** [core/connection.py]: [to_dict] and [from_dict] *)
Module ConnectionDict.
Import Py Connection.

(** The values a record puts in its dictionary. *)
Inductive value :=
| VStr (s : str)
| VInt (n : Z)
| VForwards (l : list forward).

Definition to_dict (c : t) : gmap str value :=
  list_to_map
    [(lit "name", VStr (name c));
     (lit "hostname", VStr (hostname c));
     (lit "user", VStr (user c));
     (lit "port", VInt (port c));
     (lit "identity_file", VStr (identity_file c));
     (lit "folder", VStr (folder c));
     (lit "proxy_jump", VStr (proxy_jump c));
     (lit "local_forwards", VForwards (local_forwards c));
     (lit "remote_forwards", VForwards (remote_forwards c));
     (lit "color_tag", VStr (color_tag c))].

(** [data.get(key, default)] read at the type of the field; [None] when
    the dictionary holds a value of another type there, which the typed
    record cannot show. *)
Definition get_str (data : gmap str value) (key default : str) : option str :=
  match data !! key with
  | None => Some default
  | Some (VStr s) => Some s
  | Some _ => None
  end.

Definition get_int (data : gmap str value) (key : str) (default : Z) : option Z :=
  match data !! key with
  | None => Some default
  | Some (VInt n) => Some n
  | Some _ => None
  end.

Definition get_forwards (data : gmap str value) (key : str)
  : option (list forward) :=
  match data !! key with
  | None => Some []
  | Some (VForwards l) => Some l
  | Some _ => None
  end.

Definition from_dict (data : gmap str value) : option t :=
  n ← get_str data (lit "name") [];
  h ← get_str data (lit "hostname") [];
  u ← get_str data (lit "user") [];
  p ← get_int data (lit "port") 22;
  i ← get_str data (lit "identity_file") [];
  f ← get_str data (lit "folder") (lit "personal");
  pj ← get_str data (lit "proxy_jump") [];
  lf ← get_forwards data (lit "local_forwards");
  rf ← get_forwards data (lit "remote_forwards");
  col ← get_str data (lit "color_tag") [];
  Some (mk n h u p i f pj lf rf col).

(** The keys [from_dict] reads. *)
Definition field_names : list str :=
  [lit "name"; lit "hostname"; lit "user"; lit "port"; lit "identity_file";
   lit "folder"; lit "proxy_jump"; lit "local_forwards"; lit "remote_forwards";
   lit "color_tag"].

End ConnectionDict.

(** ** [core/config_manager.py]: saving and loading connections *)
Module ConfigManagerIO.
Import Py Fs ConfigManager.

Definition validation_failed (errors : list str) : str :=
  lit "Connection validation failed: " ++ join (lit ", ") errors.

Definition save_connection (cm : t) (conn : Connection.t) : io unit :=
  match Connection.validate conn with
  | (_ :: _) as errors => raise (Exn ValueError (validation_failed errors))
  | [] =>
      let folder_path := joinpath (base_path cm) (Connection.folder conn) in
      _ ← mkdir_parents folder_path;
      write_text (joinpath folder_path (Connection.name conn ++ lit ".conf"))
                 (Connection.to_ssh_config conn)
  end.

Definition load_connection (cm : t) (folder name : str)
  : io Connection.parsed :=
  let config_file := connection_file cm folder name in
  present ← gets (exists_ config_file);
  if negb present
  then raise (Exn FileNotFoundError (not_found_message folder name))
  else
    content ← reads (read_text config_file);
    reads (fun _ => Connection.from_ssh_config content name folder).

Definition connection_exists (cm : t) (folder name : str) (σ : fs) : bool :=
  exists_ (connection_file cm folder name) σ.

Definition create_folder (cm : t) (folder_path : str) : io unit :=
  mkdir_parents (joinpath (base_path cm) folder_path).

End ConfigManagerIO.

(** ** [backend/file_utils.py]: groups, connection files, the backup *)
Module FileUtilsIO.
Import Py Fs FileUtils.

(** The dictionary [parse_group_path] returns. *)
Record group_info := {
  segments : list str;
  depth : nat;
  parent : option str;
  group_name : str
}.

Definition parse_group_path_dict (group_path : str) : result group_info :=
  match parse_group_path group_path with
  | Raise e => Raise e
  | Ok segs =>
      match segs with
      | [] => Raise (Exn IndexError [])
      | _ :: _ =>
          Ok {| segments := segs;
                depth := length segs;
                parent := if (1 <? length segs)%nat
                          then Some (join (lit "/") (removelast segs))
                          else None;
                group_name := List.last segs [] |}
      end
  end.

(** [p.parent] *)
Definition parent_path (p : path) : path :=
  Path (absolute p) (removelast (parts p)).

Definition read_config_file (fu : t) (group_path connection_name : str)
  : io (option str) :=
  match get_connection_file_path fu group_path connection_name with
  | Raise e => raise e
  | Ok file_path =>
      present ← gets (exists_ file_path);
      if (present : bool)
      then (content ← reads (read_text file_path); mret (Some content))
      else mret None
  end.

Definition write_config_file (fu : t) (group_path connection_name content : str)
  : io unit :=
  match get_connection_file_path fu group_path connection_name with
  | Raise e => raise e
  | Ok file_path =>
      _ ← mkdir_parents (parent_path file_path);
      write_text file_path content
  end.

(** [ensure_directory_structure] *)
Definition directories (fu : t) : list path :=
  let config := joinpath (ssh_manager_dir fu) (lit "config") in
  [ssh_manager_dir fu;
   config;
   joinpath config (lit "personal");
   joinpath config (lit "work");
   joinpath config (lit "projects");
   joinpath (ssh_manager_dir fu) (lit "keys");
   joinpath (ssh_manager_dir fu) (lit "templates");
   joinpath (ssh_manager_dir fu) (lit "backups")].

Fixpoint mkdir_each (ds : list path) : io unit :=
  match ds with
  | [] => mret tt
  | d :: rest => _ ← mkdir_parents d; mkdir_each rest
  end.

Definition ensure_directory_structure (fu : t) : io unit :=
  _ ← mkdir_each (directories fu);
  mkdir (ssh_dir fu) true.

(** The dictionary [create_ssh_config_backup] returns. *)
Record backup_info := {
  created : bool;
  backup_message : option str;
  backup_file : option str;
  empty : option bool
}.

Definition create_ssh_config_backup (fu : t) : io backup_info :=
  backup_there ← gets (exists_ (backup_path fu));
  if (backup_there : bool)
  then mret {| created := false;
               backup_message := Some (lit "Backup already exists");
               backup_file := None; empty := None |}
  else
    config_there ← gets (exists_ (ssh_config_path fu));
    if (config_there : bool)
    then
      _ ← copy2 (ssh_config_path fu) (backup_path fu);
      mret {| created := true; backup_message := None;
              backup_file := Some (path_str (backup_path fu)); empty := None |}
    else
      _ ← touch (backup_path fu);
      mret {| created := true; backup_message := None;
              backup_file := Some (path_str (backup_path fu));
              empty := Some true |}.

(** [p.stat().st_size > 0]; the size of a directory depends on the file
    system and is left out. *)
Definition has_bytes (p : path) (σ : fs) : result bool :=
  match lookup_path σ p with
  | Some (_, Some (File c)) => Ok (negb (is_empty c))
  | Some (_, Some Dir) => Raise (Exn NotModelled [])
  | _ => Raise (os_error FileNotFoundError)
  end.

Definition revert_to_original_config (fu : t) : io unit :=
  backup_there ← gets (exists_ (backup_path fu));
  if (backup_there : bool)
  then
    filled ← reads (has_bytes (backup_path fu));
    if (filled : bool)
    then copy2 (backup_path fu) (ssh_config_path fu)
    else
      config_there ← gets (exists_ (ssh_config_path fu));
      if (config_there : bool) then unlink (ssh_config_path fu) else mret tt
  else raise (Exn FileNotFoundError (lit "No backup found to revert to")).

End FileUtilsIO.

(*NEWDEFS*)
(* ===================================================================== *)
(** * Part II.  Properties                                                *)
(* ===================================================================== *)

Example split_demo :
  Py.split (lit "ab") (lit "xabyabab") = [lit "x"; lit "y"; []; []].
Proof. reflexivity. Qed.

Example split_ws_demo :
  Py.split_ws (lit "  a  bc d ") = [lit "a"; lit "bc"; lit "d"].
Proof. reflexivity. Qed.

Example int_demo :
  Py.int_of_str (lit " -1_000 ") = Some (-1000)
  /\ Py.int_of_str (lit "abc") = None
  /\ Py.str_of_int 65535 = lit "65535"
  /\ Py.str_of_int (-70) = lit "-70"
  /\ Py.str_of_int 0 = lit "0".
Proof. repeat split; reflexivity. Qed.

Example json_demo :
  Json.loads (Json.dumps_dict1 (lit "color") (lit "production"))
  = Json.Decoded (Json.JObj [(lit "color", Json.JStr (lit "production"))])
  /\ Json.loads (lit " { } ") = Json.Decoded (Json.JObj [])
  /\ Json.loads (lit "{1}") = Json.JSONDecodeError
  /\ Json.loads (lit "[1, 2.5e+3, [true, null], -0]x") = Json.JSONDecodeError
  /\ Json.loads (lit "[1, 2.5e+3, [true, null], -0] ")
     = Json.Decoded (Json.JArr [Json.JNum (lit "1"); Json.JNum (lit "2.5e+3");
          Json.JArr [Json.JBool true; Json.JNull]; Json.JNum (lit "-0")]).
Proof. repeat split; vm_compute; reflexivity. Qed.

Example db1_text :
  Connection.to_ssh_config db1 =
  lit "# SSH Manager Metadata: {" ++ [Py.dquote] ++ lit "color" ++ [Py.dquote]
   ++ lit ": " ++ [Py.dquote] ++ lit "production" ++ [Py.dquote] ++ lit "}
" ++ lit "
Host db1
    HostName 10.0.0.5
    User admin
    Port 2222
    IdentityFile ~/.ssh/id_ed25519
    ProxyJump bastion
    LocalForward 8080 localhost:80
    RemoteForward 3000 localhost:3000
    ServerAliveInterval 60
    ServerAliveCountMax 3
    ConnectTimeout 10
".
Proof. vm_compute. reflexivity. Qed.

Example db1_roundtrip :
  Connection.from_ssh_config (Connection.to_ssh_config db1) (lit "db1") (lit "work/db")
  = Ok (Connection.Returned db1).
Proof. vm_compute. reflexivity. Qed.

Example db1_valid : Connection.validate db1 = [].
Proof. vm_compute. reflexivity. Qed.

(** ** Facts about the [str] primitives *)
Module PyFacts.
Import Py.

(** Case analysis over the whole alphabet. *)
Ltac each_char c :=
  destruct c as [[] [] [] [] [] [] [] []]; vm_compute; try reflexivity;
  try discriminate; try tauto.

Lemma eqb_refl_char (c : ascii) : Ascii.eqb c c = true.
Proof. apply Ascii.eqb_eq. reflexivity. Qed.

Lemma startswith_app (p s : str) : startswith p (p ++ s) = true.
Proof.
  induction p as [|a p IH]; simpl; [reflexivity|].
  rewrite eqb_refl_char. exact IH.
Qed.

Lemma startswith_prefix (p s : str) :
  startswith p s = true -> exists r, s = p ++ r.
Proof.
  revert s. induction p as [|a p IH]; intros s H; simpl in *.
  - exists s. reflexivity.
  - destruct s as [|b s]; [discriminate|].
    apply andb_prop in H. destruct H as [Hab Hp].
    apply Ascii.eqb_eq in Hab. subst b.
    destruct (IH _ Hp) as [r ->]. exists r. reflexivity.
Qed.

(** *** strip *)

Lemma lstrip_spaces (pad s : str) :
  forallb isspace pad = true -> lstrip (pad ++ s) = lstrip s.
Proof.
  induction pad as [|c pad IH]; simpl; intros H; [reflexivity|].
  apply andb_prop in H. destruct H as [Hc Hp]. rewrite Hc. auto.
Qed.

Lemma rstrip_last (s : str) (c : ascii) :
  isspace c = false -> rstrip (s ++ [c]) = s ++ [c].
Proof.
  intros Hc. unfold rstrip. rewrite rev_unit. simpl. rewrite Hc.
  simpl. rewrite rev_involutive. reflexivity.
Qed.

Lemma no_space_app (a b : str) :
  no_space (a ++ b) = no_space a && no_space b.
Proof. apply forallb_app. Qed.

Lemma strip_no_space (s : str) : no_space s = true -> strip s = s.
Proof.
  intros H. unfold strip.
  destruct s as [|c s]; [reflexivity|].
  assert (Hl : lstrip (c :: s) = c :: s).
  { simpl in *. apply andb_prop in H. destruct H as [Hc _].
    apply negb_true_iff in Hc. rewrite Hc. reflexivity. }
  rewrite Hl.
  destruct (exists_last (l := c :: s)) as [s' [d Hd]]; [discriminate|].
  rewrite Hd in *. apply rstrip_last.
  rewrite no_space_app in H. apply andb_prop in H. destruct H as [_ H].
  simpl in H. rewrite andb_true_r in H. apply negb_true_iff in H. exact H.
Qed.

(** A padded line whose body begins and ends with a visible character. *)
Lemma strip_padded (pad : str) (c : ascii) (body : str) (d : ascii) :
  forallb isspace pad = true -> isspace c = false -> isspace d = false ->
  strip (pad ++ c :: body ++ [d]) = c :: body ++ [d].
Proof.
  intros Hp Hc Hd. unfold strip. rewrite lstrip_spaces by exact Hp.
  simpl. rewrite Hc. change (c :: body ++ [d]) with ((c :: body) ++ [d]).
  apply rstrip_last. exact Hd.
Qed.


Lemma no_space_not_in (c : ascii) (s : str) :
  isspace c = true -> no_space s = true -> ~ In c s.
Proof.
  intros Hc Hs Hin. unfold no_space in Hs.
  rewrite forallb_forall in Hs. specialize (Hs _ Hin).
  rewrite Hc in Hs. discriminate.
Qed.

Lemma no_char_not_in (c : ascii) (s : str) :
  no_char c s = true <-> ~ In c s.
Proof.
  unfold no_char. induction s as [|x s IH]; simpl.
  - tauto.
  - rewrite andb_true_iff, IH, negb_true_iff. split.
    + intros [Hx Hs] [E|E]; [subst; rewrite eqb_refl_char in Hx; discriminate|tauto].
    + intros H. split.
      * destruct (Ascii.eqb x c) eqn:E; [|reflexivity].
        apply Ascii.eqb_eq in E. tauto.
      * tauto.
Qed.

Lemma no_char_app (c : ascii) (a b : str) :
  no_char c (a ++ b) = no_char c a && no_char c b.
Proof. apply forallb_app. Qed.

(** *** contains *)

Lemma contains_occurrence (k s : str) :
  contains k s = true -> exists a b, s = a ++ k ++ b.
Proof.
  induction s as [|c s IH]; simpl; intros H.
  - rewrite orb_false_r in H. apply startswith_prefix in H.
    destruct H as [r Hr]. exists [], r. exact Hr.
  - apply orb_prop in H. destruct H as [H|H].
    + apply startswith_prefix in H. destruct H as [r Hr]. exists [], r. exact Hr.
    + destruct (IH H) as (a & b & ->). exists (c :: a), b. reflexivity.
Qed.

Lemma contains_missing_char (c : ascii) (k s : str) :
  In c k -> ~ In c s -> contains k s = false.
Proof.
  intros Hk Hs. destruct (contains k s) eqn:E; [|reflexivity].
  apply contains_occurrence in E. destruct E as (a & b & ->).
  exfalso. apply Hs. apply in_or_app. right. apply in_or_app. left. exact Hk.
Qed.

Lemma contains_cons_false (k : str) (c : ascii) (s : str) :
  contains k (c :: s) = false ->
  startswith k (c :: s) = false /\ contains k s = false.
Proof. simpl. intros H. apply orb_false_elim in H. exact H. Qed.

(** *** split *)

Lemma split_from_skip (k p s : str) :
  split_from k (length p) (p ++ s) = split_from k 0 s.
Proof. induction p as [|c p IH]; simpl; [reflexivity|exact IH]. Qed.

Lemma split_at_sep (c : ascii) (k s : str) :
  split (c :: k) ((c :: k) ++ s) = [] :: split (c :: k) s.
Proof.
  unfold split. cbn [app split_from].
  change (startswith (c :: k) (c :: k ++ s))
    with (startswith (c :: k) ((c :: k) ++ s)).
  rewrite startswith_app.
  replace (length (c :: k) - 1)%nat with (length k) by (simpl; lia).
  rewrite split_from_skip. reflexivity.
Qed.

Lemma split_at_sep' (k s : str) :
  k <> [] -> split k (k ++ s) = [] :: split k s.
Proof. destruct k as [|c k]; [contradiction|]. intros _. apply split_at_sep. Qed.

Lemma split_absent (k s : str) : contains k s = false -> split k s = [s].
Proof.
  unfold split. induction s as [|c s IH]; intros H; [reflexivity|].
  apply contains_cons_false in H. destruct H as [H1 H2].
  cbn [split_from]. rewrite H1, (IH H2). reflexivity.
Qed.

Lemma split_from_not_nil (k : str) (n : nat) (s : str) : split_from k n s <> [].
Proof.
  revert n. induction s as [|c s IH]; intros n; simpl; [discriminate|].
  destruct n; [|apply IH].
  destruct (startswith k (c :: s)); [discriminate|].
  specialize (IH 0%nat). destruct (split_from k 0 s); [contradiction|discriminate].
Qed.

(** A prefix that does not hold the first character of the separator goes
    to the first piece. *)
Lemma split_prefix (c : ascii) (k a b : str) :
  no_char c a = true ->
  split (c :: k) (a ++ b)
  = (a ++ hd [] (split (c :: k) b)) :: tl (split (c :: k) b).
Proof.
  unfold split. induction a as [|x a IH]; intros H.
  - simpl app. pose proof (split_from_not_nil (c :: k) 0 b) as Hn.
    destruct (split_from (c :: k) 0 b); [contradiction|reflexivity].
  - simpl in H. apply andb_prop in H. destruct H as [Hx Ha].
    apply negb_true_iff in Hx.
    cbn [app split_from startswith].
    rewrite Ascii.eqb_sym, Hx. cbn [andb]. rewrite (IH Ha). reflexivity.
Qed.

(** The value of a directive whose keyword does not occur again. *)
Lemma item1_split_kw (k v : str) :
  k <> [] -> contains k v = false -> item1 (split k (k ++ v)) = v.
Proof.
  intros Hk Hv. rewrite split_at_sep' by exact Hk.
  rewrite split_absent by exact Hv. reflexivity.
Qed.

(** *** split on white space *)

Lemma split_ws_aux_word (a s : str) :
  no_space a = true ->
  split_ws_aux (a ++ s) = (a ++ fst (split_ws_aux s), snd (split_ws_aux s)).
Proof.
  induction a as [|c a IH]; intros H.
  - simpl. destruct (split_ws_aux s); reflexivity.
  - simpl in H. apply andb_prop in H. destruct H as [Hc Ha].
    apply negb_true_iff in Hc.
    cbn [app split_ws_aux]. rewrite (IH Ha), Hc. reflexivity.
Qed.

Lemma split_ws_aux_single (b : str) :
  no_space b = true -> split_ws_aux b = (b, []).
Proof.
  intros H. rewrite <- (app_nil_r b) at 1.
  rewrite split_ws_aux_word by exact H. simpl. rewrite app_nil_r. reflexivity.
Qed.

Lemma split_ws_two (a b : str) (sp : ascii) :
  isspace sp = true -> no_space a = true -> no_space b = true ->
  a <> [] -> b <> [] ->
  split_ws (a ++ sp :: b) = [a; b].
Proof.
  intros Hsp Ha Hb Hna Hnb. unfold split_ws.
  rewrite split_ws_aux_word by exact Ha.
  cbn [split_ws_aux]. rewrite split_ws_aux_single by exact Hb.
  rewrite Hsp. cbn [fst snd]. rewrite app_nil_r.
  destruct b; [contradiction|]. destruct a; [contradiction|]. reflexivity.
Qed.


(** *** [str(n)] and [int(s)] *)

Ltac digit_cases d H :=
  assert (d = 0 \/ d = 1 \/ d = 2 \/ d = 3 \/ d = 4 \/ d = 5 \/ d = 6
          \/ d = 7 \/ d = 8 \/ d = 9) as H by lia;
  repeat (destruct H as [H|H]); subst d.

Lemma digit_of_digit_char (d : Z) :
  0 <= d < 10 -> digit_of (digit_char d) = Some d.
Proof. intros Hd. digit_cases d H; reflexivity. Qed.

Lemma digit_char_not_underscore (d : Z) :
  0 <= d < 10 -> Ascii.eqb (digit_char d) "_"%char = false.
Proof. intros Hd. digit_cases d H; reflexivity. Qed.

Lemma isdigit_digit_char (d : Z) : 0 <= d < 10 -> isdigit (digit_char d) = true.
Proof. intros Hd. unfold isdigit. rewrite digit_of_digit_char by exact Hd. reflexivity. Qed.

Lemma parse_digits_step (d : Z) (rest : str) (acc : Z) (b : bool) :
  0 <= d < 10 ->
  parse_digits (digit_char d :: rest) acc b = parse_digits rest (10 * acc + d) true.
Proof.
  intros Hd. cbn [parse_digits].
  rewrite digit_char_not_underscore, digit_of_digit_char by exact Hd.
  reflexivity.
Qed.

Lemma parse_digits_fuel (f : nat) :
  forall (n : Z) (rest : str) (b : bool),
    0 <= n < 2 ^ Z.of_nat (S f) ->
    parse_digits (digits_fuel f n rest) 0 b = parse_digits rest n true.
Proof.
  induction f as [|f IH]; intros n rest b Hn.
  - change (2 ^ Z.of_nat 1) with 2 in Hn. cbn [digits_fuel].
    rewrite parse_digits_step by (apply Z.mod_pos_bound; lia).
    rewrite Z.mod_small by lia. f_equal.
  - cbn [digits_fuel]. destruct (n <? 10) eqn:E.
    + apply Z.ltb_lt in E.
      rewrite parse_digits_step by (apply Z.mod_pos_bound; lia).
      rewrite Z.mod_small by lia. f_equal.
    + apply Z.ltb_ge in E.
      rewrite IH.
      * rewrite parse_digits_step by (apply Z.mod_pos_bound; lia).
        f_equal. symmetry. apply Z.div_mod. lia.
      * split; [apply Z.div_pos; lia|].
        apply Z.div_lt_upper_bound; [lia|].
        replace (Z.of_nat (S (S f))) with (Z.of_nat (S f) + 1) in Hn by lia.
        rewrite Z.pow_add_r in Hn by lia.
        assert (0 < 2 ^ Z.of_nat (S f)) by (apply Z.pow_pos_nonneg; lia).
        lia.
Qed.

Lemma log2_fuel (n : Z) : 0 <= n -> 0 <= n < 2 ^ Z.of_nat (S (Z.to_nat (Z.log2 n))).
Proof.
  intros Hn. split; [exact Hn|].
  rewrite Nat2Z.inj_succ, Z2Nat.id by apply Z.log2_nonneg.
  destruct (Z.eq_dec n 0) as [->|Hz]; [reflexivity|].
  apply Z.log2_spec. lia.
Qed.

Lemma parse_str_of_nonneg (n : Z) (b : bool) :
  0 <= n -> parse_digits (str_of_nonneg n) 0 b = Some n.
Proof.
  intros Hn. unfold str_of_nonneg.
  rewrite parse_digits_fuel by (apply log2_fuel; exact Hn). reflexivity.
Qed.

Lemma digits_fuel_isdigit (f : nat) :
  forall (n : Z) (rest : str),
    forallb isdigit rest = true -> forallb isdigit (digits_fuel f n rest) = true.
Proof.
  induction f as [|f IH]; intros n rest Hr; cbn [digits_fuel].
  - cbn [forallb]. rewrite isdigit_digit_char by (apply Z.mod_pos_bound; lia).
    exact Hr.
  - destruct (n <? 10).
    + cbn [forallb]. rewrite isdigit_digit_char by (apply Z.mod_pos_bound; lia).
      exact Hr.
    + apply IH. cbn [forallb].
      rewrite isdigit_digit_char by (apply Z.mod_pos_bound; lia). exact Hr.
Qed.

Lemma digits_fuel_cons (f : nat) :
  forall (n : Z) (rest : str), exists c r, digits_fuel f n rest = c :: r.
Proof.
  induction f as [|f IH]; intros n rest; cbn [digits_fuel].
  - eauto.
  - destruct (n <? 10); [eauto|apply IH].
Qed.

Lemma str_of_nonneg_isdigit (n : Z) : forallb isdigit (str_of_nonneg n) = true.
Proof. apply digits_fuel_isdigit. reflexivity. Qed.

Lemma str_of_int_chars (n : Z) : forallb int_char (str_of_int n) = true.
Proof.
  assert (H : forall s, forallb isdigit s = true -> forallb int_char s = true).
  { intros s Hs. rewrite forallb_forall in *. intros c Hc. unfold int_char.
    rewrite (Hs c Hc). reflexivity. }
  unfold str_of_int. destruct (n <? 0).
  - cbn [forallb]. rewrite H by apply str_of_nonneg_isdigit. reflexivity.
  - apply H, str_of_nonneg_isdigit.
Qed.

Lemma str_of_int_not_nil (n : Z) : str_of_int n <> [].
Proof.
  unfold str_of_int. destruct (n <? 0); [discriminate|].
  unfold str_of_nonneg.
  destruct (digits_fuel_cons (Z.to_nat (Z.log2 n)) n []) as (c & r & ->).
  discriminate.
Qed.

Lemma int_char_visible (c : ascii) : int_char c = true -> isspace c = false.
Proof. each_char c. Qed.

Lemma isdigit_not_sign (c : ascii) :
  isdigit c = true -> Ascii.eqb c "-"%char = false /\ Ascii.eqb c "+"%char = false.
Proof. each_char c. Qed.

(** A predicate that fails on the ten digits and the minus sign fails on
    every character of [str(n)]. *)
Lemma forallb_weaken {A} (p q : A -> bool) (l : list A) :
  (forall x, p x = true -> q x = true) ->
  forallb p l = true -> forallb q l = true.
Proof.
  intros Hpq H. rewrite forallb_forall in *. intros x Hx. auto.
Qed.

Lemma str_of_int_no_space (n : Z) : no_space (str_of_int n) = true.
Proof.
  eapply forallb_weaken; [|apply str_of_int_chars].
  intros c Hc. rewrite (int_char_visible c Hc). reflexivity.
Qed.

Lemma str_of_nonneg_no_space (n : Z) : no_space (str_of_nonneg n) = true.
Proof.
  eapply forallb_weaken; [|apply str_of_nonneg_isdigit].
  intros c Hc. apply negb_true_iff, int_char_visible. unfold int_char.
  rewrite Hc. reflexivity.
Qed.

(** [int(str(n)) == n]. *)
Lemma int_of_str_of_int (n : Z) : int_of_str (str_of_int n) = Some n.
Proof.
  unfold int_of_str. rewrite strip_no_space by apply str_of_int_no_space.
  unfold str_of_int. destruct (n <? 0) eqn:E.
  - apply Z.ltb_lt in E. rewrite eqb_refl_char.
    rewrite parse_str_of_nonneg by lia. cbn. f_equal. lia.
  - apply Z.ltb_ge in E.
    pose proof (str_of_nonneg_isdigit n) as Hd.
    pose proof (parse_str_of_nonneg n false E) as Hp.
    destruct (str_of_nonneg n) as [|c r]; [discriminate|].
    cbn [forallb] in Hd. apply andb_prop in Hd. destruct Hd as [Hc _].
    destruct (isdigit_not_sign c Hc) as [-> ->]. exact Hp.
Qed.

End PyFacts.

(** ** Facts about the JSON calls *)
Module JsonFacts.
Import Py PyFacts Json.

Lemma escape_plain_char (c : ascii) : plain_char c = true -> escape_char c = [c].
Proof. each_char c. Qed.

Lemma escape_plain (s : str) : plain s = true -> flat_map escape_char s = s.
Proof.
  induction s as [|c s IH]; simpl; intros H; [reflexivity|].
  apply andb_prop in H. destruct H as [Hc Hs].
  rewrite escape_plain_char by exact Hc. rewrite (IH Hs). reflexivity.
Qed.

Lemma plain_char_scan (c : ascii) :
  plain_char c = true ->
  Ascii.eqb c dquote = false /\ Ascii.eqb c backslash = false
  /\ (ord c <? 32)%N = false.
Proof. each_char c. Qed.

Lemma scan_string_plain (s rest : str) :
  plain s = true -> scan_string (s ++ dquote :: rest) = Parsed s rest.
Proof.
  induction s as [|c s IH]; intros H.
  - reflexivity.
  - simpl in H. apply andb_prop in H. destruct H as [Hc Hs].
    destruct (plain_char_scan c Hc) as (E1 & E2 & E3).
    cbn [app scan_string]. rewrite E1, E2, E3, (IH Hs). reflexivity.
Qed.

Lemma escape_char_no_nl (c : ascii) : no_char nl (escape_char c) = true.
Proof. each_char c. Qed.

Lemma dumps_str_no_nl (s : str) : no_char nl (dumps_str s) = true.
Proof.
  unfold dumps_str.
  change (dquote :: flat_map escape_char s ++ [dquote])
    with ([dquote] ++ flat_map escape_char s ++ [dquote]).
  rewrite !no_char_app. apply andb_true_intro. split; [reflexivity|].
  apply andb_true_intro. split; [|reflexivity].
  induction s as [|c s IH]; [reflexivity|].
  cbn [flat_map]. rewrite no_char_app, escape_char_no_nl, IH. reflexivity.
Qed.

Lemma parse_color_object (tag : str) (f : nat) :
  plain tag = true ->
  parse_value (S (S (S f)))
    ("{"%char :: dquote :: lit "color" ++ dquote :: lit ": "
       ++ dquote :: tag ++ [dquote; "}"%char])
  = Parsed (JObj [(lit "color", JStr tag)]) [].
Proof.
  intros H. simpl.
  change (Ascii.eqb " " dquote) with false. cbv iota.
  rewrite scan_string_plain by exact H. reflexivity.
Qed.

(** [json.loads(json.dumps({"color": tag}))] for a plain [tag]. *)
Lemma loads_dumps_color (tag : str) :
  plain tag = true ->
  loads (dumps_dict1 (lit "color") tag)
  = Decoded (JObj [(lit "color", JStr tag)]).
Proof.
  intros H. unfold loads, dumps_dict1, dumps_str.
  rewrite (escape_plain tag H).
  set (text := lit "{" ++ _).
  assert (Ht : text = "{"%char :: dquote :: lit "color" ++ dquote :: lit ": "
                 ++ dquote :: tag ++ [dquote; "}"%char]).
  { subst text. simpl. rewrite <- app_assoc. reflexivity. }
  assert (Hf : exists f, (2 * length text + 2)%nat = S (S (S f))).
  { rewrite Ht. simpl. eexists. reflexivity. }
  destruct Hf as [f ->]. rewrite Ht at 1.
  change (skip_ws ("{"%char :: ?x)) with ("{"%char :: x).
  rewrite parse_color_object by exact H. reflexivity.
Qed.

End JsonFacts.

(** ** [Connection]: the text form *)
Module ConnectionFacts.
Import Py PyFacts Json JsonFacts Connection.

Lemma split_join_nl (ls : list str) :
  ls <> [] -> forallb (no_char nl) ls = true ->
  split [nl] (join [nl] ls ++ [nl]) = ls ++ [[]].
Proof.
  induction ls as [|x ls IH]; intros Hne H; [contradiction|].
  cbn [forallb] in H. apply andb_prop in H. destruct H as [Hx Hls].
  destruct ls as [|y ls].
  - cbn [join app]. rewrite split_prefix by exact Hx.
    cbn. rewrite app_nil_r. reflexivity.
  - change (join [nl] (x :: y :: ls)) with (x ++ [nl] ++ join [nl] (y :: ls)).
    rewrite <- !app_assoc. rewrite split_prefix by exact Hx.
    rewrite (split_at_sep nl []). cbn [hd tl]. rewrite app_nil_r.
    rewrite IH by (discriminate || exact Hls). reflexivity.
Qed.

Lemma int_char_not_nl (c : ascii) :
  int_char c = true -> negb (Ascii.eqb c nl) = true.
Proof. each_char c. Qed.

Lemma str_of_int_no_nl (n : Z) : no_char nl (str_of_int n) = true.
Proof.
  eapply forallb_weaken; [|apply str_of_int_chars]. apply int_char_not_nl.
Qed.

Lemma forallb_map_true {A B} (p : B -> bool) (g : A -> B) (l : list A) :
  (forall x, In x l -> p (g x) = true) -> forallb p (map g l) = true.
Proof.
  intros H. apply forallb_forall. intros y Hy.
  apply in_map_iff in Hy. destruct Hy as (x & <- & Hx). auto.
Qed.

Lemma local_forward_line_no_nl (f : forward) :
  no_char nl (forward_host f) = true -> no_char nl (local_forward_line f) = true.
Proof.
  destruct f as [[a h] b]. cbn [forward_host fst snd]. intros Hh.
  unfold local_forward_line. rewrite !no_char_app, !str_of_int_no_nl, Hh.
  reflexivity.
Qed.

Lemma remote_forward_line_no_nl (f : forward) :
  no_char nl (forward_host f) = true -> no_char nl (remote_forward_line f) = true.
Proof.
  destruct f as [[a h] b]. cbn [forward_host fst snd]. intros Hh.
  unfold remote_forward_line. rewrite !no_char_app, !str_of_int_no_nl, Hh.
  reflexivity.
Qed.

Lemma metadata_line_no_nl (c : t) : no_char nl (metadata_line c) = true.
Proof.
  unfold metadata_line, dumps_dict1.
  rewrite !no_char_app, !dumps_str_no_nl. reflexivity.
Qed.

Lemma config_lines_no_nl (c : t) :
  single_line_fields c = true -> forallb (no_char nl) (config_lines c) = true.
Proof.
  unfold single_line_fields. rewrite !andb_true_iff.
  intros [[[[[[Hn Hh] Hu] Hi] Hp] Hl] Hr].
  unfold config_lines. rewrite !forallb_app, !andb_true_iff.
  repeat match goal with |- _ /\ _ => split end.
  - destruct (is_empty (color_tag c)); [reflexivity|].
    cbn [forallb]. rewrite metadata_line_no_nl. reflexivity.
  - cbn [forallb]. rewrite !no_char_app, Hn, Hh, Hu, str_of_int_no_nl. reflexivity.
  - destruct (is_empty (identity_file c)); [reflexivity|].
    cbn [forallb]. rewrite no_char_app, Hi. reflexivity.
  - destruct (is_empty (proxy_jump c)); [reflexivity|].
    cbn [forallb]. rewrite no_char_app, Hp. reflexivity.
  - apply forallb_map_true. intros f Hf. apply local_forward_line_no_nl.
    rewrite forallb_forall in Hl. auto.
  - apply forallb_map_true. intros f Hf. apply remote_forward_line_no_nl.
    rewrite forallb_forall in Hr. auto.
  - reflexivity.
Qed.

Lemma config_lines_not_nil (c : t) : config_lines c <> [].
Proof.
  unfold config_lines. destruct (is_empty (color_tag c)); discriminate.
Qed.

(** The text splits back into the lines it was joined from. *)
Lemma split_to_ssh_config (c : t) :
  single_line_fields c = true ->
  split [nl] (to_ssh_config c) = config_lines c ++ [[]].
Proof.
  intros H. unfold to_ssh_config.
  apply split_join_nl; [apply config_lines_not_nil|apply config_lines_no_nl, H].
Qed.

Lemma lines_of_to_ssh_config (c : t) :
  single_line_fields c = true -> lines_of (to_ssh_config c) = config_lines c.
Proof.
  intros H. unfold lines_of. rewrite split_to_ssh_config by exact H.
  apply removelast_last.
Qed.

Lemma config_lines_shape (c : t) :
  config_lines c = metadata_lines c ++ (lit "Host " ++ name c) :: body_lines c.
Proof. reflexivity. Qed.

Lemma body_lines_indented (c : t) : forallb indented4 (body_lines c) = true.
Proof.
  unfold body_lines. rewrite !forallb_app, !andb_true_iff.
  repeat match goal with |- _ /\ _ => split end.
  - reflexivity.
  - destruct (is_empty (identity_file c)); reflexivity.
  - destruct (is_empty (proxy_jump c)); reflexivity.
  - apply forallb_map_true. intros [[a h] b] _. reflexivity.
  - apply forallb_map_true. intros [[a h] b] _. reflexivity.
  - reflexivity.
Qed.

Lemma name_char_not_nl : name_char nl = false.
Proof. reflexivity. Qed.

Lemma name_pattern_from_spec (s : str) :
  forall seen,
    name_pattern_from seen s = true <->
    exists body,
      forallb name_char body = true
      /\ (s = body \/ s = body ++ [nl])
      /\ (seen = true \/ body <> []).
Proof.
  induction s as [|c s IH]; intros seen.
  - cbn [name_pattern_from]. split.
    + intros ->. exists []. repeat split; auto.
    + intros (body & _ & [E|E] & Hs).
      * subst body. destruct Hs as [Hs|Hs]; [exact Hs|contradiction].
      * destruct body; discriminate.
  - cbn [name_pattern_from]. destruct (name_char c) eqn:Ec.
    + rewrite IH. split.
      * intros (body & Hb & E & _). exists (c :: body). split.
        { cbn [forallb]. rewrite Ec. exact Hb. }
        split; [|right; discriminate].
        destruct E as [->| ->]; [left|right]; reflexivity.
      * intros (body & Hb & E & _). destruct body as [|x body].
        { destruct E as [E|E]; [discriminate|]. injection E as -> _.
          rewrite name_char_not_nl in Ec. discriminate. }
        cbn [forallb] in Hb. apply andb_prop in Hb. destruct Hb as [_ Hb].
        exists body. split; [exact Hb|]. split; [|left; reflexivity].
        destruct E as [E|E]; injection E as _ ->; [left|right]; reflexivity.
    + split.
      * intros H. apply andb_prop in H. destruct H as [H Hs].
        apply andb_prop in H. destruct H as [-> Hc].
        apply Ascii.eqb_eq in Hc. subst c. destruct s; [|discriminate].
        exists []. repeat split; auto.
      * intros (body & Hb & E & Hs). destruct body as [|x body].
        { destruct E as [E|E]; [discriminate|]. injection E as -> ->.
          destruct Hs as [->|Hs]; [reflexivity|contradiction]. }
        cbn [forallb] in Hb. apply andb_prop in Hb. destruct Hb as [Hx _].
        destruct E as [E|E]; injection E as -> _; congruence.
Qed.

(** The names that the pattern lets through. *)
Lemma name_pattern_spec (s : str) :
  name_pattern s = true <->
  exists body, body <> [] /\ forallb name_char body = true
               /\ (s = body \/ s = body ++ [nl]).
Proof.
  unfold name_pattern. rewrite name_pattern_from_spec. split.
  - intros (body & Hb & E & [Hs|Hs]); [discriminate|]. eauto.
  - intros (body & Hne & Hb & E). eauto.
Qed.

Lemma is_empty_nil (s : str) : is_empty s = true <-> s = [].
Proof. destruct s; split; intros; (reflexivity || discriminate). Qed.

Lemma In_str_eqb (m : str) (l : list str) :
  In m l <-> existsb (str_eqb m) l = true.
Proof.
  rewrite existsb_exists. unfold str_eqb. split.
  - intros H. exists m. split; [exact H|]. apply bool_decide_eq_true. reflexivity.
  - intros (x & Hx & E). apply bool_decide_eq_true in E. subst x. exact Hx.
Qed.

(** Each message is in the list exactly when its test fails. *)
Lemma validate_messages (c : t) :
  (In msg_name_required (validate c) <-> is_empty (name c) = true)
  /\ (In msg_name_pattern (validate c) <->
      is_empty (name c) = false /\ name_pattern (name c) = false)
  /\ (In msg_hostname_required (validate c) <-> is_empty (hostname c) = true)
  /\ (In msg_username_required (validate c) <-> is_empty (user c) = true)
  /\ (In msg_port_range (validate c) <->
      (1 <=? port c) && (port c <=? 65535) = false)
  /\ (In msg_invalid_folder (validate c) <->
      contains (lit "..") (folder c) || startswith (lit "/") (folder c) = true).
Proof.
  rewrite !In_str_eqb. unfold validate.
  destruct (is_empty (name c)); destruct (name_pattern (name c));
    destruct (is_empty (hostname c)); destruct (is_empty (user c));
    destruct ((1 <=? port c) && (port c <=? 65535));
    destruct (contains (lit "..") (folder c) || startswith (lit "/") (folder c));
    vm_compute; intuition congruence.
Qed.

End ConnectionFacts.

(** ** [Connection]: serialisation layout, validation, failing parses *)
Module ConnectionClaims.
Import Py PyFacts Json JsonFacts Connection ConnectionFacts.

(** C7, as amended.  In the text of [to_ssh_config] (of a record whose
    fields hold no newline) the lines are: the metadata comment and a blank
    line when [color_tag] is not empty, neither of them indented; the
    [Host <name>] line; then directive lines only, each indented by exactly
    four spaces. *)
Theorem to_ssh_config_indentation (c : t) :
  single_line_fields c = true ->
  lines_of (to_ssh_config c)
  = metadata_lines c ++ (lit "Host " ++ name c) :: body_lines c
  /\ forallb indented4 (body_lines c) = true
  /\ (is_empty (color_tag c) = true -> metadata_lines c = [])
  /\ (is_empty (color_tag c) = false ->
      metadata_lines c = [metadata_line c; []]
      /\ indented4 (metadata_line c) = false /\ indented4 [] = false).
Proof.
  intros H. split; [|split; [|split]].
  - rewrite lines_of_to_ssh_config by exact H. apply config_lines_shape.
  - apply body_lines_indented.
  - unfold metadata_lines. intros ->. reflexivity.
  - unfold metadata_lines. intros ->. repeat split; reflexivity.
Qed.

Lemma to_ssh_config_indentation_witness :
  single_line_fields db1 = true
  /\ lines_of (to_ssh_config db1)
     = metadata_lines db1 ++ (lit "Host " ++ name db1) :: body_lines db1
  /\ forallb indented4 (body_lines db1) = true.
Proof.
  split; [reflexivity|].
  destruct (to_ssh_config_indentation db1 eq_refl) as (H1 & H2 & _).
  split; assumption.
Defined.

(** C7 as stated fails: the metadata comment of a tagged record is a line
    other than the [Host] line and it is not indented. *)
Lemma metadata_line_not_indented :
  ~ (forall l, In l (lines_of (to_ssh_config db1)) ->
               l <> lit "Host " ++ name db1 -> indented4 l = true).
Proof.
  intros H. specialize (H (metadata_line db1)).
  assert (Hin : In (metadata_line db1) (lines_of (to_ssh_config db1)))
    by (vm_compute; left; reflexivity).
  assert (Hne : metadata_line db1 <> lit "Host " ++ name db1)
    by (vm_compute; discriminate).
  specialize (H Hin Hne). vm_compute in H. discriminate.
Qed.

Lemma is_user_line_emitted (u : str) : is_user_line (lit "    User " ++ u) = true.
Proof.
  unfold is_user_line, split_ws. cbn [list_ascii_of_string app split_ws_aux].
  destruct (split_ws_aux u) as [cur done].
  destruct (isspace " ") eqn:E; [|discriminate E]. cbn.
  reflexivity.
Qed.




(** *** validate *)

Lemma name_pattern_from_class (s : str) :
  forallb name_char s = true -> name_pattern_from true s = true.
Proof.
  induction s as [|c s IH]; simpl; intros H; [reflexivity|].
  apply andb_prop in H. destruct H as [-> Hs]. auto.
Qed.

Lemma name_pattern_class (s : str) :
  is_empty s = false -> forallb name_char s = true -> name_pattern s = true.
Proof.
  destruct s as [|c s]; [discriminate|]. intros _ H.
  simpl in H. apply andb_prop in H. destruct H as [Hc Hs].
  unfold name_pattern. simpl. rewrite Hc. apply name_pattern_from_class, Hs.
Qed.

Lemma name_pattern_from_foreign (s : str) :
  forall seen,
    (exists x, In x s /\ name_char x = false /\ x <> nl) ->
    name_pattern_from seen s = false.
Proof.
  induction s as [|c s IH]; intros seen (x & Hin & Hx & Hnl); [destruct Hin|].
  simpl. destruct (name_char c) eqn:Ec.
  - apply IH. exists x. destruct Hin as [->|Hin]; [congruence|]. auto.
  - destruct Hin as [->|Hin].
    + destruct (Ascii.eqb x nl) eqn:E.
      * apply Ascii.eqb_eq in E. contradiction.
      * rewrite andb_false_r. reflexivity.
    + destruct s; [destruct Hin|]. simpl. apply andb_false_r.
Qed.




(** *** Parses that raise *)

Lemma parse_forward_token_count (v : str) :
  length (split_ws v) <> 2%nat -> parse_forward v = Ok None.
Proof.
  unfold parse_forward. intros H.
  destruct (split_ws v) as [|a [|b [|x l]]]; try reflexivity.
  contradiction H. reflexivity.
Qed.

(** C10.  [from_ssh_config] raises [ValueError] on a port or a forward
    port that is not a number, whereas a forward line with the wrong
    number of words or of colon-separated parts is skipped. *)
Theorem from_ssh_config_not_total :
  raised_kind (from_ssh_config (lit "Port abc") [] (lit "personal"))
  = Some ValueError
  /\ raised_kind (from_ssh_config (lit "LocalForward abc localhost:80") []
                   (lit "personal")) = Some ValueError
  /\ raised_kind (from_ssh_config (lit "LocalForward 8080 localhost:xyz") []
                   (lit "personal")) = Some ValueError
  /\ raised_kind (from_ssh_config (lit "RemoteForward 8080 localhost:xyz") []
                   (lit "personal")) = Some ValueError
  /\ from_ssh_config (lit "LocalForward 8080") [] (lit "personal")
     = Ok (Returned parsed_defaults)
  /\ from_ssh_config (lit "LocalForward 8080 localhost:80 extra") []
       (lit "personal") = Ok (Returned parsed_defaults)
  /\ from_ssh_config (lit "RemoteForward 8080 a:b:80") [] (lit "personal")
     = Ok (Returned parsed_defaults)
  /\ (forall st kw v,
        In kw [lit "LocalForward "; lit "RemoteForward "] ->
        no_space v = true -> v <> [] ->
        parse_line st (kw ++ v) = Ok st).
Proof.
  repeat match goal with |- _ /\ _ => split end;
    try (match goal with |- forall _, _ => fail 1 | _ => idtac end;
         vm_compute; reflexivity).
  intros st kw v Hkw Hv Hne.
  assert (Hs : strip (kw ++ v) = kw ++ v).
  { destruct (exists_last Hne) as (v' & d & ->).
    assert (Hd : isspace d = false).
    { rewrite no_space_app in Hv. apply andb_prop in Hv. destruct Hv as [_ Hv].
      simpl in Hv. rewrite andb_true_r in Hv. apply negb_true_iff, Hv. }
    destruct Hkw as [<-|[<-|[]]].
    - apply (strip_padded [] "L" (lit "ocalForward " ++ v') d); auto.
    - apply (strip_padded [] "R" (lit "emoteForward " ++ v') d); auto. }
  assert (Hc : forall k, In " "%char k -> contains k v = false).
  { intros k Hk. apply (contains_missing_char " "%char); [exact Hk|].
    apply no_space_not_in; [reflexivity|exact Hv]. }
  assert (Hf : parse_forward v = Ok None).
  { apply parse_forward_token_count. unfold split_ws.
    rewrite split_ws_aux_single by exact Hv. destruct v; [contradiction|].
    simpl. discriminate. }
  assert (Hv' : forall k, k <> [] -> In " "%char k ->
                directive_value k (k ++ v) = v).
  { intros k Hk Hin. unfold directive_value.
    rewrite item1_split_kw by (exact Hk || apply Hc, Hin).
    apply strip_no_space, Hv. }
  unfold parse_line. rewrite Hs.
  destruct Hkw as [<-|[<-|[]]].
  - rewrite (Hv' (lit "LocalForward ")) by (discriminate || (simpl; tauto)).
    rewrite Hf. reflexivity.
  - rewrite (Hv' (lit "RemoteForward ")) by (discriminate || (simpl; tauto)).
    rewrite Hf. reflexivity.
Qed.

Lemma from_ssh_config_not_total_witness :
  parse_line db1 (lit "LocalForward 8080") = Ok db1.
Proof.
  destruct from_ssh_config_not_total as (_ & _ & _ & _ & _ & _ & _ & H).
  apply (H db1 (lit "LocalForward ") (lit "8080")).
  - left. reflexivity.
  - reflexivity.
  - discriminate.
Defined.

End ConnectionClaims.

(** ** [Connection]: parsing the lines that [to_ssh_config] writes *)
Module RoundTrip.
Import Py PyFacts Json JsonFacts Connection ConnectionFacts.

(** *** More on strip, contains and the characters of numbers *)

Lemma lstrip_snoc_visible (s : str) (c : ascii) :
  isspace c = false -> lstrip (s ++ [c]) = lstrip s ++ [c].
Proof.
  intros Hc. induction s as [|x s IH]; simpl.
  - rewrite Hc. reflexivity.
  - destruct (isspace x); [exact IH|reflexivity].
Qed.

Lemma rstrip_cons_visible (c : ascii) (s : str) :
  isspace c = false -> rstrip (c :: s) = c :: rstrip s.
Proof.
  intros Hc. unfold rstrip. cbn [rev].
  rewrite lstrip_snoc_visible by exact Hc. rewrite rev_unit. reflexivity.
Qed.

Lemma strip_cons_visible (c : ascii) (s : str) :
  isspace c = false -> strip (c :: s) = c :: rstrip s.
Proof.
  intros Hc. unfold strip. cbn [lstrip]. rewrite Hc.
  apply rstrip_cons_visible, Hc.
Qed.

Lemma rstrip_ends_visible (s : str) :
  ends_visible s = true -> rstrip s = s.
Proof.
  unfold ends_visible, rstrip. destruct (rev s) as [|d r] eqn:E; [discriminate|].
  intros Hd. apply negb_true_iff in Hd. cbn [lstrip]. rewrite Hd.
  rewrite <- E. apply rev_involutive.
Qed.

Lemma ends_visible_app (a b : str) :
  ends_visible b = true -> ends_visible (a ++ b) = true.
Proof.
  unfold ends_visible. rewrite rev_app_distr.
  destruct (rev b); [discriminate|]. intros H. exact H.
Qed.

Lemma ends_visible_no_space (s : str) :
  s <> [] -> no_space s = true -> ends_visible s = true.
Proof.
  intros Hne Hs. destruct (exists_last Hne) as (s' & d & ->).
  unfold ends_visible. rewrite rev_unit.
  rewrite no_space_app in Hs. apply andb_prop in Hs. destruct Hs as [_ Hs].
  simpl in Hs. rewrite andb_true_r in Hs. exact Hs.
Qed.

(** A written line: four blanks, a keyword, a value that ends visibly. *)
Lemma strip_indented (c : ascii) (k v : str) :
  isspace c = false -> ends_visible v = true ->
  strip (lit "    " ++ (c :: k) ++ v) = (c :: k) ++ v.
Proof.
  intros Hc Hv. unfold strip. rewrite lstrip_spaces by reflexivity.
  cbn [app lstrip]. rewrite Hc. apply rstrip_ends_visible.
  apply (ends_visible_app (c :: k)), Hv.
Qed.

Lemma strip_visible_ends (c : ascii) (s : str) :
  isspace c = false -> ends_visible (c :: s) = true -> strip (c :: s) = c :: s.
Proof.
  intros Hc Hs. unfold strip. cbn [lstrip]. rewrite Hc.
  apply rstrip_ends_visible, Hs.
Qed.

Lemma contains_skip_prefix (c : ascii) (k a s : str) :
  no_char c a = true -> contains (c :: k) (a ++ s) = contains (c :: k) s.
Proof.
  induction a as [|x a IH]; intros H; [reflexivity|].
  simpl in H. apply andb_prop in H. destruct H as [Hx Ha].
  apply negb_true_iff in Hx.
  cbn [app contains startswith]. rewrite Ascii.eqb_sym, Hx. cbn [andb orb].
  apply IH, Ha.
Qed.

Lemma contains_needs_space (k s : str) :
  In " "%char k -> no_space s = true -> contains k s = false.
Proof.
  intros Hk Hs. apply (contains_missing_char " "%char); [exact Hk|].
  apply no_space_not_in; [reflexivity|exact Hs].
Qed.

Lemma str_of_int_no_char (x : ascii) (n : Z) :
  int_char x = false -> no_char x (str_of_int n) = true.
Proof.
  intros Hx. eapply forallb_weaken; [|apply str_of_int_chars].
  intros c Hc. apply negb_true_iff. destruct (Ascii.eqb c x) eqn:E; [|reflexivity].
  apply Ascii.eqb_eq in E. congruence.
Qed.

Lemma str_of_int_ends_visible (n : Z) : ends_visible (str_of_int n) = true.
Proof.
  apply ends_visible_no_space; [apply str_of_int_not_nil|apply str_of_int_no_space].
Qed.

Lemma name_char_visible (c : ascii) : name_char c = true -> negb (isspace c) = true.
Proof. each_char c. Qed.

Lemma no_space_no_nl (s : str) : no_space s = true -> no_char nl s = true.
Proof.
  intros H. apply no_char_not_in, no_space_not_in; [reflexivity|exact H].
Qed.


(** *** One line at a time *)

Lemma directive_value_written (k v : str) :
  k <> [] -> In " "%char k -> no_space v = true ->
  directive_value k (k ++ v) = v.
Proof.
  intros Hk Hin Hv. unfold directive_value.
  rewrite item1_split_kw by (exact Hk || apply contains_needs_space; assumption).
  apply strip_no_space, Hv.
Qed.

Ltac kw_side := first [discriminate | reflexivity | (simpl; tauto) | assumption].

Lemma parse_host_line (st : t) (n : str) :
  is_empty (name st) = false -> n <> [] -> no_space n = true ->
  parse_line st (lit "Host " ++ n) = Ok st.
Proof.
  intros Hst Hn Hs. unfold parse_line.
  change (lit "Host " ++ n) with ("H"%char :: lit "ost " ++ n).
  rewrite strip_visible_ends
    by (reflexivity
        || apply (ends_visible_app (lit "Host ")), ends_visible_no_space;
           assumption).
  cbn [list_ascii_of_string app is_empty startswith Ascii.eqb Bool.eqb andb orb].
  rewrite Hst. reflexivity.
Qed.

Lemma parse_hostname_line (st : t) (h : str) :
  h <> [] -> no_space h = true ->
  parse_line st (lit "    HostName " ++ h) = Ok (set_hostname h st).
Proof.
  intros Hn Hs. unfold parse_line.
  change (lit "    HostName " ++ h) with (lit "    " ++ ("H"%char :: lit "ostName ") ++ h).
  rewrite strip_indented by (reflexivity || (apply ends_visible_no_space; assumption)).
  change ("H"%char :: lit "ostName ") with (lit "HostName ").
  rewrite (directive_value_written (lit "HostName ")) by kw_side.
  reflexivity.
Qed.

Lemma parse_user_line (st : t) (u : str) :
  user st = [] -> no_space u = true ->
  parse_line st (lit "    User " ++ u) = Ok (set_user u st).
Proof.
  intros Hst Hs. destruct u as [|x u].
  - destruct st. cbn in Hst. subst. reflexivity.
  - unfold parse_line.
    change (lit "    User " ++ x :: u) with (lit "    " ++ ("U"%char :: lit "ser ") ++ x :: u).
    rewrite strip_indented by (reflexivity || (apply ends_visible_no_space; [discriminate|assumption])).
    change ("U"%char :: lit "ser ") with (lit "User ").
    rewrite (directive_value_written (lit "User ")) by kw_side.
    reflexivity.
Qed.

Lemma parse_port_line (st : t) (p : Z) :
  parse_line st (lit "    Port " ++ str_of_int p) = Ok (set_port p st).
Proof.
  unfold parse_line.
  change (lit "    Port " ++ str_of_int p)
    with (lit "    " ++ ("P"%char :: lit "ort ") ++ str_of_int p).
  rewrite strip_indented by (reflexivity || apply str_of_int_ends_visible).
  change ("P"%char :: lit "ort ") with (lit "Port ").
  rewrite (directive_value_written (lit "Port "))
    by (kw_side || apply str_of_int_no_space).
  rewrite int_of_str_of_int. reflexivity.
Qed.

Lemma parse_identity_line (st : t) (v : str) :
  v <> [] -> no_space v = true ->
  parse_line st (lit "    IdentityFile " ++ v) = Ok (set_identity_file v st).
Proof.
  intros Hn Hs. unfold parse_line.
  change (lit "    IdentityFile " ++ v)
    with (lit "    " ++ ("I"%char :: lit "dentityFile ") ++ v).
  rewrite strip_indented by (reflexivity || (apply ends_visible_no_space; assumption)).
  change ("I"%char :: lit "dentityFile ") with (lit "IdentityFile ").
  rewrite (directive_value_written (lit "IdentityFile ")) by kw_side.
  reflexivity.
Qed.

Lemma parse_proxy_line (st : t) (v : str) :
  v <> [] -> no_space v = true ->
  parse_line st (lit "    ProxyJump " ++ v) = Ok (set_proxy_jump v st).
Proof.
  intros Hn Hs. unfold parse_line.
  change (lit "    ProxyJump " ++ v)
    with (lit "    " ++ ("P"%char :: lit "roxyJump ") ++ v).
  rewrite strip_indented by (reflexivity || (apply ends_visible_no_space; assumption)).
  change ("P"%char :: lit "roxyJump ") with (lit "ProxyJump ").
  rewrite (directive_value_written (lit "ProxyJump ")) by kw_side.
  reflexivity.
Qed.

Lemma parse_comment_line (st : t) (s : str) :
  parse_line st ("#"%char :: s) = Ok st.
Proof.
  unfold parse_line. rewrite strip_cons_visible by reflexivity. reflexivity.
Qed.

Lemma parse_keepalive_lines (st : t) :
  parse_lines st [lit "    ServerAliveInterval 60";
                  lit "    ServerAliveCountMax 3";
                  lit "    ConnectTimeout 10"; []] = Ok st.
Proof. reflexivity. Qed.


(** *** Forward lines *)

Lemma host_port_no_space (h : str) (p : Z) :
  no_space h = true -> no_space (h ++ lit ":" ++ str_of_int p) = true.
Proof.
  intros Hh. rewrite !no_space_app, Hh, str_of_int_no_space. reflexivity.
Qed.

Lemma forward_value_ends_visible (f : forward) :
  ends_visible (forward_value f) = true.
Proof.
  destruct f as [[a h] b]. unfold forward_value.
  do 4 apply ends_visible_app. apply str_of_int_ends_visible.
Qed.

Lemma strip_word_first (a s : str) :
  a <> [] -> no_space a = true -> ends_visible (a ++ s) = true ->
  strip (a ++ s) = a ++ s.
Proof.
  intros Hne Ha He. destruct a as [|c a]; [contradiction|].
  simpl in Ha. apply andb_prop in Ha. destruct Ha as [Hc _].
  apply negb_true_iff in Hc. apply strip_visible_ends; assumption.
Qed.

Lemma parse_forward_written (f : forward) :
  host_token (forward_host f) = true ->
  parse_forward (forward_value f) = Ok (Some f).
Proof.
  destruct f as [[a h] b]. unfold host_token, forward_value.
  cbn [forward_host fst snd]. intros H. apply andb_prop in H.
  destruct H as [Hs Hc]. unfold parse_forward.
  change (str_of_int a ++ lit " " ++ h ++ lit ":" ++ str_of_int b)
    with (str_of_int a ++ " "%char :: (h ++ lit ":" ++ str_of_int b)).
  rewrite split_ws_two;
    [|reflexivity|apply str_of_int_no_space|apply host_port_no_space, Hs
     |apply str_of_int_not_nil|destruct h; discriminate].
  rewrite int_of_str_of_int.
  change (lit ":") with [":"%char].
  rewrite split_prefix by exact Hc.
  rewrite (split_at_sep ":" []).
  rewrite split_absent
    by (apply (contains_missing_char ":"%char); [left; reflexivity|];
        apply no_char_not_in, str_of_int_no_char; reflexivity).
  cbn [hd tl]. rewrite app_nil_r, int_of_str_of_int. reflexivity.
Qed.

Lemma directive_value_forward (c : ascii) (k : str) (f : forward) :
  int_char c = false -> Ascii.eqb c " " = false -> In " "%char k ->
  no_space (forward_host f) = true ->
  directive_value (c :: k) ((c :: k) ++ forward_value f) = forward_value f.
Proof.
  intros Hc Hsp Hin Hh. unfold directive_value.
  pose proof (forward_value_ends_visible f) as He.
  destruct f as [[a h] b]. unfold forward_value in *. cbn [forward_host fst snd] in Hh.
  rewrite item1_split_kw.
  - apply strip_word_first;
      [apply str_of_int_not_nil|apply str_of_int_no_space|exact He].
  - discriminate.
  - rewrite contains_skip_prefix by (apply str_of_int_no_char, Hc).
    cbn [list_ascii_of_string app contains startswith]. rewrite Hsp. cbn [andb orb].
    apply contains_needs_space; [right; exact Hin|].
    apply host_port_no_space, Hh.
Qed.

Lemma host_token_no_space (h : str) : host_token h = true -> no_space h = true.
Proof. unfold host_token. intros H. apply andb_prop in H. tauto. Qed.

Lemma parse_local_forward_line (st : t) (f : forward) :
  host_token (forward_host f) = true ->
  parse_line st (local_forward_line f) = Ok (add_local_forward f st).
Proof.
  intros H. unfold parse_line.
  assert (E : local_forward_line f
              = lit "    " ++ ("L"%char :: lit "ocalForward ") ++ forward_value f)
    by (destruct f as [[a h] b]; reflexivity).
  rewrite E, strip_indented by (reflexivity || apply forward_value_ends_visible).
  rewrite (directive_value_forward "L" (lit "ocalForward "))
    by (reflexivity || (simpl; tauto) || apply host_token_no_space, H).
  rewrite parse_forward_written by exact H.
  reflexivity.
Qed.

Lemma parse_remote_forward_line (st : t) (f : forward) :
  host_token (forward_host f) = true ->
  parse_line st (remote_forward_line f) = Ok (add_remote_forward f st).
Proof.
  intros H. unfold parse_line.
  assert (E : remote_forward_line f
              = lit "    " ++ ("R"%char :: lit "emoteForward ") ++ forward_value f)
    by (destruct f as [[a h] b]; reflexivity).
  rewrite E, strip_indented by (reflexivity || apply forward_value_ends_visible).
  rewrite (directive_value_forward "R" (lit "emoteForward "))
    by (reflexivity || (simpl; tauto) || apply host_token_no_space, H).
  rewrite parse_forward_written by exact H.
  reflexivity.
Qed.


(** *** The whole list of lines *)

Lemma parse_lines_cons (st st' : t) (l : str) (rest : list str) :
  parse_line st l = Ok st' -> parse_lines st (l :: rest) = parse_lines st' rest.
Proof. intros H. cbn [parse_lines]. rewrite H. reflexivity. Qed.

Lemma parse_local_forwards (fs : list forward) :
  forall (st : t) (rest : list str),
    forallb (fun f => host_token (forward_host f)) fs = true ->
    parse_lines st (map local_forward_line fs ++ rest)
    = parse_lines
        (mk (name st) (hostname st) (user st) (port st) (identity_file st)
            (folder st) (proxy_jump st) (local_forwards st ++ fs)
            (remote_forwards st) (color_tag st)) rest.
Proof.
  induction fs as [|f fs IH]; intros st rest H.
  - rewrite app_nil_r. destruct st. reflexivity.
  - cbn [forallb] in H. apply andb_prop in H. destruct H as [Hf Hfs].
    cbn [map app].
    rewrite (parse_lines_cons st (add_local_forward f st))
      by (apply parse_local_forward_line, Hf).
    rewrite IH by exact Hfs. destruct st. cbn. rewrite <- app_assoc. reflexivity.
Qed.

Lemma parse_remote_forwards (fs : list forward) :
  forall (st : t) (rest : list str),
    forallb (fun f => host_token (forward_host f)) fs = true ->
    parse_lines st (map remote_forward_line fs ++ rest)
    = parse_lines
        (mk (name st) (hostname st) (user st) (port st) (identity_file st)
            (folder st) (proxy_jump st) (local_forwards st)
            (remote_forwards st ++ fs) (color_tag st)) rest.
Proof.
  induction fs as [|f fs IH]; intros st rest H.
  - rewrite app_nil_r. destruct st. reflexivity.
  - cbn [forallb] in H. apply andb_prop in H. destruct H as [Hf Hfs].
    cbn [map app].
    rewrite (parse_lines_cons st (add_remote_forward f st))
      by (apply parse_remote_forward_line, Hf).
    rewrite IH by exact Hfs. destruct st. cbn. rewrite <- app_assoc. reflexivity.
Qed.

Lemma parse_metadata_line (st c : t) : parse_line st (metadata_line c) = Ok st.
Proof. apply parse_comment_line. Qed.

Lemma name_class_no_space (n : str) : forallb name_char n = true -> no_space n = true.
Proof. apply forallb_weaken, name_char_visible. Qed.

Lemma not_empty (s : str) : is_empty s = false -> s <> [].
Proof. destruct s; [discriminate|]. intros _. discriminate. Qed.

Lemma parse_written_lines (r : t) : invariants r = true -> no_exotic r = true ->
  parse_lines (mk (name r) [] [] 22 [] (folder r) [] [] [] (color_tag r)) (config_lines r ++ [[]]) = Ok r.
Proof.
  destruct r as [n h u p i f pj lfs rfs col].
  unfold invariants, no_exotic. cbn [name hostname user port identity_file folder proxy_jump local_forwards remote_forwards color_tag].
  rewrite !andb_true_iff, !negb_true_iff.
  intros [[[[[[Hn Hc] Hh] Hp1] Hp2] Hf1] Hf2] [[[[[[Eh Eu] Ei] Epj] El] Er] Ecol].
  unfold config_lines.  cbn [name hostname user port identity_file folder proxy_jump local_forwards remote_forwards color_tag].
  rewrite <- !app_assoc.
  set (st0 := mk n [] [] 22 [] f [] [] [] col).
  assert (H0 : forall rest,
             parse_lines st0 ((if is_empty col then []
                               else [metadata_line (mk n h u p i f pj lfs rfs col); []]) ++ rest)
             = parse_lines st0 rest).
  { intros rest. destruct (is_empty col); [reflexivity|].
    cbn [app]. rewrite (parse_lines_cons st0 st0) by apply parse_metadata_line.
    reflexivity. }
  rewrite H0. cbn [app].
  rewrite (parse_lines_cons st0 st0)
    by (apply parse_host_line; [exact Hn|apply not_empty, Hn|apply name_class_no_space, Hc]).
  rewrite (parse_lines_cons st0 (set_hostname h st0))
    by (apply parse_hostname_line; [apply not_empty, Hh|exact Eh]).
  rewrite (parse_lines_cons _ (set_user u (set_hostname h st0)))
    by (apply parse_user_line; [reflexivity|exact Eu]).
  rewrite (parse_lines_cons _ (set_port p (set_user u (set_hostname h st0))))
    by apply parse_port_line.
  subst st0. cbn [set_hostname set_user set_port name hostname user port
    identity_file folder proxy_jump local_forwards remote_forwards color_tag].
  set (st1 := mk n h u p [] f [] [] [] col).
  assert (H1 : forall rest,
             parse_lines st1 ((if is_empty i then []
                               else [lit "    IdentityFile " ++ i]) ++ rest)
             = parse_lines (set_identity_file i st1) rest).
  { intros rest. destruct i as [|x i]; [reflexivity|]. cbn [is_empty app].
    apply parse_lines_cons, parse_identity_line; [discriminate|exact Ei]. }
  rewrite H1. subst st1. cbn [set_identity_file name hostname user port
    identity_file folder proxy_jump local_forwards remote_forwards color_tag].
  set (st2 := mk n h u p i f [] [] [] col).
  assert (H2 : forall rest,
             parse_lines st2 ((if is_empty pj then []
                               else [lit "    ProxyJump " ++ pj]) ++ rest)
             = parse_lines (set_proxy_jump pj st2) rest).
  { intros rest. destruct pj as [|x pj]; [reflexivity|]. cbn [is_empty app].
    apply parse_lines_cons, parse_proxy_line; [discriminate|exact Epj]. }
  rewrite H2. subst st2. cbn [set_proxy_jump name hostname user port
    identity_file folder proxy_jump local_forwards remote_forwards color_tag].
  rewrite parse_local_forwards by exact El.
  rewrite parse_remote_forwards by exact Er.
  cbn [app name hostname user port
    identity_file folder proxy_jump local_forwards remote_forwards color_tag].
  apply parse_keepalive_lines.
Qed.

(** *** The metadata comment *)

Lemma metadata_search_absent (s : str) :
  hash_blank_free s = true -> metadata_search s = None.
Proof.
  induction s as [|c s IH]; intros H; [reflexivity|].
  cbn [hash_blank_free] in H. apply andb_prop in H. destruct H as [Hc Hs].
  cbn [metadata_search].
  assert (E : startswith metadata_mark (c :: s) = false).
  { cbn [metadata_mark list_ascii_of_string startswith].
    rewrite Ascii.eqb_sym.
    destruct (Ascii.eqb c "#"); [|reflexivity].
    destruct s as [|d s]; [reflexivity|].
    cbn [starts_blank andb negb] in Hc. apply negb_true_iff in Hc.
    rewrite Ascii.eqb_sym, Hc. reflexivity. }
  rewrite E. apply IH, Hs.
Qed.

Lemma hash_blank_free_skip (a b : str) :
  no_char "#" a = true -> hash_blank_free (a ++ b) = hash_blank_free b.
Proof.
  induction a as [|c a IH]; intros H; [reflexivity|].
  simpl in H. apply andb_prop in H. destruct H as [Hc Ha].
  apply negb_true_iff in Hc.
  cbn [app hash_blank_free]. rewrite Hc. cbn [andb negb]. apply IH, Ha.
Qed.

Lemma hash_blank_free_app (a b : str) :
  hash_blank_free a = true -> hash_blank_free b = true ->
  starts_blank b = false -> hash_blank_free (a ++ b) = true.
Proof.
  intros Ha Hb Hsb. induction a as [|c a IH]; [exact Hb|].
  cbn [hash_blank_free] in Ha. apply andb_prop in Ha. destruct Ha as [Hc Ha].
  cbn [app hash_blank_free]. rewrite (IH Ha), andb_true_r.
  destruct a as [|d a]; [|exact Hc].
  cbn [app]. rewrite Hsb, andb_false_r. reflexivity.
Qed.

Lemma hash_blank_free_no_space (s : str) :
  no_space s = true -> hash_blank_free s = true.
Proof.
  induction s as [|c s IH]; intros H; [reflexivity|].
  simpl in H. apply andb_prop in H. destruct H as [_ Hs].
  cbn [hash_blank_free]. rewrite (IH Hs), andb_true_r.
  destruct s as [|d s]; [apply negb_true_iff, andb_false_r|].
  simpl in Hs. apply andb_prop in Hs. destruct Hs as [Hd _].
  cbn [starts_blank].
  destruct (Ascii.eqb d " ") eqn:E.
  - apply Ascii.eqb_eq in E. subst d. discriminate Hd.
  - rewrite andb_false_r. reflexivity.
Qed.

Lemma hash_blank_free_join (ls : list str) :
  forallb hash_blank_free ls = true ->
  hash_blank_free (join [nl] ls ++ [nl]) = true.
Proof.
  induction ls as [|x ls IH]; intros H; [reflexivity|].
  cbn [forallb] in H. apply andb_prop in H. destruct H as [Hx Hls].
  destruct ls as [|y ls].
  - cbn [join]. apply hash_blank_free_app; [exact Hx|reflexivity|reflexivity].
  - change (join [nl] (x :: y :: ls)) with (x ++ [nl] ++ join [nl] (y :: ls)).
    rewrite <- !app_assoc. apply hash_blank_free_app; [exact Hx| |reflexivity].
    rewrite hash_blank_free_skip by reflexivity. apply IH, Hls.
Qed.

Lemma forward_line_hash_blank_free (kw : str) (f : forward) :
  no_char "#" kw = true -> host_token (forward_host f) = true ->
  hash_blank_free (kw ++ forward_value f) = true.
Proof.
  intros Hk Hf. destruct f as [[a h] b]. cbn [forward_host fst snd] in Hf.
  unfold forward_value.
  rewrite hash_blank_free_skip by exact Hk.
  rewrite hash_blank_free_skip by (apply str_of_int_no_char; reflexivity).
  rewrite hash_blank_free_skip by reflexivity.
  apply hash_blank_free_no_space, host_port_no_space, host_token_no_space, Hf.
Qed.

Lemma config_lines_hash_blank_free (r : t) :
  invariants r = true -> no_exotic r = true -> color_tag r = [] ->
  forallb hash_blank_free (config_lines r) = true.
Proof.
  destruct r as [n h u p i f pj lfs rfs col].
  unfold invariants, no_exotic.
  cbn [name hostname user port identity_file folder proxy_jump
       local_forwards remote_forwards color_tag].
  rewrite !andb_true_iff, !negb_true_iff.
  intros [[[[[[Hn Hc] Hh] Hp1] Hp2] Hf1] Hf2] [[[[[[Eh Eu] Ei] Epj] El] Er] Ecol] ->.
  unfold config_lines.
  cbn [name hostname user port identity_file folder proxy_jump
       local_forwards remote_forwards color_tag is_empty].
  rewrite !forallb_app, !andb_true_iff.
  repeat match goal with |- _ /\ _ => split end.
  - reflexivity.
  - cbn [forallb]. rewrite !hash_blank_free_skip by reflexivity.
    rewrite !hash_blank_free_no_space;
      [reflexivity|apply str_of_int_no_space|exact Eu|exact Eh
       |apply name_class_no_space, Hc].
  - destruct (is_empty i); [reflexivity|]. cbn [forallb].
    rewrite hash_blank_free_skip by reflexivity.
    rewrite hash_blank_free_no_space by exact Ei. reflexivity.
  - destruct (is_empty pj); [reflexivity|]. cbn [forallb].
    rewrite hash_blank_free_skip by reflexivity.
    rewrite hash_blank_free_no_space by exact Epj. reflexivity.
  - apply forallb_map_true. intros x Hx.
    replace (local_forward_line x) with (lit "    LocalForward " ++ forward_value x)
      by (destruct x as [[a b] c]; reflexivity).
    apply forward_line_hash_blank_free; [reflexivity|].
    rewrite forallb_forall in El. auto.
  - apply forallb_map_true. intros x Hx.
    replace (remote_forward_line x) with (lit "    RemoteForward " ++ forward_value x)
      by (destruct x as [[a b] c]; reflexivity).
    apply forward_line_hash_blank_free; [reflexivity|].
    rewrite forallb_forall in Er. auto.
  - reflexivity.
Qed.

Lemma extract_color_untagged (r : t) :
  invariants r = true -> no_exotic r = true -> color_tag r = [] ->
  extract_color (to_ssh_config r) = Ok (ColorStr []).
Proof.
  intros Hi He Hc. unfold extract_color, to_ssh_config.
  rewrite metadata_search_absent; [reflexivity|].
  apply hash_blank_free_join, config_lines_hash_blank_free; assumption.
Qed.

Lemma join_cons (sep x : str) (l : list str) :
  l <> [] -> join sep (x :: l) = x ++ sep ++ join sep l.
Proof. destruct l; [contradiction|reflexivity]. Qed.

Lemma line_prefix_app (a t : str) :
  no_char nl a = true -> line_prefix (a ++ nl :: t) = a.
Proof.
  induction a as [|c a IH]; intros H.
  - reflexivity.
  - simpl in H. apply andb_prop in H. destruct H as [Hc Ha].
    apply negb_true_iff in Hc. cbn [app line_prefix]. rewrite Hc, (IH Ha).
    reflexivity.
Qed.

Lemma upto_last_brace_closed (g : str) :
  upto_last_brace (g ++ ["}"%char]) = Some (g ++ ["}"%char]).
Proof.
  induction g as [|c g IH]; [reflexivity|].
  cbn [app upto_last_brace]. rewrite IH. reflexivity.
Qed.

Lemma metadata_search_first (g tail : str) :
  no_char nl g = true ->
  metadata_search (metadata_mark ++ (g ++ ["}"%char]) ++ nl :: tail)
  = Some ("{"%char :: g ++ ["}"%char]).
Proof.
  intros Hg.
  change (metadata_mark ++ (g ++ ["}"%char]) ++ nl :: tail)
    with ("#"%char :: lit " SSH Manager Metadata: {" ++ (g ++ ["}"%char]) ++ nl :: tail).
  cbn [metadata_search].
  change ("#"%char :: lit " SSH Manager Metadata: {" ++ (g ++ ["}"%char]) ++ nl :: tail)
    with (metadata_mark ++ (g ++ ["}"%char]) ++ nl :: tail).
  rewrite startswith_app, drop_app_length.
  rewrite line_prefix_app
    by (rewrite no_char_app, Hg; reflexivity).
  rewrite upto_last_brace_closed. reflexivity.
Qed.

Lemma extract_color_tagged (r : t) :
  no_exotic r = true -> is_empty (color_tag r) = false ->
  extract_color (to_ssh_config r) = Ok (ColorStr (color_tag r)).
Proof.
  intros He Hc.
  assert (Hp : plain (color_tag r) = true).
  { unfold no_exotic in He. apply andb_prop in He. tauto. }
  unfold extract_color, to_ssh_config, config_lines. rewrite Hc.
  set (rest := [lit "Host " ++ name r; _; _; _] ++ _).
  set (g := dumps_str (lit "color") ++ lit ": " ++ dumps_str (color_tag r)).
  assert (Hm : metadata_line r = metadata_mark ++ g ++ ["}"%char]).
  { unfold metadata_line, dumps_dict1, g. rewrite <- !app_assoc. reflexivity. }
  assert (Ht : exists tail,
             join [nl] ([metadata_line r; []] ++ rest) ++ [nl]
             = metadata_mark ++ (g ++ ["}"%char]) ++ nl :: tail).
  { exists (join [nl] ([] :: rest) ++ [nl]).
    clearbody rest. cbn [app].
    rewrite join_cons by discriminate. rewrite Hm, <- !app_assoc. reflexivity. }
  destruct Ht as [tail ->].
  rewrite metadata_search_first
    by (unfold g; rewrite !no_char_app, !dumps_str_no_nl; reflexivity).
  replace ("{"%char :: g ++ ["}"%char]) with (dumps_dict1 (lit "color") (color_tag r))
    by (unfold dumps_dict1, g; rewrite <- !app_assoc; reflexivity).
  rewrite loads_dumps_color by exact Hp. reflexivity.
Qed.

Lemma single_line_of_valid (r : t) :
  invariants r = true -> no_exotic r = true -> single_line_fields r = true.
Proof.
  unfold invariants, no_exotic, single_line_fields.
  rewrite !andb_true_iff, !negb_true_iff.
  intros [[[[[[Hn Hc] Hh] Hp1] Hp2] Hf1] Hf2] [[[[[[Eh Eu] Ei] Epj] El] Er] Ecol].
  assert (Hfw : forall l,
             forallb (fun f => host_token (forward_host f)) l = true ->
             forallb (fun f => no_char nl (forward_host f)) l = true).
  { intros l. apply forallb_weaken. intros x Hx.
    apply no_space_no_nl, host_token_no_space, Hx. }
  repeat match goal with |- _ /\ _ => split end;
    auto using no_space_no_nl, name_class_no_space.
Qed.

(** C1.  A record that meets the invariants of the data model and holds no
    exotic character is read back from its own text, field by field; the
    keep-alive lines of the text set no field. *)
Theorem parse_serialize_roundtrip (r : t) :
  invariants r = true -> no_exotic r = true ->
  from_ssh_config (to_ssh_config r) (name r) (folder r) = Ok (Returned r).
Proof.
  intros Hi He. unfold from_ssh_config.
  assert (Hcol : extract_color (to_ssh_config r) = Ok (ColorStr (color_tag r))).
  { destruct (is_empty (color_tag r)) eqn:E.
    - assert (E' : color_tag r = []) by (destruct (color_tag r); [reflexivity|discriminate]).
      rewrite E'. apply extract_color_untagged; assumption.
    - apply extract_color_tagged; assumption. }
  rewrite Hcol.
  rewrite split_to_ssh_config by (apply single_line_of_valid; assumption).
  rewrite parse_written_lines by assumption.
  assert (Hn : is_empty (name r) = false).
  { unfold invariants in Hi. rewrite !andb_true_iff, !negb_true_iff in Hi. tauto. }
  rewrite Hn. reflexivity.
Qed.

Lemma parse_serialize_roundtrip_witness :
  invariants db1 = true /\ no_exotic db1 = true
  /\ from_ssh_config (to_ssh_config db1) (name db1) (folder db1)
     = Ok (Returned db1).
Proof.
  split; [reflexivity|]. split; [reflexivity|].
  apply (parse_serialize_roundtrip db1); reflexivity.
Defined.

End RoundTrip.

Example fs_demo :
  Fs.exists_ (Fs.parse_path (lit "/home/u/ssh_manager/groups/work/A.conf")) store0 = true
  /\ Fs.exists_ (Fs.parse_path (lit "/home/nothing/../u/ssh_manager/groups/work/A.conf")) store0 = false
  /\ Fs.exists_ (Fs.parse_path (lit "home/./u/../u//ssh_manager/groups/work/A.conf")) store0 = true
  /\ Fs.any_iterdir (Fs.parse_path (lit "/home/u/ssh_manager/groups/work")) store0 = Ok true
  /\ Fs.exists_ (Fs.parse_path (lit "/home/u/ssh_manager/groups/work/A.conf"))
       (snd (Fs.rmtree (Fs.parse_path (lit "/home/u/ssh_manager/groups/work")) store0)) = false
  /\ Fs.read_text (Fs.parse_path (lit "/home/u/b.conf"))
       (snd (Fs.move (Fs.parse_path (lit "/home/u/ssh_manager/groups/work/A.conf"))
                     (Fs.parse_path (lit "/home/u/b.conf")) store0)) = Ok (Connection.to_ssh_config conn_A).
Proof. repeat split; vm_compute; reflexivity. Qed.

(** ** Facts about the file system *)
Module FsFacts.
Import Py PyFacts Fs.

Ltac run_io := unfold mbind, io_bind, mret, io_ret, gets, reads, raise; cbn beta iota.

Lemma child_of_snoc (q k : loc) : child_of q k <-> exists x, k = q ++ [x].
Proof.
  unfold child_of. split.
  - intros [Hne <-]. exists (List.last k []). apply app_removelast_last, Hne.
  - intros [x ->]. split.
    + destruct q; discriminate.
    + apply removelast_last.
Qed.

Lemma has_children_spec (t : gmap loc node) (q : loc) :
  has_children t q = true <-> exists x n, t !! (q ++ [x]) = Some n.
Proof.
  unfold has_children. rewrite bool_decide_eq_true, map_Exists_lookup.
  split.
  - intros (k & n & Hk & Hc). apply child_of_snoc in Hc. destruct Hc as [x ->].
    eauto.
  - intros (x & n & Hx). exists (q ++ [x]), n. split; [exact Hx|].
    apply child_of_snoc. eauto.
Qed.

Lemma exists_lookup (p : path) (σ : fs) :
  exists_ p σ = true <-> exists q n, lookup_path σ p = Some (q, Some n).
Proof.
  unfold exists_. destruct (lookup_path σ p) as [[q [n|]]|]; split;
    try discriminate; eauto; intros (q' & n' & H); discriminate.
Qed.

Lemma without_subtree_inside (q k : loc) (t : gmap loc node) :
  q `prefix_of` k -> without_subtree q t !! k = None.
Proof.
  intros Hp. unfold without_subtree. apply map_lookup_filter_None.
  right. intros n _ Hn. apply Hn. exact Hp.
Qed.

Lemma without_subtree_outside (q k : loc) (t : gmap loc node) :
  ~ q `prefix_of` k -> without_subtree q t !! k = t !! k.
Proof.
  intros Hp. unfold without_subtree. apply option_eq. intros n.
  rewrite map_lookup_filter_Some. cbn. tauto.
Qed.

(** *** Reading back what was written *)

Lemma node_at_insert_ne (t : gmap loc node) (q k : loc) (n : node) :
  k <> q -> node_at (<[q := n]> t) k = node_at t k.
Proof.
  intros Hne. destruct k; [reflexivity|]. cbn [node_at].
  apply lookup_insert_ne. congruence.
Qed.

Lemma walk_insert_other (t : gmap loc node) (q : loc) (n : node) (segs : list str) :
  forall cur,
    is_dir_at t q = false ->
    walk t cur segs = Some q ->
    walk (<[q := n]> t) cur segs = Some q.
Proof.
  induction segs as [|s rest IH]; intros cur Hq H; [exact H|].
  cbn [walk] in *. destruct (is_dir_at t cur) eqn:Hd; [|discriminate].
  assert (Hne : cur <> q) by congruence.
  unfold is_dir_at in *. rewrite node_at_insert_ne by exact Hne.
  destruct (node_at t cur) as [[|]|]; try discriminate. apply IH; assumption.
Qed.

(** Text without a carriage return is read as it stands, and no text
    comes back with one. *)
Lemma universal_newlines_clean (s : str) :
  no_char cr s = true -> universal_newlines s = s.
Proof.
  induction s as [|c s IH]; [reflexivity|]. cbn [no_char forallb].
  intros H. apply andb_prop in H. destruct H as [Hc Hs].
  apply negb_true_iff in Hc. cbn [universal_newlines]. rewrite Hc.
  f_equal. apply IH, Hs.
Qed.

Lemma universal_newlines_no_cr (s : str) :
  no_char cr (universal_newlines s) = true.
Proof.
  assert (H : forall n s, (length s <= n)%nat ->
                          no_char cr (universal_newlines s) = true).
  { clear s. induction n as [|n IH]; intros s Hl.
    - destruct s; [reflexivity|simpl in Hl; lia].
    - destruct s as [|c s]; [reflexivity|]. simpl in Hl.
      cbn [universal_newlines]. destruct (Ascii.eqb c cr) eqn:Ec.
      + destruct s as [|c' s]; [reflexivity|]. simpl in Hl.
        destruct (Ascii.eqb c' nl); cbn [no_char forallb];
          change (forallb (fun x => negb (Ascii.eqb x cr)) ?l) with (no_char cr l);
          rewrite IH by (simpl; lia); reflexivity.
      + cbn [no_char forallb]. rewrite Ec.
        change (forallb (fun x => negb (Ascii.eqb x cr)) ?l) with (no_char cr l).
        rewrite IH by lia. reflexivity. }
  apply (H (length s)). reflexivity.
Qed.

Lemma read_bytes_lookup (p : path) (σ : fs) (c : str) :
  read_bytes p σ = Ok c <-> exists q, lookup_path σ p = Some (q, Some (File c)).
Proof.
  unfold read_bytes. destruct (lookup_path σ p) as [[q [[c'|]|]]|]; split;
    try discriminate; try (intros [q' H]; discriminate).
  - intros [= ->]. eauto.
  - intros [q' [= _ ->]]. reflexivity.
Qed.

Lemma read_text_bytes (p : path) (σ : fs) (x : str) :
  read_text p σ = Ok x <->
  exists c, read_bytes p σ = Ok c /\ x = universal_newlines c.
Proof.
  unfold read_text. destruct (read_bytes p σ) as [c|e]; split.
  - intros [= <-]. eauto.
  - intros (c' & [= <-] & ->). reflexivity.
  - discriminate.
  - intros (c' & H & _). discriminate.
Qed.

Lemma read_text_exists (p : path) (σ : fs) (c : str) :
  read_text p σ = Ok c -> exists_ p σ = true.
Proof.
  intros H. apply read_text_bytes in H. destruct H as (c0 & H & _).
  apply read_bytes_lookup in H. destruct H as [q H].
  apply exists_lookup. eauto.
Qed.

Lemma write_text_place (p : path) (x : str) (σ σ' : fs) :
  write_text p x σ = (Ok tt, σ') ->
  exists q, q <> [] /\ σ' = with_tree σ (<[q := File x]> (tree σ))
            /\ lookup_path σ p = Some (q, node_at (tree σ) q)
            /\ lookup_path σ' p = Some (q, Some (File x)).
Proof.
  unfold write_text, lookup_path, locate.
  destruct (walk (tree σ) (start σ p) (parts p)) as [q|] eqn:Hw; [|discriminate].
  intros H.
  assert (Hq : is_dir_at (tree σ) q = false
               /\ σ' = with_tree σ (<[q := File x]> (tree σ))).
  { unfold is_dir_at in *.
    destruct (node_at (tree σ) q) as [[c|]|]; try discriminate;
      (destruct (match node_at (tree σ) (removelast q) with
                 | Some Dir => true | _ => false end); [|discriminate]);
      injection H as <-; split; reflexivity. }
  destruct Hq as [Hd ->].
  assert (Hne : q <> []) by (intros ->; discriminate Hd).
  exists q. split; [exact Hne|]. split; [reflexivity|]. split; [reflexivity|].
  cbn [tree with_tree].
  change (start (with_tree σ (<[q:=File x]> (tree σ))) p) with (start σ p).
  rewrite (walk_insert_other _ _ _ _ _ Hd Hw).
  destruct q; [contradiction|]. cbn [node_at]. rewrite lookup_insert_eq.
  reflexivity.
Qed.

(** What is written is what the file holds; read as text it comes back
    with its carriage returns turned into line feeds. *)
Lemma write_text_ok (p : path) (x : str) (σ σ' : fs) :
  write_text p x σ = (Ok tt, σ') ->
  exists q, q <> [] /\ σ' = with_tree σ (<[q := File x]> (tree σ))
            /\ read_bytes p σ' = Ok x
            /\ read_text p σ' = Ok (universal_newlines x).
Proof.
  intros H. apply write_text_place in H. destruct H as (q & Hq & -> & _ & Hl).
  exists q. split; [exact Hq|]. split; [reflexivity|].
  assert (Hb : read_bytes p (with_tree σ (<[q:=File x]> (tree σ))) = Ok x)
    by (apply read_bytes_lookup; eauto).
  split; [exact Hb|]. unfold read_text. rewrite Hb. reflexivity.
Qed.

Lemma read_bytes_file (p : path) (σ : fs) (c : str) :
  read_bytes p σ = Ok c -> exists q, tree σ !! q = Some (File c).
Proof.
  unfold read_bytes, lookup_path. destruct (locate σ p) as [q|]; [|discriminate].
  destruct (node_at (tree σ) q) as [[c'|]|] eqn:E; try discriminate.
  intros [= ->]. destruct q as [|s q]; [discriminate E|]. exists (s :: q). exact E.
Qed.

(** *** Steps that only add to the disk *)

Lemma grows_refl (σ : fs) : grows σ σ.
Proof. split; reflexivity. Qed.

Lemma grows_trans (σ1 σ2 σ3 : fs) : grows σ1 σ2 -> grows σ2 σ3 -> grows σ1 σ3.
Proof.
  intros [H1 H2] [H3 H4]. split; [congruence|]. etrans; eassumption.
Qed.

Lemma node_at_mono (t t' : gmap loc node) (q : loc) (n : node) :
  t ⊆ t' -> node_at t q = Some n -> node_at t' q = Some n.
Proof.
  intros Hs. destruct q; [trivial|]. cbn [node_at]. apply lookup_weaken_inv || idtac.
  intros H. eapply lookup_weaken; eassumption.
Qed.

Lemma walk_mono (t t' : gmap loc node) (segs : list str) :
  t ⊆ t' -> forall cur q, walk t cur segs = Some q -> walk t' cur segs = Some q.
Proof.
  intros Hs. induction segs as [|s rest IH]; intros cur q H; [exact H|].
  cbn [walk] in *. unfold is_dir_at in *.
  destruct (node_at t cur) as [[c|]|] eqn:E; try discriminate.
  rewrite (node_at_mono _ _ _ _ Hs E). apply IH, H.
Qed.

Lemma read_bytes_mono (p : path) (σ σ' : fs) (c : str) :
  grows σ σ' -> read_bytes p σ = Ok c -> read_bytes p σ' = Ok c.
Proof.
  intros [Hc Hs]. unfold read_bytes, lookup_path, locate, start. rewrite Hc.
  destruct (walk (tree σ) (if absolute p then [] else cwd σ) (parts p)) as [q|] eqn:Hw;
    [|discriminate].
  rewrite (walk_mono _ _ _ Hs _ _ Hw).
  destruct (node_at (tree σ) q) as [[c'|]|] eqn:E; try discriminate.
  rewrite (node_at_mono _ _ _ _ Hs E). trivial.
Qed.

Lemma read_text_mono (p : path) (σ σ' : fs) (c : str) :
  grows σ σ' -> read_text p σ = Ok c -> read_text p σ' = Ok c.
Proof.
  intros G H. apply read_text_bytes in H. destruct H as (c0 & H & ->).
  unfold read_text. rewrite (read_bytes_mono _ _ _ _ G H). reflexivity.
Qed.

Lemma grows_insert_fresh (σ : fs) (q : loc) (n : node) :
  node_at (tree σ) q = None -> grows σ (with_tree σ (<[q := n]> (tree σ))).
Proof.
  intros H. split; [reflexivity|]. cbn [tree with_tree].
  apply insert_subseteq. destruct q; [discriminate|exact H].
Qed.

Lemma mkdir_grows (p : path) (ok : bool) (σ σ' : fs) (r : result unit) :
  mkdir p ok σ = (r, σ') -> grows σ σ'.
Proof.
  unfold mkdir, lookup_path. intros H.
  destruct (locate σ p) as [q|]; [|injection H as _ <-; apply grows_refl].
  destruct (node_at (tree σ) q) as [[c|]|] eqn:E;
    repeat match type of H with
           | context [if ?b then _ else _] => destruct b
           end;
    injection H as _ <-; try apply grows_refl.
  apply grows_insert_fresh, E.
Qed.

Lemma make_dirs_grows (segs : list str) :
  forall t cur t', make_dirs t cur segs = Ok t' -> t ⊆ t'.
Proof.
  induction segs as [|s rest IH]; intros t cur t' H.
  - injection H as <-. reflexivity.
  - cbn [make_dirs] in H. destruct (str_eqb s (lit "..")).
    + destruct (is_dir_at t cur); [|discriminate]. eapply IH; eauto.
    + destruct (node_at t (cur ++ [s])) as [[c|]|] eqn:E; [discriminate| |].
      * eapply IH; eauto.
      * etrans; [|eapply IH; exact H]. apply insert_subseteq.
        destruct (cur ++ [s]) eqn:E'; [destruct cur; discriminate|exact E].
Qed.

Lemma mkdir_parents_grows (p : path) (σ σ' : fs) (r : result unit) :
  mkdir_parents p σ = (r, σ') -> grows σ σ'.
Proof.
  unfold mkdir_parents. intros H.
  destruct (is_dir_at (tree σ) (start σ p)); [|injection H as _ <-; apply grows_refl].
  destruct (make_dirs (tree σ) (start σ p) (parts p)) eqn:E;
    injection H as _ <-; [|apply grows_refl].
  split; [reflexivity|]. eapply make_dirs_grows; eauto.
Qed.

Lemma copy2_grows (src dst : path) (σ σ' : fs) (r : result unit) :
  exists_ dst σ = false -> copy2 src dst σ = (r, σ') -> grows σ σ'.
Proof.
  unfold copy2, exists_, write_text. intros He H.
  destruct (read_bytes src σ) as [c|e]; [|injection H as _ <-; apply grows_refl].
  destruct (lookup_path σ dst) as [[q [n|]]|] eqn:El; try discriminate;
    [|injection H as _ <-; apply grows_refl].
  destruct (is_dir_at (tree σ) (removelast q));
    injection H as _ <-; [|apply grows_refl].
  apply grows_insert_fresh. unfold lookup_path in El.
  destruct (locate σ dst); [|discriminate]. injection El as -> E. exact E.
Qed.

(** *** A place that was emptied *)

Lemma lookup_path_locate (σ : fs) (p : path) (q : loc) (n : option node) :
  lookup_path σ p = Some (q, n) -> locate σ p = Some q /\ node_at (tree σ) q = n.
Proof.
  unfold lookup_path. destruct (locate σ p); [|discriminate].
  intros [= -> <-]. split; reflexivity.
Qed.

Lemma exists_after_removal (p : path) (σ : fs) (q : loc) (t' : gmap loc node) :
  locate σ p = Some q -> q <> [] -> t' ⊆ tree σ -> t' !! q = None ->
  exists_ p (with_tree σ t') = false.
Proof.
  intros Hl Hq Hs Hn. unfold exists_, lookup_path, locate in *.
  cbn [tree with_tree].
  change (start (with_tree σ t') p) with (start σ p).
  destruct (walk t' (start σ p) (parts p)) as [q'|] eqn:W; [|reflexivity].
  apply (walk_mono _ _ _ Hs) in W. rewrite Hl in W. injection W as <-.
  destruct q; [contradiction|]. cbn [node_at]. rewrite Hn. reflexivity.
Qed.

(** *** Paths without [..], and a directory that is emptied *)

Lemma walk_no_dotdot (t : gmap loc node) (segs : list str) :
  forall cur q,
    no_dotdot segs = true -> walk t cur segs = Some q -> q = cur ++ segs.
Proof.
  induction segs as [|s rest IH]; intros cur q Hn H.
  - injection H as <-. rewrite app_nil_r. reflexivity.
  - cbn [no_dotdot forallb] in Hn. apply andb_prop in Hn. destruct Hn as [Hs Hn].
    apply negb_true_iff in Hs. cbn [walk] in H. rewrite Hs in H.
    destruct (is_dir_at t cur); [|discriminate].
    apply IH in H; [|exact Hn]. rewrite H, <- app_assoc. reflexivity.
Qed.

Lemma lookup_path_place (σ : fs) (p : path) (q : loc) (n : option node) :
  no_dotdot (parts p) = true -> lookup_path σ p = Some (q, n) -> q = place σ p.
Proof.
  intros Hn H. apply lookup_path_locate in H. destruct H as [H _].
  unfold locate in H. apply walk_no_dotdot in H; assumption.
Qed.

Lemma emptied_below (q k : loc) (t : gmap loc node) :
  q `prefix_of` k -> k <> q -> emptied q t !! k = None.
Proof.
  intros Hp Hk. unfold emptied. apply map_lookup_filter_None.
  right. intros n _ Hn. apply Hn. split; assumption.
Qed.

Lemma emptied_other (q k : loc) (t : gmap loc node) :
  ~ (q `prefix_of` k /\ k <> q) -> emptied q t !! k = t !! k.
Proof.
  intros Hp. unfold emptied. apply option_eq. intros n.
  rewrite map_lookup_filter_Some. cbn. tauto.
Qed.

Lemma emptied_subseteq (q : loc) (t : gmap loc node) : emptied q t ⊆ t.
Proof. apply map_filter_subseteq. Qed.

Lemma emptied_no_children (q : loc) (t : gmap loc node) :
  has_children (emptied q t) q = false.
Proof.
  destruct (has_children (emptied q t) q) eqn:E; [|reflexivity].
  apply has_children_spec in E. destruct E as (x & n & E).
  rewrite emptied_below in E; [discriminate|exists [x]; reflexivity|].
  intros H. apply (f_equal length) in H. rewrite length_app in H. simpl in H. lia.
Qed.

Lemma delete_emptied (q : loc) (t : gmap loc node) :
  delete q (emptied q t) = without_subtree q t.
Proof.
  apply map_eq. intros k. destruct (decide (q `prefix_of` k)) as [Hp|Hp].
  - rewrite without_subtree_inside by exact Hp.
    destruct (decide (k = q)) as [->|Hk].
    + apply lookup_delete_eq.
    + rewrite lookup_delete_ne by congruence. apply emptied_below; assumption.
  - rewrite without_subtree_outside by exact Hp.
    assert (Hk : q <> k) by (intros ->; apply Hp; reflexivity).
    rewrite lookup_delete_ne by exact Hk. apply emptied_other. tauto.
Qed.

Lemma node_at_emptied (q k : loc) (t : gmap loc node) :
  ~ (q `prefix_of` k /\ k <> q) -> node_at (emptied q t) k = node_at t k.
Proof.
  intros H. destruct k; [reflexivity|]. cbn [node_at]. apply emptied_other, H.
Qed.

(** A path without [..] only passes places above the one it leads to, so
    it can be followed again when that place has been emptied. *)
Lemma walk_emptied (t : gmap loc node) (segs : list str) :
  forall cur,
    no_dotdot segs = true ->
    walk t cur segs = Some (cur ++ segs) ->
    walk (emptied (cur ++ segs) t) cur segs = Some (cur ++ segs).
Proof.
  induction segs as [|s rest IH]; intros cur Hn H;
    [rewrite app_nil_r; reflexivity|].
  cbn [no_dotdot forallb] in Hn. apply andb_prop in Hn. destruct Hn as [Hs Hn].
  apply negb_true_iff in Hs. cbn [walk] in *. rewrite Hs in *.
  destruct (is_dir_at t cur) eqn:Hd; [|discriminate].
  assert (Hd' : is_dir_at (emptied (cur ++ s :: rest) t) cur = true).
  { unfold is_dir_at in *. rewrite node_at_emptied; [exact Hd|].
    intros [[x Hx] Hne]. apply (f_equal length) in Hx.
    rewrite !length_app in Hx. simpl in Hx. lia. }
  rewrite Hd'.
  replace (cur ++ s :: rest) with ((cur ++ [s]) ++ rest) in *
    by (rewrite <- app_assoc; reflexivity).
  apply IH; assumption.
Qed.

(** [rmtree] removes the subtree when the path can be followed again
    once the directory is empty, as every path without [..] can. *)
Lemma rmtree_followed (p : path) (σ : fs) (q q' : loc) :
  lookup_path σ p = Some (q, Some Dir) ->
  locate (with_tree σ (emptied q (tree σ))) p = Some q' ->
  rmtree p σ = (Ok tt, with_tree σ (without_subtree q (tree σ))).
Proof.
  intros Hq Hl. unfold rmtree. rewrite Hq.
  pose proof Hq as Hq0. apply lookup_path_locate in Hq0. destruct Hq0 as [Hw Hn].
  assert (q' = q).
  { unfold locate in *. cbn [tree with_tree] in Hl.
    change (start (with_tree σ (emptied q (tree σ))) p) with (start σ p) in Hl.
    apply (walk_mono _ _ _ (emptied_subseteq q (tree σ))) in Hl. congruence. }
  subst q'. unfold rmdir, lookup_path. rewrite Hl. cbn [tree with_tree].
  rewrite node_at_emptied by tauto. rewrite Hn.
  rewrite emptied_no_children, delete_emptied. reflexivity.
Qed.

Lemma rmtree_no_dotdot (p : path) (σ : fs) (q : loc) :
  no_dotdot (parts p) = true ->
  lookup_path σ p = Some (q, Some Dir) ->
  rmtree p σ = (Ok tt, with_tree σ (without_subtree q (tree σ))).
Proof.
  intros Hn Hq. apply (rmtree_followed p σ q q); [exact Hq|].
  pose proof (lookup_path_place _ _ _ _ Hn Hq) as ->.
  apply lookup_path_locate in Hq. destruct Hq as [Hw _].
  unfold locate, place in *. cbn [tree with_tree].
  change (start (with_tree σ (emptied (start σ p ++ parts p) (tree σ))) p)
    with (start σ p).
  apply walk_emptied; assumption.
Qed.

Lemma rmtree_lost (p : path) (σ : fs) (q : loc) :
  lookup_path σ p = Some (q, Some Dir) ->
  locate (with_tree σ (emptied q (tree σ))) p = None ->
  rmtree p σ
  = (Raise (os_error FileNotFoundError), with_tree σ (emptied q (tree σ))).
Proof.
  intros Hq Hl. unfold rmtree. rewrite Hq. unfold rmdir, lookup_path.
  rewrite Hl. reflexivity.
Qed.

(** *** Running code in [io] *)

Lemma bind_ok {A B} (m : io A) (k : A -> io B) (σ σ' : fs) (b : B) :
  (m ≫= k) σ = (Ok b, σ') ->
  exists a σ1, m σ = (Ok a, σ1) /\ k a σ1 = (Ok b, σ').
Proof.
  unfold mbind, io_bind. destruct (m σ) as [[a|e] σ1]; [eauto|discriminate].
Qed.

Lemma gets_ok {A} (f : fs -> A) (σ σ' : fs) (a : A) :
  gets f σ = (Ok a, σ') -> a = f σ /\ σ' = σ.
Proof. unfold gets. intros [= <- <-]. split; reflexivity. Qed.

Lemma reads_ok {A} (f : fs -> result A) (σ σ' : fs) (a : A) :
  reads f σ = (Ok a, σ') -> f σ = Ok a /\ σ' = σ.
Proof. unfold reads. intros [= -> <-]. split; reflexivity. Qed.

Lemma mret_ok {A} (x a : A) (σ σ' : fs) :
  mret (M := io) x σ = (Ok a, σ') -> a = x /\ σ' = σ.
Proof. unfold mret, io_ret. intros [= <- <-]. split; reflexivity. Qed.

End FsFacts.

(** ** The store: deleting and moving *)
Module StoreClaims.
Import Py Fs FsFacts ConfigManager.

(** C4.  When [<name>.conf] is already present in the destination folder,
    [move_connection] raises and nothing has changed: the file system
    (hence the source file and the destination file) and the record are
    what they were.  The exception is the conflict [ValueError] whenever
    the source file exists. *)
Theorem move_conflict (cm : t) (conn : Connection.t) (new_folder : str) (σ : fs) :
  exists_ (connection_file cm new_folder (Connection.name conn)) σ = true ->
  exists e,
    move_connection cm conn new_folder σ = (Raise e, (σ, conn))
    /\ (kind e = ValueError \/ kind e = FileNotFoundError)
    /\ (exists_ (connection_file cm (Connection.folder conn) (Connection.name conn)) σ
        = true -> kind e = ValueError).
Proof.
  intros Hdst. unfold move_connection, connection_file in *.
  destruct (exists_ (joinpath (joinpath (base_path cm) (Connection.folder conn))
                       (Connection.name conn ++ lit ".conf")) σ) eqn:Hsrc.
  - cbn [negb]. rewrite Hdst. eexists. split; [reflexivity|].
    split; [left; reflexivity|]. intros _. reflexivity.
  - cbn [negb]. eexists. split; [reflexivity|].
    split; [right; reflexivity|]. discriminate.
Qed.


Lemma get_connection_file_path_raises (fu : FileUtils.t) (group_path name : str) :
  strip_slashes group_path = [] ->
  exists e, kind e = ValueError
            /\ FileUtils.get_connection_file_path fu group_path name = Raise e.
Proof.
  intros H. unfold FileUtils.get_connection_file_path,
    FileUtils.get_group_config_path, FileUtils.parse_group_path.
  destruct (is_empty group_path);
    [eexists; split; [|reflexivity]; reflexivity|].
  rewrite H. eexists; split; [|reflexivity]. reflexivity.
Qed.

Lemma get_connection_file_path_returns (fu : FileUtils.t) (group_path name : str) :
  strip_slashes group_path <> [] ->
  FileUtils.get_connection_file_path fu group_path name
  = Ok (joinpath
          (fold_left joinpath (split (lit "/") (strip_slashes group_path))
             (joinpath (FileUtils.ssh_manager_dir fu) (lit "config")))
          (name ++ lit ".conf")).
Proof.
  intros H. unfold FileUtils.get_connection_file_path,
    FileUtils.get_group_config_path, FileUtils.parse_group_path.
  destruct group_path as [|c g]; [contradiction H; reflexivity|].
  cbn [is_empty]. destruct (strip_slashes (c :: g)); [contradiction|reflexivity].
Qed.




Lemma move_conflict_witness :
  exists_ (connection_file cm0 (lit "personal") (Connection.name conn_A)) store0 = true
  /\ exists e,
       move_connection cm0 conn_A (lit "personal") store0
       = (Raise e, (store0, conn_A))
       /\ kind e = ValueError.
Proof.
  assert (Hd : exists_ (connection_file cm0 (lit "personal") (Connection.name conn_A))
                 store0 = true) by (vm_compute; reflexivity).
  split; [exact Hd|].
  destruct (move_conflict cm0 conn_A (lit "personal") store0 Hd) as (e & H1 & _ & H3).
  exists e. split; [exact H1|]. apply H3. vm_compute. reflexivity.
Defined.




(** C6 as stated fails: the folder [work/..] exists and is not empty, and
    the recursive call neither returns nor removes it. *)
Lemma delete_folder_steps_back :
  ~ (forall folder_path q,
       lookup_path store0 (joinpath (base_path cm0) folder_path)
       = Some (q, Some Dir) ->
       (exists x n, tree store0 !! (q ++ [x]) = Some n) ->
       exists σ',
         delete_folder cm0 folder_path true store0 = (Ok tt, σ')
         /\ tree σ' !! q = None).
Proof.
  intros H. destruct (H (lit "work/..") groups) as (σ' & E & _).
  - vm_compute. reflexivity.
  - exists (lit "work"), Dir. vm_compute. reflexivity.
  - vm_compute in E. discriminate E.
Qed.

End StoreClaims.

(** ** [ConfigManager.initialize]: the Include statement *)
Module IncludeFacts.
Import Py PyFacts Fs FsFacts ConfigManager.

(** *** Lines of a text and the statements they hold *)

Lemma split_char_app (c : ascii) (a b : str) :
  split [c] (a ++ c :: b) = split [c] a ++ split [c] b.
Proof.
  unfold split. induction a as [|x a IH].
  - cbn [app split_from startswith]. rewrite eqb_refl_char. reflexivity.
  - cbn [app split_from startswith].
    change (length [c] - 1)%nat with 0%nat. rewrite IH.
    destruct (Ascii.eqb c x); cbn [andb]; [reflexivity|].
    pose proof (split_from_not_nil [c] 0 a) as Hn.
    destruct (split_from [c] 0 a); [contradiction|reflexivity].
Qed.

Lemma startswith_foreign (c : ascii) (k x b : str) :
  no_char c k = true -> startswith k (x ++ c :: b) = startswith k x.
Proof.
  revert x. induction k as [|a k IH]; intros x H; [reflexivity|].
  simpl in H. apply andb_prop in H. destruct H as [Ha Hk].
  apply negb_true_iff in Ha.
  destruct x as [|y x]; cbn [app startswith].
  - rewrite Ha. reflexivity.
  - rewrite (IH x Hk). reflexivity.
Qed.

Lemma contains_nil (k : str) : k <> [] -> contains k [] = false.
Proof. destruct k; [contradiction|reflexivity]. Qed.

Lemma contains_app_foreign (c : ascii) (k a b : str) :
  k <> [] -> no_char c k = true ->
  contains k (a ++ c :: b) = contains k a || contains k b.
Proof.
  intros Hk Hc. induction a as [|x a IH].
  - cbn [app]. rewrite contains_nil by exact Hk. cbn [orb contains].
    destruct k as [|a k]; [contradiction|].
    simpl in Hc. apply andb_prop in Hc. destruct Hc as [Ha _].
    apply negb_true_iff in Ha. cbn [startswith]. rewrite Ha. reflexivity.
  - cbn [app contains]. rewrite IH.
    change (x :: a ++ c :: b) with ((x :: a) ++ c :: b).
    rewrite startswith_foreign by exact Hc. rewrite orb_assoc. reflexivity.
Qed.

Lemma contains_starts (k s : str) : startswith k s = true -> contains k s = true.
Proof. intros H. destruct s; cbn [contains]; rewrite H; reflexivity. Qed.

Lemma contains_self (k a b : str) : contains k (a ++ k ++ b) = true.
Proof.
  induction a as [|x a IH].
  - change ([] ++ k ++ b) with (k ++ b). apply contains_starts, startswith_app.
  - cbn [app contains]. rewrite IH. apply orb_true_r.
Qed.

Lemma lines_holding_app (k a b : str) :
  lines_holding k (a ++ nl :: b) = lines_holding k a ++ lines_holding k b.
Proof. unfold lines_holding. rewrite split_char_app. apply List.filter_app. Qed.

Lemma lines_holding_one_line (k a : str) :
  no_char nl a = true -> lines_holding k a = if contains k a then [a] else [].
Proof.
  intros H. unfold lines_holding. rewrite split_absent; [reflexivity|].
  apply (contains_missing_char nl); [left; reflexivity|].
  apply no_char_not_in, H.
Qed.

(** A text holds [k] exactly when one of its lines does. *)
Lemma lines_holding_nil_iff (k : str) :
  k <> [] -> no_char nl k = true ->
  forall n text, length text = n ->
    (lines_holding k text = [] <-> contains k text = false).
Proof.
  intros Hk Hnl n. induction n as [n IH] using lt_wf_ind. intros text Hlen.
  destruct (no_char nl text) eqn:E.
  - rewrite lines_holding_one_line by exact E.
    destruct (contains k text); split; intros; congruence.
  - assert (Hsplit : exists a b, text = a ++ nl :: b /\ no_char nl a = true).
    { clear -E. induction text as [|x text IHt]; [discriminate|].
      simpl in E. destruct (Ascii.eqb x nl) eqn:Ex.
      - apply Ascii.eqb_eq in Ex. subst x. exists [], text. split; reflexivity.
      - cbn [negb andb] in E. destruct (IHt E) as (a & b & -> & Ha).
        exists (x :: a), b. split; [reflexivity|]. simpl. rewrite Ex. exact Ha. }
    destruct Hsplit as (a & b & -> & Ha).
    rewrite lines_holding_app, contains_app_foreign by assumption.
    rewrite lines_holding_one_line by exact Ha.
    assert (Hb : lines_holding k b = [] <-> contains k b = false).
    { apply (IH (length b)); [|reflexivity]. subst n. rewrite length_app. simpl. lia. }
    destruct (contains k a); cbn [orb app].
    + split; intros; discriminate.
    + exact Hb.
Qed.

Lemma lines_holding_absent (k text : str) :
  k <> [] -> no_char nl k = true -> contains k text = false -> lines_holding k text = [].
Proof. intros Hk Hnl H. apply (lines_holding_nil_iff k Hk Hnl _ text eq_refl), H. Qed.

Lemma lines_holding_present (k text : str) :
  k <> [] -> no_char nl k = true -> contains k text = true ->
  (1 <= length (lines_holding k text))%nat.
Proof.
  intros Hk Hnl H. destruct (lines_holding k text) eqn:E; [|simpl; lia].
  apply (lines_holding_nil_iff k Hk Hnl _ text eq_refl) in E. congruence.
Qed.


(** *** The text written by [add_include_statement] *)

Section IncludeText.
Variable cm : t.
Hypothesis base_one_line : no_char nl (include_line cm) = true.

Lemma include_line_not_nil : include_line cm <> [].
Proof. discriminate. Qed.

Lemma comment_holds_none : lines_holding (include_line cm) include_comment = [].
Proof.
  rewrite lines_holding_one_line by reflexivity.
  rewrite (contains_missing_char "I"%char); [reflexivity|left; reflexivity|].
  apply no_char_not_in. reflexivity.
Qed.

Lemma empty_holds_none : lines_holding (include_line cm) [] = [].
Proof. reflexivity. Qed.

Lemma include_holds_itself :
  lines_holding (include_line cm) (include_line cm) = [include_line cm].
Proof.
  rewrite lines_holding_one_line by exact base_one_line.
  rewrite contains_starts; [reflexivity|].
  rewrite <- (app_nil_r (include_line cm)) at 2. apply startswith_app.
Qed.

(** The statement block that is written. *)
Lemma block_holds_one :
  length (include_lines cm (include_comment ++ [nl] ++ include_line cm ++ [nl]))
  = 1%nat.
Proof.
  unfold include_lines.
  change (include_comment ++ [nl] ++ include_line cm ++ [nl])
    with (include_comment ++ nl :: (include_line cm ++ nl :: [])).
  rewrite !lines_holding_app, comment_holds_none, include_holds_itself.
  reflexivity.
Qed.

Lemma appended_holds_one (content : str) :
  contains (include_line cm) content = false ->
  length (include_lines cm
            ((if endswith [nl] content then content else content ++ [nl])
             ++ [nl] ++ include_comment ++ [nl] ++ include_line cm ++ [nl]))
  = 1%nat.
Proof.
  intros H. unfold include_lines.
  match goal with |- context [lines_holding _ (?x ++ [nl] ++ _)] => set (c1 := x) end.
  assert (H1 : lines_holding (include_line cm) c1 = []).
  { subst c1. destruct (endswith [nl] content).
    - apply lines_holding_absent; auto using include_line_not_nil.
    - change (content ++ [nl]) with (content ++ nl :: []).
      rewrite lines_holding_app, empty_holds_none, app_nil_r.
      apply lines_holding_absent; auto using include_line_not_nil. }
  clearbody c1.
  change (c1 ++ [nl] ++ include_comment ++ [nl] ++ include_line cm ++ [nl])
    with (c1 ++ nl :: (include_comment ++ nl :: (include_line cm ++ nl :: []))).
  rewrite !lines_holding_app, H1, comment_holds_none, include_holds_itself.
  reflexivity.
Qed.

Lemma appended_contains (a : str) :
  contains (include_line cm)
    (a ++ [nl] ++ include_comment ++ [nl] ++ include_line cm ++ [nl]) = true.
Proof.
  replace (a ++ [nl] ++ include_comment ++ [nl] ++ include_line cm ++ [nl])
    with ((a ++ [nl] ++ include_comment ++ [nl]) ++ include_line cm ++ [nl])
    by (rewrite <- !app_assoc; reflexivity).
  apply contains_self.
Qed.

Lemma block_contains :
  contains (include_line cm) (include_comment ++ [nl] ++ include_line cm ++ [nl])
  = true.
Proof.
  replace (include_comment ++ [nl] ++ include_line cm ++ [nl])
    with ((include_comment ++ [nl]) ++ include_line cm ++ [nl])
    by (rewrite <- !app_assoc; reflexivity).
  apply contains_self.
Qed.

End IncludeText.


(** *** The file at the path of the primary config *)

Section Bounded.
Variable cm : t.
Variable qc : loc.

Lemma bounded_insert_dir (t : gmap loc node) (q : loc) :
  bounded_at cm qc t -> bounded_at cm qc (<[q := Dir]> t).
Proof.
  intros H c Hk. destruct (decide (q = qc)) as [->|Hne].
  - rewrite lookup_insert_eq in Hk. discriminate.
  - rewrite lookup_insert_ne in Hk by exact Hne. eauto.
Qed.

Lemma bounded_insert_file (t : gmap loc node) (q : loc) (x : str) :
  (length (include_lines cm (universal_newlines x)) <= 1)%nat ->
  bounded_at cm qc t -> bounded_at cm qc (<[q := File x]> t).
Proof.
  intros Hx H c Hk. destruct (decide (q = qc)) as [->|Hne].
  - rewrite lookup_insert_eq in Hk. injection Hk as <-. exact Hx.
  - rewrite lookup_insert_ne in Hk by exact Hne. eauto.
Qed.

Lemma bounded_mkdir (p : path) (ok : bool) (σ σ' : fs) (r : result unit) :
  mkdir p ok σ = (r, σ') ->
  bounded_at cm qc (tree σ) -> bounded_at cm qc (tree σ').
Proof.
  unfold mkdir. intros H Hb.
  destruct (lookup_path σ p) as [[q [[c|]|]]|];
    repeat match type of H with
           | context [if ?b then _ else _] => destruct b
           end;
    injection H as _ <-; try exact Hb.
  apply bounded_insert_dir, Hb.
Qed.

Lemma bounded_make_dirs (segs : list str) :
  forall t cur t',
    make_dirs t cur segs = Ok t' ->
    bounded_at cm qc t -> bounded_at cm qc t'.
Proof.
  induction segs as [|s rest IH]; intros t cur t' H Hb.
  - injection H as <-. exact Hb.
  - cbn [make_dirs] in H. destruct (str_eqb s (lit "..")).
    + destruct (is_dir_at t cur); [|discriminate]. eapply IH; eauto.
    + destruct (node_at t (cur ++ [s])) as [[c|]|]; [discriminate| |].
      * eapply IH; eauto.
      * eapply IH; [exact H|]. apply bounded_insert_dir, Hb.
Qed.

Lemma bounded_mkdir_parents (p : path) (σ σ' : fs) (r : result unit) :
  mkdir_parents p σ = (r, σ') ->
  bounded_at cm qc (tree σ) -> bounded_at cm qc (tree σ').
Proof.
  unfold mkdir_parents. intros H Hb.
  destruct (is_dir_at (tree σ) (start σ p)); [|injection H as _ <-; exact Hb].
  destruct (make_dirs (tree σ) (start σ p) (parts p)) eqn:E;
    injection H as _ <-; [|exact Hb].
  cbn [tree with_tree]. eapply bounded_make_dirs; eauto.
Qed.

Lemma bounded_write_text (p : path) (x : str) (σ σ' : fs) (r : result unit) :
  (length (include_lines cm (universal_newlines x)) <= 1)%nat ->
  write_text p x σ = (r, σ') ->
  bounded_at cm qc (tree σ) -> bounded_at cm qc (tree σ').
Proof.
  unfold write_text. intros Hx H Hb.
  destruct (lookup_path σ p) as [[q [[c|]|]]|];
    repeat match type of H with
           | context [if ?b then _ else _] => destruct b
           end;
    injection H as _ <-; try exact Hb;
    apply bounded_insert_file; assumption.
Qed.

End Bounded.

Lemma write_text_cwd (p : path) (x : str) (σ σ' : fs) (r : result unit) :
  write_text p x σ = (r, σ') -> cwd σ' = cwd σ.
Proof.
  unfold write_text. intros H.
  destruct (lookup_path σ p) as [[q [[c|]|]]|];
    repeat match type of H with
           | context [if ?b then _ else _] => destruct b
           end;
    injection H as _ <-; reflexivity.
Qed.

Lemma place_cwd (σ σ' : fs) (p : path) : cwd σ' = cwd σ -> place σ' p = place σ p.
Proof. intros H. unfold place, start. rewrite H. reflexivity. Qed.

(** The file that a path without [..] reads is the one at its place. *)
Lemma read_bytes_place (p : path) (σ : fs) (c : str) :
  no_dotdot (parts p) = true -> read_bytes p σ = Ok c ->
  tree σ !! place σ p = Some (File c).
Proof.
  intros Hn H. apply read_bytes_lookup in H. destruct H as [q H].
  pose proof (lookup_path_place _ _ _ _ Hn H) as <-.
  apply lookup_path_locate in H. destruct H as [_ H].
  destruct q; [discriminate H|exact H].
Qed.

(** The backup is a copy of a file that was there. *)
Lemma bounded_copy2 (cm : t) (dst : path) (σ σ' : fs) (r : result unit) :
  no_dotdot (parts (ssh_config cm)) = true ->
  copy2 (ssh_config cm) dst σ = (r, σ') ->
  config_bounded cm σ ->
  bounded_at cm (place σ (ssh_config cm)) (tree σ').
Proof.
  unfold copy2. intros Hn H Hb.
  destruct (read_bytes (ssh_config cm) σ) as [c|e] eqn:Hr;
    [|injection H as _ <-; exact Hb].
  pose proof (Hb c (read_bytes_place _ _ _ Hn Hr)) as Hc.
  destruct (lookup_path σ dst) as [[q' [[c'|]|]]|];
    eapply bounded_write_text; eauto.
Qed.


(** *** Running the calls *)

Lemma check_existing_state (cm : t) (σ σ' : fs) (i : existing_info) :
  check_existing_ssh_config cm σ = (Ok i, σ') -> σ' = σ.
Proof.
  unfold check_existing_ssh_config. intros H.
  apply bind_ok in H. destruct H as (a & σ1 & H1 & H).
  apply gets_ok in H1. destruct H1 as [-> ->].
  destruct (negb (exists_ (ssh_config cm) σ)).
  - apply mret_ok in H. tauto.
  - apply bind_ok in H. destruct H as (c & σ2 & H2 & H).
    apply reads_ok in H2. destruct H2 as [_ ->].
    apply mret_ok in H. tauto.
Qed.

Section Calls.
Variable cm : t.
Hypothesis base_one_line : no_char nl (include_line cm) = true.
Hypothesis base_no_cr : no_char cr (include_line cm) = true.

Lemma block_clean :
  universal_newlines (include_comment ++ [nl] ++ include_line cm ++ [nl])
  = include_comment ++ [nl] ++ include_line cm ++ [nl].
Proof.
  apply universal_newlines_clean.
  rewrite !no_char_app, base_no_cr. reflexivity.
Qed.

Lemma appended_clean (content : str) :
  no_char cr content = true ->
  universal_newlines
    ((if endswith [nl] content then content else content ++ [nl])
     ++ [nl] ++ include_comment ++ [nl] ++ include_line cm ++ [nl])
  = (if endswith [nl] content then content else content ++ [nl])
    ++ [nl] ++ include_comment ++ [nl] ++ include_line cm ++ [nl].
Proof.
  intros H. apply universal_newlines_clean.
  destruct (endswith [nl] content);
    rewrite !no_char_app, H, base_no_cr; reflexivity.
Qed.

(** What [add_include_statement] leaves: the statement is in the primary
    config, and on one line only if it was on one line at most before. *)
Lemma add_include_statement_ok (σ σ' : fs) (b : bool) :
  add_include_statement cm σ = (Ok b, σ') ->
  cwd σ' = cwd σ
  /\ has_statement cm σ'
  /\ (config_bounded cm σ -> config_bounded cm σ').
Proof.
  unfold add_include_statement. intros H.
  apply bind_ok in H. destruct H as (a & σ1 & H1 & H).
  apply gets_ok in H1. destruct H1 as [-> ->].
  destruct (negb (exists_ (ssh_config cm) σ)).
  - apply bind_ok in H. destruct H as ([] & σ2 & H2 & H).
    apply mret_ok in H. destruct H as [_ ->].
    pose proof (write_text_cwd _ _ _ _ _ H2) as Hc.
    split; [exact Hc|]. split.
    + apply write_text_ok in H2. destruct H2 as (q & _ & _ & _ & Hr).
      rewrite block_clean in Hr.
      eexists. split; [exact Hr|]. apply block_contains.
    + intros Hb. unfold config_bounded. rewrite (place_cwd _ _ _ Hc).
      eapply bounded_write_text; [|exact H2|exact Hb].
      rewrite block_clean, block_holds_one by exact base_one_line. lia.
  - apply bind_ok in H. destruct H as (content & σ2 & H2 & H).
    apply reads_ok in H2. destruct H2 as [Hr ->].
    destruct (contains (include_line cm) content) eqn:Hc.
    + apply mret_ok in H. destruct H as [_ ->].
      split; [reflexivity|]. split; [|trivial].
      exists content. split; assumption.
    + apply bind_ok in H. destruct H as ([] & σ3 & H3 & H).
      apply mret_ok in H. destruct H as [_ ->].
      assert (Hclean : no_char cr content = true).
      { apply read_text_bytes in Hr. destruct Hr as (c0 & _ & ->).
        apply universal_newlines_no_cr. }
      pose proof (write_text_cwd _ _ _ _ _ H3) as Hcw.
      split; [exact Hcw|]. split.
      * apply write_text_ok in H3. destruct H3 as (q & _ & _ & _ & Hr').
        rewrite appended_clean in Hr' by exact Hclean.
        eexists. split; [exact Hr'|]. apply appended_contains.
      * intros Hb. unfold config_bounded. rewrite (place_cwd _ _ _ Hcw).
        eapply bounded_write_text; [|exact H3|exact Hb].
        rewrite appended_clean by exact Hclean.
        rewrite appended_holds_one by assumption. lia.
Qed.

(** [initialize] is a sequence of steps that only add to the disk,
    followed by [add_include_statement]. *)
Lemma initialize_steps (σ σ' : fs) (r : init_result) :
  initialize cm σ = (Ok r, σ') ->
  exists σm, grows σ σm
             /\ (no_dotdot (parts (ssh_config cm)) = true ->
                 config_bounded cm σ -> config_bounded cm σm)
             /\ add_include_statement cm σm = (Ok (added_include r), σ').
Proof.
  unfold initialize. intros H.
  set (qc := place σ (ssh_config cm)).
  apply bind_ok in H. destruct H as (base_there & σ1 & H1 & H).
  apply gets_ok in H1. destruct H1 as [-> ->].
  apply bind_ok in H. destruct H as (dirs & σ2 & H2 & H).
  assert (G2 : grows σ σ2
               /\ (bounded_at cm qc (tree σ) -> bounded_at cm qc (tree σ2))).
  { destruct (negb (exists_ (base_path cm) σ)).
    - apply bind_ok in H2. destruct H2 as ([] & σ1 & H1 & H2).
      apply mret_ok in H2. destruct H2 as [_ ->].
      split; [eapply mkdir_parents_grows; eauto|eapply bounded_mkdir_parents; eauto].
    - apply mret_ok in H2. destruct H2 as [_ ->]. split; [apply grows_refl|trivial]. }
  clear H2. destruct G2 as [G2 B2].
  apply bind_ok in H. destruct H as ([] & σ3 & H3 & H).
  pose proof (bounded_mkdir cm qc _ _ _ _ _ H3) as B3. apply mkdir_grows in H3.
  apply bind_ok in H. destruct H as ([] & σ4 & H4 & H).
  pose proof (bounded_mkdir cm qc _ _ _ _ _ H4) as B4. apply mkdir_grows in H4.
  apply bind_ok in H. destruct H as ([] & σ5 & H5 & H).
  pose proof (bounded_mkdir cm qc _ _ _ _ _ H5) as B5. apply mkdir_grows in H5.
  apply bind_ok in H. destruct H as (existing & σ6 & H6 & H).
  apply check_existing_state in H6. subst σ6.
  apply bind_ok in H. destruct H as (config_there & σ7 & H7 & H).
  apply gets_ok in H7. destruct H7 as [-> ->].
  apply bind_ok in H. destruct H as (backup_there & σ8 & H8 & H).
  apply gets_ok in H8. destruct H8 as [-> ->].
  apply bind_ok in H. destruct H as (backup & σ9 & H9 & H).
  assert (G5 : grows σ σ5) by eauto using grows_trans.
  assert (P5 : place σ5 (ssh_config cm) = qc) by (apply place_cwd, G5).
  assert (G9 : grows σ5 σ9
               /\ (no_dotdot (parts (ssh_config cm)) = true ->
                   bounded_at cm qc (tree σ5) -> bounded_at cm qc (tree σ9))).
  { destruct (exists_ (ssh_config cm) σ5); cbn [andb] in H9;
      [|apply mret_ok in H9; destruct H9 as [_ ->];
        split; [apply grows_refl|trivial]].
    destruct (exists_ (backup_path cm) σ5) eqn:Eb; cbn [negb] in H9;
      [apply mret_ok in H9; destruct H9 as [_ ->];
       split; [apply grows_refl|trivial]|].
    apply bind_ok in H9. destruct H9 as ([] & σ1 & H1 & H9).
    apply mret_ok in H9. destruct H9 as [_ ->].
    split; [eapply copy2_grows; eauto|].
    intros Hn Hb. rewrite <- P5. eapply bounded_copy2; eauto.
    unfold config_bounded. rewrite P5. exact Hb. }
  destruct G9 as [G9 B9].
  apply bind_ok in H. destruct H as (include & σ10 & H10 & H).
  apply mret_ok in H. destruct H as [-> ->].
  exists σ9. split; [eauto using grows_trans|]. split; [|exact H10].
  intros Hn Hb. unfold config_bounded.
  replace (place σ9 (ssh_config cm)) with qc
    by (symmetry; apply place_cwd; destruct G9 as [E _]; destruct G5 as [E' _];
        congruence).
  apply B9; [exact Hn|]. apply B5, B4, B3, B2. exact Hb.
Qed.

Lemma initialize_ok (σ σ' : fs) (r : init_result) :
  initialize cm σ = (Ok r, σ') ->
  has_statement cm σ'
  /\ (no_dotdot (parts (ssh_config cm)) = true ->
      config_bounded cm σ -> config_bounded cm σ').
Proof.
  intros H. destruct (initialize_steps _ _ _ H) as (σm & _ & Hb & Ha).
  apply add_include_statement_ok in Ha. destruct Ha as (_ & Hs & Hb').
  split; [exact Hs|]. auto.
Qed.

Lemma initialize_times_ok (n : nat) :
  forall (σ σ' : fs) (rs : list init_result),
    initialize_times cm (S n) σ = (Ok rs, σ') ->
    has_statement cm σ'
    /\ (no_dotdot (parts (ssh_config cm)) = true ->
        config_bounded cm σ -> config_bounded cm σ').
Proof.
  induction n as [|n IH]; intros σ σ' rs H.
  - cbn [initialize_times] in H.
    apply bind_ok in H. destruct H as (r & σ1 & H1 & H).
    apply bind_ok in H. destruct H as (rs' & σ2 & H2 & H).
    apply mret_ok in H2. destruct H2 as [_ ->].
    apply mret_ok in H. destruct H as [_ ->].
    eapply initialize_ok; eauto.
  - change (initialize_times cm (S (S n)))
      with (r ← initialize cm; rs ← initialize_times cm (S n); mret (r :: rs)) in H.
    apply bind_ok in H. destruct H as (r & σ1 & H1 & H).
    apply bind_ok in H. destruct H as (rs' & σ2 & H2 & H).
    apply mret_ok in H. destruct H as [_ ->].
    apply initialize_ok in H1. destruct H1 as [_ Hb1].
    destruct (IH _ _ _ H2) as [Hs Hb2]. split; [exact Hs|]. auto.
Qed.

(** Once the statement is there, a call leaves the primary config as it
    is and reports that nothing was added. *)
Lemma initialize_again (σ σ' : fs) (r : init_result) :
  has_statement cm σ ->
  initialize cm σ = (Ok r, σ') ->
  added_include r = false
  /\ read_text (ssh_config cm) σ' = read_text (ssh_config cm) σ.
Proof.
  intros (text & Hr & Hc) H.
  destruct (initialize_steps _ _ _ H) as (σm & G & _ & Ha).
  pose proof (read_text_mono _ _ _ _ G Hr) as Hm.
  unfold add_include_statement in Ha.
  apply bind_ok in Ha. destruct Ha as (a & σ1 & H1 & Ha).
  apply gets_ok in H1. destruct H1 as [-> ->].
  rewrite (read_text_exists _ _ _ Hm) in Ha. cbn [negb] in Ha.
  apply bind_ok in Ha. destruct Ha as (content & σ2 & H2 & Ha).
  apply reads_ok in H2. destruct H2 as [Hr' ->].
  assert (content = text) by congruence. subst content.
  rewrite Hc in Ha. apply mret_ok in Ha. destruct Ha as [<- ->].
  split; [reflexivity|congruence].
Qed.

Lemma initialize_times_again (n : nat) :
  forall (σ σ' : fs) (rs : list init_result),
    has_statement cm σ ->
    initialize_times cm n σ = (Ok rs, σ') ->
    read_text (ssh_config cm) σ' = read_text (ssh_config cm) σ
    /\ Forall (fun r => added_include r = false) rs.
Proof.
  induction n as [|n IH]; intros σ σ' rs Hs H.
  - apply mret_ok in H. destruct H as [-> ->]. split; [reflexivity|constructor].
  - cbn [initialize_times] in H.
    apply bind_ok in H. destruct H as (r & σ1 & H1 & H).
    apply bind_ok in H. destruct H as (rs' & σ2 & H2 & H).
    apply mret_ok in H. destruct H as [-> ->].
    destruct (initialize_again _ _ _ Hs H1) as [Hr1 He1].
    assert (Hs1 : has_statement cm σ1).
    { destruct Hs as (text & Hr & Hc). exists text. split; [congruence|exact Hc]. }
    destruct (IH _ _ _ Hs1 H2) as [He2 Hf].
    split; [congruence|]. constructor; assumption.
Qed.


End Calls.


Example initialize_three_times :
  read_text (ssh_config cm0) (snd (initialize_times cm0 3 store0))
  = Ok (lit "# SSH Manager - Auto-generated connections
Include /home/u/ssh_manager/groups/**/*.conf
").
Proof. vm_compute. reflexivity. Qed.

Lemma store0_config_bounded : config_bounded cm0 store0.
Proof. intros c Hc. vm_compute in Hc. discriminate Hc. Defined.


(** C3 as stated fails: a primary config that holds the statement on two
    lines keeps both through three calls. *)
Lemma initialize_keeps_duplicates :
  ~ (forall σ rs σ' text,
       initialize_times cm0 3 σ = (Ok rs, σ') ->
       read_text (ssh_config cm0) σ' = Ok text ->
       length (include_lines cm0 text) = 1%nat).
Proof.
  intros H.
  specialize (H store_twice
                (match fst (initialize_times cm0 3 store_twice) with
                 | Ok rs => rs
                 | Raise _ => []
                 end)
                (snd (initialize_times cm0 3 store_twice)) twice).
  assert (H1 : initialize_times cm0 3 store_twice
               = (Ok (match fst (initialize_times cm0 3 store_twice) with
                      | Ok rs => rs
                      | Raise _ => []
                      end),
                  snd (initialize_times cm0 3 store_twice)))
    by (vm_compute; reflexivity).
  assert (H2 : read_text (ssh_config cm0) (snd (initialize_times cm0 3 store_twice))
               = Ok twice) by (vm_compute; reflexivity).
  specialize (H H1 H2). vm_compute in H. discriminate H.
Qed.

End IncludeFacts.

Example format_demo :
  Templates.format_ (lit "a {x} b{{c}} {y}") {[ lit "x" := lit "1"; lit "y" := lit "2" ]}
  = Ok (lit "a 1 b{c} 2")
  /\ Templates.format_ (lit "a {x} }") ∅ = Raise (Exn KeyError (lit "x"))
  /\ Templates.format_ (lit "a }") ∅ = Raise (Exn ValueError [])
  /\ Templates.format_ (lit "a {} b") ∅ = Raise (Exn IndexError [])
  /\ Templates.placeholders (Templates.content Templates.aws_ec2)
     = [lit "name"; lit "host"; lit "user_line"; lit "port"; lit "key_file"]
  /\ forallb (fun kt => Templates.plain_template (Templates.content (snd kt)))
       Templates.default_templates = true.
Proof. repeat split; vm_compute; reflexivity. Qed.

(** ** [Templates]: substitution of the variables *)
Module TemplateClaims.
Import Py Templates.

Lemma render_present (variables : gmap str str) (ps : list piece) :
  existsb is_broken ps = false ->
  (forall k, In k (field_keys ps) -> is_Some (variables !! k)) ->
  render ps variables = Ok (concat (map (replaced variables) ps)).
Proof.
  induction ps as [|p ps IH]; intros Hb Hk; [reflexivity|].
  destruct p as [s|k|e]; cbn [existsb is_broken orb] in Hb; [| |discriminate].
  - cbn [render map concat replaced]. rewrite IH by assumption. reflexivity.
  - destruct (Hk k (or_introl eq_refl)) as [v Hv].
    cbn [render map concat replaced]. rewrite Hv.
    rewrite IH; [reflexivity|exact Hb|]. intros k' Hk'. apply Hk. right. exact Hk'.
Qed.

Lemma render_raise (variables : gmap str str) (ps : list piece) (e : exn) :
  existsb is_broken ps = false ->
  render ps variables = Raise e ->
  exists k, In k (field_keys ps) /\ variables !! k = None /\ e = Exn KeyError k.
Proof.
  induction ps as [|p ps IH]; intros Hb H; [discriminate|].
  destruct p as [s|k|x]; cbn [existsb is_broken orb] in Hb; [| |discriminate].
  - cbn [render] in H. destruct (render ps variables) eqn:E; [discriminate|].
    injection H as ->. destruct (IH Hb eq_refl) as (k & Hin & Hk & ->). eauto.
  - cbn [render] in H. destruct (variables !! k) eqn:Ek.
    + destruct (render ps variables) eqn:E; [discriminate|].
      injection H as ->. destruct (IH Hb eq_refl) as (k' & Hin & Hk' & ->).
      exists k'. split; [right; exact Hin|]. split; [exact Hk'|reflexivity].
    + injection H as <-. exists k. split; [left; reflexivity|]. split; [exact Ek|reflexivity].
Qed.

Lemma render_missing (variables : gmap str str) (ps : list piece) (k : str) :
  existsb is_broken ps = false ->
  In k (field_keys ps) -> variables !! k = None ->
  exists e, render ps variables = Raise e.
Proof.
  intros Hb Hin Hk. destruct (render ps variables) as [out|e] eqn:E; [|eauto].
  exfalso. revert out E. induction ps as [|p ps IH]; intros out E; [destruct Hin|].
  destruct p as [s|k'|x]; cbn [existsb is_broken orb] in Hb; [| |discriminate].
  - cbn [render] in E. cbn [field_keys] in Hin.
    destruct (render ps variables) eqn:E'; [|discriminate]. eapply IH; eauto.
  - cbn [render] in E. cbn [field_keys] in Hin.
    destruct (variables !! k') eqn:Ek; [|discriminate].
    destruct Hin as [->|Hin]; [congruence|].
    destruct (render ps variables) eqn:E'; [|discriminate]. eapply IH; eauto.
Qed.

Lemma catalog_plain (template_name : str) (t : template) :
  get_template template_name = Ok t -> plain_template (content t) = true.
Proof.
  unfold get_template, default_templates. cbn [find_template].
  repeat match goal with
         | |- context [str_eqb ?a ?b] => destruct (str_eqb a b)
         end;
    intros [= <-]; vm_compute; reflexivity.
Qed.

Lemma plain_not_broken (s : str) :
  plain_template s = true -> existsb is_broken (tokens s) = false.
Proof.
  unfold plain_template. intros H. apply andb_prop in H. destruct H as [H _].
  apply negb_true_iff, H.
Qed.

(** *** The reading of [str.format] against the claim's reading *)

Lemma brace_parts_source (s : str) :
  forall opened,
    concat (map part_source (brace_parts opened s))
    = match opened with
      | None => s
      | Some k => lit "{" ++ k ++ s
      end.
Proof.
  induction s as [|c s IH]; intros opened.
  - destruct opened as [k|]; [|reflexivity]. cbn [brace_parts].
    rewrite app_nil_r. change (lit "{" ++ k) with ("{"%char :: k).
    generalize ("{"%char :: k). intros l.
    induction l as [|x l IHl]; [reflexivity|]. cbn. rewrite IHl. reflexivity.
  - destruct opened as [k|]; cbn [brace_parts].
    + destruct (Ascii.eqb c "}") eqn:E.
      * apply Ascii.eqb_eq in E. subst c. cbn [map concat part_source].
        rewrite IH, <- !app_assoc. reflexivity.
      * rewrite IH, <- !app_assoc. reflexivity.
    + destruct (Ascii.eqb c "{") eqn:E.
      * apply Ascii.eqb_eq in E. subst c. rewrite IH. reflexivity.
      * cbn [map concat part_source]. rewrite IH. reflexivity.
Qed.

Lemma part_keys_lits (t : str) (ps : list part) :
  part_keys (map Lit t ++ ps) = part_keys ps.
Proof. induction t as [|c t IH]; [reflexivity|exact IH]. Qed.

Lemma part_values_lits (variables : gmap str str) (t : str) (ps : list part) :
  concat (map (part_value variables) (map Lit t ++ ps))
  = t ++ concat (map (part_value variables) ps).
Proof.
  induction t as [|c t IH]; [reflexivity|]. cbn. rewrite IH. reflexivity.
Qed.

Lemma field_keys_parts (ps : list piece) :
  field_keys ps = part_keys (parts_of_pieces ps).
Proof.
  induction ps as [|p ps IH]; [reflexivity|].
  destruct p as [t|k|e]; cbn [field_keys parts_of_pieces part_keys].
  - rewrite part_keys_lits. exact IH.
  - rewrite IH. reflexivity.
  - exact IH.
Qed.

Lemma replaced_parts (variables : gmap str str) (ps : list piece) :
  concat (map (replaced variables) ps)
  = concat (map (part_value variables) (parts_of_pieces ps)).
Proof.
  induction ps as [|p ps IH]; [reflexivity|].
  destruct p as [t|k|e]; cbn [map concat replaced parts_of_pieces].
  - rewrite part_values_lits, IH. reflexivity.
  - cbn [part_value]. rewrite IH. reflexivity.
  - exact IH.
Qed.

(** On the texts of the catalog [str.format] reads what the claim reads:
    the same keys at the same places, and nothing it would refuse. *)
Lemma catalog_parts (template_name : str) (t : template) :
  get_template template_name = Ok t ->
  parts_of_pieces (tokens (content t)) = brace_parts None (content t)
  /\ existsb is_broken (tokens (content t)) = false.
Proof.
  unfold get_template, default_templates. cbn [find_template].
  repeat match goal with
         | |- context [str_eqb ?a ?b] => destruct (str_eqb a b)
         end;
    intros [= <-]; split; vm_compute; reflexivity.
Qed.

Lemma catalog_keys (template_name : str) (t : template) :
  get_template template_name = Ok t ->
  placeholders (content t) = brace_keys (content t).
Proof.
  intros H. destruct (catalog_parts _ _ H) as [Hp _].
  unfold placeholders, brace_keys. rewrite field_keys_parts, Hp. reflexivity.
Qed.

Lemma catalog_substitution (template_name : str) (t : template)
    (variables : gmap str str) :
  get_template template_name = Ok t ->
  concat (map (replaced variables) (tokens (content t)))
  = literal_substitution (content t) variables.
Proof.
  intros H. destruct (catalog_parts _ _ H) as [Hp _].
  unfold literal_substitution. rewrite replaced_parts, Hp. reflexivity.
Qed.

(** C9.  [create_from_template] raises exactly when the template id is
    unknown or the template text holds a [{key}] whose key the variables
    lack; otherwise it returns the template text with every [{key}]
    replaced by the value of [key].  What a [{key}] is, is read off the
    text itself: from a [{] up to the next [}]; written back, the parts
    give the text again.  The keys of the four templates are listed. *)
Theorem create_from_template_contract (template_name : str)
  (variables : gmap str str) :
  (is_raise (create_from_template template_name variables) = true <->
   is_raise (get_template template_name) = true
   \/ exists t k, get_template template_name = Ok t
                  /\ In k (brace_keys (content t))
                  /\ variables !! k = None)
  /\ (forall t,
        get_template template_name = Ok t ->
        ((forall k, In k (brace_keys (content t)) -> is_Some (variables !! k)) ->
         create_from_template template_name variables
         = Ok (literal_substitution (content t) variables))
        /\ (forall e, create_from_template template_name variables = Raise e ->
            exists k, In k (brace_keys (content t)) /\ variables !! k = None
                      /\ e = missing_variable k))
  /\ (forall e, get_template template_name = Raise e ->
        create_from_template template_name variables
        = Raise (Exn ValueError (lit "Template '" ++ template_name ++ lit "' not found")))
  /\ (forall s, concat (map part_source (brace_parts None s)) = s)
  /\ map (fun kt => (fst kt, brace_keys (content (snd kt)))) default_templates
     = [(lit "basic-server",
         [lit "name"; lit "host"; lit "user_line"; lit "port"; lit "key_file";
          lit "server_alive_interval"; lit "server_alive_count_max";
          lit "connect_timeout"; lit "compression";
          lit "strict_host_key_checking"; lit "control_master";
          lit "control_path"; lit "control_persist"; lit "forward_x11";
          lit "forward_agent"]);
        (lit "aws-ec2",
         [lit "name"; lit "host"; lit "user_line"; lit "port"; lit "key_file"]);
        (lit "jump-host",
         [lit "name"; lit "host"; lit "user_line"; lit "port"; lit "key_file";
          lit "jump_host"; lit "server_alive_interval";
          lit "server_alive_count_max"; lit "connect_timeout";
          lit "compression"; lit "strict_host_key_checking";
          lit "control_master"; lit "control_path"; lit "control_persist"]);
        (lit "developer",
         [lit "name"; lit "host"; lit "user_line"; lit "port"; lit "key_file";
          lit "local_forwards"; lit "remote_forwards"; lit "dynamic_forward";
          lit "server_alive_interval"; lit "server_alive_count_max";
          lit "connect_timeout"; lit "compression";
          lit "strict_host_key_checking"; lit "control_master";
          lit "control_path"; lit "control_persist"])].
Proof.
  assert (Hpart2 : forall t,
    get_template template_name = Ok t ->
    ((forall k, In k (brace_keys (content t)) -> is_Some (variables !! k)) ->
     create_from_template template_name variables
     = Ok (literal_substitution (content t) variables))
    /\ (forall e, create_from_template template_name variables = Raise e ->
        exists k, In k (brace_keys (content t)) /\ variables !! k = None
                  /\ e = missing_variable k)).
  { intros t Ht. destruct (catalog_parts _ _ Ht) as [_ Hb].
    pose proof (catalog_keys _ _ Ht) as Hkeys. unfold placeholders in Hkeys.
    split.
    - intros Hk. unfold create_from_template, format_. rewrite Ht.
      rewrite render_present; [|exact Hb|rewrite Hkeys; exact Hk].
      rewrite (catalog_substitution _ _ _ Ht). reflexivity.
    - intros e He. unfold create_from_template, format_ in He. rewrite Ht in He.
      destruct (render (tokens (content t)) variables) as [out|e'] eqn:E;
        [discriminate|].
      destruct (render_raise _ _ _ Hb E) as (k & Hin & Hk & ->).
      cbn [kind message] in He. injection He as <-.
      rewrite Hkeys in Hin. eauto. }
  split; [|split; [exact Hpart2|split; [|split]]].
  - split.
    + intros Hr. destruct (get_template template_name) as [t|e] eqn:Ht;
        [right|left; reflexivity].
      destruct (create_from_template template_name variables) as [out|e] eqn:E;
        [discriminate|].
      destruct (Hpart2 t eq_refl) as (_ & H3).
      destruct (H3 e eq_refl) as (k & Hin & Hk & _). eauto.
    + intros [Hr|(t & k & Ht & Hin & Hk)].
      * unfold create_from_template.
        destruct (get_template template_name); [discriminate|reflexivity].
      * destruct (catalog_parts _ _ Ht) as [_ Hb].
        pose proof (catalog_keys _ _ Ht) as Hkeys. unfold placeholders in Hkeys.
        rewrite <- Hkeys in Hin.
        destruct (render_missing variables _ k Hb Hin Hk) as [e He].
        unfold create_from_template, format_. rewrite Ht, He.
        destruct (kind e); reflexivity.
  - intros e He. unfold create_from_template. rewrite He.
    unfold get_template in He.
    destruct (find_template template_name default_templates); [discriminate|].
    injection He as <-. reflexivity.
  - intros s. apply (brace_parts_source s None).
  - vm_compute. reflexivity.
Qed.


Lemma create_from_template_contract_witness :
  create_from_template (lit "aws-ec2") ec2_variables
  = Ok (lit "# AWS EC2 Instance
Host web1
    HostName 203.0.113.7
    User ec2-user
    Port 22
    IdentityFile ~/.ssh/aws.pem
    
    # AWS EC2 Optimized Settings
    ServerAliveInterval 60
    ServerAliveCountMax 3
    ConnectTimeout 30
    Compression yes
    StrictHostKeyChecking no
    UserKnownHostsFile /dev/null
    
    # Connection Multiplexing for Speed
    ControlMaster auto
    ControlPath ~/.ssh/control-%h-%p-%r
    ControlPersist 10m
")
  /\ is_raise (create_from_template (lit "aws-ec2") (delete (lit "port") ec2_variables))
     = true
  /\ is_raise (create_from_template (lit "no-such-template") ec2_variables) = true.
Proof.
  destruct (create_from_template_contract (lit "aws-ec2") ec2_variables)
    as (_ & H2 & _).
  destruct (H2 aws_ec2 eq_refl) as (Hok & _).
  split.
  - rewrite Hok; [vm_compute; reflexivity|].
    intros k Hk. vm_compute in Hk.
    repeat (destruct Hk as [<-|Hk]; [vm_compute; eauto|]). destruct Hk.
  - split.
    + apply (create_from_template_contract (lit "aws-ec2")
               (delete (lit "port") ec2_variables)).
      right. exists aws_ec2, (lit "port"). split; [reflexivity|].
      split; [vm_compute; tauto|vm_compute; reflexivity].
    + apply (create_from_template_contract (lit "no-such-template") ec2_variables).
      left. reflexivity.
Defined.

End TemplateClaims.

(** ** [Connection]: what validation accepts, parsing without a name *)
Module ConnectionMore.
Import Py PyFacts Json JsonFacts Connection ConnectionFacts RoundTrip.

Lemma app_nil_both {A} (a b : list A) : a ++ b = [] <-> a = [] /\ b = [].
Proof.
  split; [apply app_eq_nil|]. intros [-> ->]. reflexivity.
Qed.

(** [validate] returns no error exactly when the name is a non-empty word
    over letters, digits, dash and underscore, possibly followed by one
    newline (the pattern's [$] lets it through), host name and user are
    not empty, the port lies in 1..65535, and the folder holds no [..]
    and does not start with a slash. *)
Theorem validate_accepts (c : t) :
  validate c = [] <->
  (exists body,
     body <> [] /\ forallb name_char body = true
     /\ (name c = body \/ name c = body ++ [nl]))
  /\ hostname c <> [] /\ user c <> []
  /\ 1 <= port c <= 65535
  /\ contains (lit "..") (folder c) = false
  /\ startswith (lit "/") (folder c) = false.
Proof.
  unfold validate. rewrite !app_nil_both.
  assert (Hname :
    (if is_empty (name c) then [msg_name_required]
     else if negb (name_pattern (name c)) then [msg_name_pattern] else []) = []
    <-> exists body, body <> [] /\ forallb name_char body = true
                     /\ (name c = body \/ name c = body ++ [nl])).
  { unfold name_pattern. destruct (name c) as [|x n] eqn:En.
    - cbn [is_empty]. split; [discriminate|].
      intros (body & Hne & _ & [E|E]); [congruence|destruct body; discriminate].
    - cbn [is_empty].
      destruct (name_pattern_from false (x :: n)) eqn:Ep; cbn [negb].
      + split; [intros _|reflexivity].
        apply name_pattern_from_spec in Ep.
        destruct Ep as (body & Hb & E & [Hs|Hs]); [discriminate|]. eauto.
      + split; [discriminate|]. intros (body & Hne & Hb & E).
        assert (name_pattern_from false (x :: n) = true); [|congruence].
        apply name_pattern_from_spec. exists body. auto. }
  rewrite Hname.
  assert (Hhost : (if is_empty (hostname c) then [msg_hostname_required] else [])
                  = [] <-> hostname c <> []).
  { destruct (hostname c); cbn [is_empty]; split; congruence. }
  assert (Huser : (if is_empty (user c) then [msg_username_required] else [])
                  = [] <-> user c <> []).
  { destruct (user c); cbn [is_empty]; split; congruence. }
  assert (Hport : (if negb ((1 <=? port c) && (port c <=? 65535))
                   then [msg_port_range] else []) = []
                  <-> 1 <= port c <= 65535).
  { destruct (1 <=? port c) eqn:E1; destruct (port c <=? 65535) eqn:E2;
      cbn [andb negb]; split; try discriminate; try reflexivity;
      try (intros _; apply Z.leb_le in E1; apply Z.leb_le in E2; lia);
      intros [H1 H2];
      try (apply Z.leb_gt in E1); try (apply Z.leb_gt in E2); lia. }
  assert (Hfolder :
    (if contains (lit "..") (folder c) || startswith (lit "/") (folder c)
     then [msg_invalid_folder] else []) = []
    <-> contains (lit "..") (folder c) = false
        /\ startswith (lit "/") (folder c) = false).
  { destruct (contains (lit "..") (folder c));
      destruct (startswith (lit "/") (folder c)); cbn [orb];
      split; try discriminate; try tauto; intros [? ?]; discriminate. }
  rewrite Hhost, Huser, Hport, Hfolder. tauto.
Qed.

(** *** Round trip when the caller gives no name *)

Lemma parse_host_line_names (st : t) (n : str) :
  name st = [] -> n <> [] -> no_space n = true ->
  parse_line st (lit "Host " ++ n) = Ok (set_name n st).
Proof.
  intros Hst Hn Hs. unfold parse_line.
  change (lit "Host " ++ n) with ("H"%char :: lit "ost " ++ n).
  rewrite strip_visible_ends
    by (reflexivity
        || apply (ends_visible_app (lit "Host ")), ends_visible_no_space;
           assumption).
  change ("H"%char :: lit "ost " ++ n) with (lit "Host " ++ n).
  rewrite (directive_value_written (lit "Host ")) by kw_side.
  rewrite Hst. reflexivity.
Qed.

Lemma parse_metadata_lines (st r : t) (rest : list str) :
  parse_lines st (metadata_lines r ++ rest) = parse_lines st rest.
Proof.
  unfold metadata_lines. destruct (is_empty (color_tag r)); [reflexivity|].
  cbn [app]. rewrite (parse_lines_cons st st) by apply parse_metadata_line.
  reflexivity.
Qed.

Lemma invariants_name (r : t) :
  invariants r = true ->
  is_empty (name r) = false /\ name r <> [] /\ no_space (name r) = true.
Proof.
  unfold invariants. rewrite !andb_true_iff, !negb_true_iff.
  intros [[[[[[Hn Hc] _] _] _] _] _].
  split; [exact Hn|]. split; [apply not_empty, Hn|apply name_class_no_space, Hc].
Qed.

Lemma extract_color_written (r : t) :
  invariants r = true -> no_exotic r = true ->
  extract_color (to_ssh_config r) = Ok (ColorStr (color_tag r)).
Proof.
  intros Hi He. destruct (is_empty (color_tag r)) eqn:E.
  - assert (E' : color_tag r = []) by (destruct (color_tag r); [reflexivity|discriminate]).
    rewrite E'. apply extract_color_untagged; assumption.
  - apply extract_color_tagged; assumption.
Qed.

(** The text of a record is read back with the name given, or with none. *)
Lemma text_parses_back (r : t) (nm : str) :
  invariants r = true -> no_exotic r = true -> nm = [] \/ nm = name r ->
  from_ssh_config (to_ssh_config r) nm (folder r) = Ok (Returned r).
Proof.
  intros Hi He Hnm. unfold from_ssh_config.
  rewrite extract_color_written by assumption.
  rewrite split_to_ssh_config by (apply single_line_of_valid; assumption).
  destruct (invariants_name r Hi) as (Hn & Hne & Hs).
  pose proof (parse_written_lines r Hi He) as Hw.
  destruct Hnm as [->| ->]; [|rewrite Hw, Hn; reflexivity].
  rewrite config_lines_shape in *. rewrite <- app_assoc in *.
  rewrite parse_metadata_lines in *. cbn [app] in *.
  set (st := mk (name r) [] [] 22 [] (folder r) [] [] [] (color_tag r)) in *.
  rewrite (parse_lines_cons st st)
    in Hw by (apply parse_host_line; [exact Hn|exact Hne|exact Hs]).
  rewrite (parse_lines_cons _ (set_name (name r)
             (mk [] [] [] 22 [] (folder r) [] [] [] (color_tag r))))
    by (apply parse_host_line_names; [reflexivity|exact Hne|exact Hs]).
  change (set_name (name r) (mk [] [] [] 22 [] (folder r) [] [] [] (color_tag r)))
    with st.
  rewrite Hw, Hn. reflexivity.
Qed.

(** Without a name argument [from_ssh_config] takes the name from the
    [Host] line: a record that meets the invariants and holds no exotic
    character is read back whole from its own text. *)
Theorem roundtrip_name_from_host_line (r : t) :
  invariants r = true -> no_exotic r = true ->
  from_ssh_config (to_ssh_config r) [] (folder r) = Ok (Returned r).
Proof. intros Hi He. apply text_parses_back; auto. Qed.

Lemma roundtrip_name_from_host_line_witness :
  invariants db1 = true /\ no_exotic db1 = true
  /\ from_ssh_config (to_ssh_config db1) [] (folder db1) = Ok (Returned db1).
Proof.
  split; [reflexivity|]. split; [reflexivity|].
  apply (roundtrip_name_from_host_line db1); reflexivity.
Defined.

(** *** The dictionary form *)

Lemma from_dict_other_key (data : gmap str ConnectionDict.value) (k : str)
    (v : ConnectionDict.value) :
  ~ In k ConnectionDict.field_names ->
  ConnectionDict.from_dict (<[k := v]> data) = ConnectionDict.from_dict data.
Proof.
  intros Hk. unfold ConnectionDict.from_dict, ConnectionDict.get_str,
    ConnectionDict.get_int, ConnectionDict.get_forwards.
  rewrite !lookup_insert_ne; [reflexivity|..];
    intros E; subst k; apply Hk; unfold ConnectionDict.field_names;
    repeat (first [left; reflexivity | right]).
Qed.

(** [from_dict] undoes [to_dict]; keys it does not know are ignored, also
    beside the ten of a record; the empty dictionary gives the defaults
    (port 22, folder [personal], the rest empty). *)
Theorem dict_roundtrip (c : t) :
  ConnectionDict.from_dict (ConnectionDict.to_dict c) = Some c
  /\ (forall k v, ~ In k ConnectionDict.field_names ->
        ConnectionDict.from_dict (<[k := v]> (ConnectionDict.to_dict c)) = Some c)
  /\ ConnectionDict.from_dict ∅
     = Some (mk [] [] [] 22 [] (lit "personal") [] [] [] []).
Proof.
  split; [destruct c; reflexivity|]. split; [|reflexivity].
  intros k v Hk. rewrite from_dict_other_key by exact Hk.
  destruct c; reflexivity.
Qed.

End ConnectionMore.
